(** * Secure-2FA: the vault front end and the vault contract

    The repository's source tree holds the Svelte front end (PIN pad, page,
    PIN settings modal, add-account modal with its QR scan and selection
    overlay, toast list, two account cards), the script of the installer
    window and the SQL schema of the [accounts] table.  The Rust commands behind [invoke] are
    not part of the tree; where a property is decided by them, the command
    is modelled from the specification and marked as such.

    Conventions of the embedding:
    - a JS string is a Rocq [string] holding its UTF-8 bytes; on ASCII text
      [String.length] is the JS [length];
    - a JS number that holds an integer is a [Z];
    - a byte is a [Z] in [0, 256), a byte sequence a [list Z];
    - an [async] handler is split at its [await invoke(...)]: the part before
      it builds the request, the part after it consumes a [response]. *)

From Stdlib Require Import String Ascii DecimalString ZArith List Bool Lia.
Import ListNotations.
Open Scope string_scope.
Open Scope list_scope.
Open Scope Z_scope.

(** ** Byte sequences *)

Module Bytes.

Definition byte := Z.
Definition bytes := list Z.

Definition of_ascii (c : ascii) : byte := Z.of_N (N_of_ascii c).

Definition of_string (s : string) : bytes := map of_ascii (list_ascii_of_string s).

Fixpoint xor (a b : bytes) : bytes :=
  match a, b with
  | x :: a', y :: b' => Z.lxor x y :: xor a' b'
  | _, _ => []
  end.

(** Comparison without early exit: the differences of all positions are
    accumulated with [lor] and the accumulator is tested once. *)
Fixpoint diff_acc (acc : Z) (a b : bytes) : Z :=
  match a, b with
  | x :: a', y :: b' => diff_acc (Z.lor acc (Z.lxor x y)) a' b'
  | _, _ => acc
  end.

Definition constant_time_eq (a b : bytes) : bool :=
  (length a =? length b)%nat && (diff_acc 0 a b =? 0).

(** Big-endian and little-endian encodings of a number on [n] bytes. *)
Fixpoint le_bytes (n : nat) (x : Z) : bytes :=
  match n with
  | O => []
  | S n' => x mod 256 :: le_bytes n' (x / 256)
  end.

Definition be_bytes (n : nat) (x : Z) : bytes := rev (le_bytes n x).

Definition of_le (l : bytes) : Z := fold_right (fun b acc => b + 256 * acc) 0 l.

Definition of_be (l : bytes) : Z := fold_left (fun acc b => 256 * acc + b) l 0.

(** [chunks n l] cuts [l] into consecutive pieces of [n] elements (the last
    one may be shorter); [fuel] bounds the number of pieces. *)
Fixpoint chunks_fuel {A} (fuel : nat) (n : nat) (l : list A) : list (list A) :=
  match fuel, l with
  | O, _ => []
  | _, [] => []
  | S fuel', _ => firstn n l :: chunks_fuel fuel' n (skipn n l)
  end.

Definition chunks {A} (n : nat) (l : list A) : list (list A) :=
  chunks_fuel (length l) n l.

End Bytes.

(** ** SHA-256 (FIPS 180-4), the hash under the PIN key derivation

    The key derivation and the cipher are computed by the Rust backend with
    library code; they are written out here after their standards so that
    the vault commands can be run, and are checked against the published
    test vectors in the last section. *)

Module Sha256.
Import Bytes.

Definition mask32 : Z := 0xFFFFFFFF.
Definition w32 (x : Z) : Z := Z.land x mask32.
Definition add32 (x y : Z) : Z := w32 (x + y).
Definition rotr (n x : Z) : Z := Z.lor (Z.shiftr x n) (w32 (Z.shiftl x (32 - n))).
Definition shr (n x : Z) : Z := Z.shiftr x n.
Definition not32 (x : Z) : Z := Z.lxor x mask32.

Definition Ch (x y z : Z) : Z := Z.lxor (Z.land x y) (Z.land (not32 x) z).
Definition Maj (x y z : Z) : Z := Z.lxor (Z.lxor (Z.land x y) (Z.land x z)) (Z.land y z).
Definition Sigma0 (x : Z) : Z := Z.lxor (Z.lxor (rotr 2 x) (rotr 13 x)) (rotr 22 x).
Definition Sigma1 (x : Z) : Z := Z.lxor (Z.lxor (rotr 6 x) (rotr 11 x)) (rotr 25 x).
Definition sigma0 (x : Z) : Z := Z.lxor (Z.lxor (rotr 7 x) (rotr 18 x)) (shr 3 x).
Definition sigma1 (x : Z) : Z := Z.lxor (Z.lxor (rotr 17 x) (rotr 19 x)) (shr 10 x).

(** The constants are given by the standard through the primes: the first
    32 bits of the fractional parts of the cube roots of the first 64 primes
    (round constants) and of the square roots of the first 8 (initial hash
    value). *)
Definition is_prime (n : nat) : bool :=
  (1 <? n)%nat && forallb (fun d => negb (Nat.modulo n d =? 0)%nat) (seq 2 (n - 2)).

Definition primes : list Z := map Z.of_nat (filter is_prime (seq 2 310)).

(** The integer cube root below [2 ^ bits], found bit by bit from the top. *)
Fixpoint cube_root_bits (bits : nat) (n r : Z) : Z :=
  match bits with
  | O => r
  | S b =>
      let r' := r + 2 ^ Z.of_nat b in
      cube_root_bits b n (if r' * r' * r' <=? n then r' else r)
  end.

Definition cube_root (n : Z) : Z := cube_root_bits 40 n 0.

Definition K : list Z :=
  Eval vm_compute in map (fun q => w32 (cube_root (q * 2 ^ 96))) primes.

Definition H0 : list Z :=
  Eval vm_compute in map (fun q => w32 (Z.sqrt (q * 2 ^ 64))) (firstn 8 primes).

(** Padding: a [0x80] byte, zeros up to 56 mod 64, the bit length on 8 bytes. *)
Definition pad (msg : bytes) : bytes :=
  let len := Z.of_nat (length msg) in
  let zeros := Z.to_nat ((55 - len) mod 64) in
  msg ++ [0x80] ++ repeat 0 zeros ++ be_bytes 8 (8 * len).

(** Message schedule: [extend n w] appends [n] words to the list [w], kept
    in reverse (most recent first). *)
Fixpoint extend (n : nat) (w : list Z) : list Z :=
  match n with
  | O => w
  | S n' =>
      let x := add32 (add32 (sigma1 (nth 1 w 0)) (nth 6 w 0))
                     (add32 (sigma0 (nth 14 w 0)) (nth 15 w 0)) in
      extend n' (x :: w)
  end.

Definition schedule (block : bytes) : list Z :=
  rev (extend 48 (rev (map of_be (chunks 4 block)))).

Record regs := Regs { ra : Z; rb : Z; rc : Z; rd : Z; re : Z; rf : Z; rg : Z; rh : Z }.

Definition round (r : regs) (kw : Z * Z) : regs :=
  let '(k, w) := kw in
  let t1 := add32 (add32 (add32 (add32 (rh r) (Sigma1 (re r))) (Ch (re r) (rf r) (rg r))) k) w in
  let t2 := add32 (Sigma0 (ra r)) (Maj (ra r) (rb r) (rc r)) in
  Regs (add32 t1 t2) (ra r) (rb r) (rc r) (add32 (rd r) t1) (re r) (rf r) (rg r).

Definition regs_of (h : list Z) : regs :=
  Regs (nth 0 h 0) (nth 1 h 0) (nth 2 h 0) (nth 3 h 0)
       (nth 4 h 0) (nth 5 h 0) (nth 6 h 0) (nth 7 h 0).

Definition list_of (r : regs) : list Z :=
  [ra r; rb r; rc r; rd r; re r; rf r; rg r; rh r].

Definition compress (h : list Z) (block : bytes) : list Z :=
  let r := fold_left round (combine K (schedule block)) (regs_of h) in
  map (fun p => add32 (fst p) (snd p)) (combine h (list_of r)).

(** Modelled from the spec: the hash of the HMAC-SHA-256 core, absent from
    the source tree, after FIPS 180-4. *)
Definition digest (msg : bytes) : bytes :=
  flat_map (be_bytes 4) (fold_left compress (chunks 64 (pad msg)) H0).

Definition block_size : nat := 64.

End Sha256.

(** ** HMAC (RFC 2104) and PBKDF2 (RFC 8018) over SHA-256 *)

Module Hmac.
Import Bytes.

(** The key block: a key longer than the hash block is hashed first; the
    result is filled with zero bytes up to the block size. *)
Definition key_block (key : bytes) : bytes :=
  let k := if (Sha256.block_size <? length key)%nat then Sha256.digest key else key in
  k ++ repeat 0 (Sha256.block_size - length k).

Definition with_key_block (kb : bytes) (msg : bytes) : bytes :=
  let ipad := map (Z.lxor 0x36) kb in
  let opad := map (Z.lxor 0x5c) kb in
  Sha256.digest (opad ++ Sha256.digest (ipad ++ msg)).

(** Modelled from the spec: the HMAC of the key derivation, absent from the
    source tree, after RFC 2104. *)
Definition hmac_sha256 (key msg : bytes) : bytes := with_key_block (key_block key) msg.

End Hmac.

Module Pbkdf2.
Import Bytes.

(** One output block [T_i = U_1 xor ... xor U_c], with
    [U_1 = PRF (salt || INT_32_BE i)] and [U_j = PRF U_(j-1)]. *)
Definition block (prf : bytes -> bytes) (salt : bytes) (c : N) (i : Z) : bytes :=
  let u1 := prf (salt ++ be_bytes 4 i) in
  snd (N.iter (c - 1)
         (fun ut => let u := prf (fst ut) in (u, xor (snd ut) u))
         (u1, u1)).

(** Modelled from the spec: PBKDF2 with an HMAC-SHA-256 core, absent from
    the source tree, after RFC 8018.  The derived key has the length of one
    hash output, so it is [T_1]. *)
Definition hmac_sha256 (password salt : bytes) (iterations : N) : bytes :=
  block (Hmac.with_key_block (Hmac.key_block password)) salt iterations 1.

End Pbkdf2.

(** ** ChaCha20-Poly1305 (RFC 8439), the authenticated cipher of the secrets *)

Module ChaCha20.
Import Bytes.

Definition add32 (x y : Z) : Z := Z.land (x + y) 0xFFFFFFFF.
Definition rotl (n x : Z) : Z :=
  Z.lor (Z.land (Z.shiftl x n) 0xFFFFFFFF) (Z.shiftr x (32 - n)).

Definition get (s : list Z) (i : nat) : Z := nth i s 0.

Fixpoint set (s : list Z) (i : nat) (v : Z) : list Z :=
  match s, i with
  | [], _ => []
  | _ :: s', O => v :: s'
  | x :: s', S i' => x :: set s' i' v
  end.

Definition quarter_round (a b c d : nat) (s : list Z) : list Z :=
  let s := set s a (add32 (get s a) (get s b)) in
  let s := set s d (rotl 16 (Z.lxor (get s d) (get s a))) in
  let s := set s c (add32 (get s c) (get s d)) in
  let s := set s b (rotl 12 (Z.lxor (get s b) (get s c))) in
  let s := set s a (add32 (get s a) (get s b)) in
  let s := set s d (rotl 8 (Z.lxor (get s d) (get s a))) in
  let s := set s c (add32 (get s c) (get s d)) in
  set s b (rotl 7 (Z.lxor (get s b) (get s c))).

Definition double_round (s : list Z) : list Z :=
  let s := quarter_round 0 4 8 12 s in
  let s := quarter_round 1 5 9 13 s in
  let s := quarter_round 2 6 10 14 s in
  let s := quarter_round 3 7 11 15 s in
  let s := quarter_round 0 5 10 15 s in
  let s := quarter_round 1 6 11 12 s in
  let s := quarter_round 2 7 8 13 s in
  quarter_round 3 4 9 14 s.

Definition words_le (l : bytes) : list Z := map of_le (chunks 4 l).

Definition init (key : bytes) (counter : Z) (nonce : bytes) : list Z :=
  [0x61707865; 0x3320646e; 0x79622d32; 0x6b206574]
    ++ words_le (firstn 32 (key ++ repeat 0 32))
    ++ [Z.land counter 0xFFFFFFFF]
    ++ words_le (firstn 12 (nonce ++ repeat 0 12)).

(** The 64-byte key stream block of a block counter. *)
Definition block (key : bytes) (counter : Z) (nonce : bytes) : bytes :=
  let s0 := init key counter nonce in
  let s := Nat.iter 10 double_round s0 in
  flat_map (le_bytes 4) (map (fun i => add32 (get s0 i) (get s i)) (seq 0 16)).

(** The first [n] key stream bytes, from block counter [first] on. *)
Definition keystream (key : bytes) (first : nat) (nonce : bytes) (n : nat) : bytes :=
  firstn n (flat_map (fun c => block key (Z.of_nat c) nonce) (seq first (n / 64 + 1))).

Definition encrypt (key : bytes) (first : nat) (nonce : bytes) (data : bytes) : bytes :=
  xor data (keystream key first nonce (length data)).

End ChaCha20.

Module Poly1305.
Import Bytes.

Definition p : Z := 2 ^ 130 - 5.

Definition clamp (r : Z) : Z := Z.land r 0x0ffffffc0ffffffc0ffffffc0fffffff.

Definition mac (key : bytes) (msg : bytes) : bytes :=
  let r := clamp (of_le (firstn 16 key)) in
  let s := of_le (firstn 16 (skipn 16 key)) in
  let acc := fold_left (fun acc blk => ((acc + of_le (blk ++ [1])) * r) mod p)
                       (chunks 16 msg) 0 in
  le_bytes 16 (acc + s).

End Poly1305.

Module Aead.
Import Bytes.

Definition tag_length : nat := 16.
Definition nonce_length : nat := 12.
Definition key_length : nat := 32.

Definition pad16 (l : bytes) : bytes :=
  repeat 0 (Nat.modulo (16 - Nat.modulo (length l) 16) 16).

Definition mac_data (aad ct : bytes) : bytes :=
  aad ++ pad16 aad ++ ct ++ pad16 ct
      ++ le_bytes 8 (Z.of_nat (length aad)) ++ le_bytes 8 (Z.of_nat (length ct)).

Definition tag (key nonce aad ct : bytes) : bytes :=
  let otk := firstn 32 (ChaCha20.block key 0 nonce) in
  Poly1305.mac otk (mac_data aad ct).

(** Modelled from the spec: the authenticated encryption of SecretCipher,
    absent from the source tree, taken to be the ChaCha20-Poly1305 the spec
    and the README name, after RFC 8439.  [seal] returns the ciphertext
    followed by the 16-byte tag. *)
Definition seal (key nonce aad pt : bytes) : bytes :=
  let ct := ChaCha20.encrypt key 1 nonce pt in
  ct ++ tag key nonce aad ct.

(** Modelled from the spec: the authenticated decryption of SecretCipher.
    [open] fails closed: no plaintext comes out unless the tag matches. *)
Definition open (key nonce aad blob : bytes) : option bytes :=
  if (length blob <? tag_length)%nat then None
  else
    let n := (length blob - tag_length)%nat in
    let ct := firstn n blob in
    let t := skipn n blob in
    if constant_time_eq (tag key nonce aad ct) t
    then Some (ChaCha20.encrypt key 1 nonce ct)
    else None.

End Aead.

(** ** JavaScript strings and promises, as the front end uses them *)

Module Js.

Definition code (c : ascii) : nat := nat_of_ascii c.

(** [\s] and the characters [trim] strips, on ASCII: TAB, LF, VT, FF, CR and
    the space.  JavaScript counts more as white space (U+00A0, U+1680,
    U+2000 to U+200A, U+2028, U+2029, U+202F, U+205F, U+3000, U+FEFF), in
    UTF-8 all of them sequences of bytes above 127: on a string with such a
    character [remove_whitespace] and [trim] below keep what the code
    strips.  Statements that depend on it are made for [is_ascii] text. *)
Definition is_whitespace (c : ascii) : bool :=
  ((9 <=? code c) && (code c <=? 13) || (code c =? 32))%nat.

Definition is_digit (c : ascii) : bool := ((48 <=? code c) && (code c <=? 57))%nat.

Definition is_lower (c : ascii) : bool := ((97 <=? code c) && (code c <=? 122))%nat.

Definition upper_char (c : ascii) : ascii :=
  if is_lower c then ascii_of_nat (code c - 32) else c.


Definition chars (s : string) : list ascii := list_ascii_of_string s.
Definition of_chars (l : list ascii) : string := string_of_list_ascii l.


(** [s.replace(/\s+/g, "")], on ASCII text *)
Definition remove_whitespace (s : string) : string :=
  of_chars (filter (fun c => negb (is_whitespace c)) (chars s)).

(** [s.toUpperCase()], on ASCII text: the letters a to z are mapped.
    JavaScript also maps letters outside ASCII, some of them to ASCII
    letters (U+017F to S, U+0131 to I) or to two letters (U+00DF to SS). *)
Definition toUpperCase (s : string) : string := of_chars (map upper_char (chars s)).

Fixpoint drop_whitespace (l : list ascii) : list ascii :=
  match l with
  | c :: l' => if is_whitespace c then drop_whitespace l' else l
  | [] => []
  end.

(** [s.trim()], on ASCII text *)
Definition trim (s : string) : string :=
  of_chars (rev (drop_whitespace (rev (drop_whitespace (chars s))))).

(** [!s] for a string [s] *)
Definition is_empty (s : string) : bool :=
  match s with EmptyString => true | _ => false end.

(** [n.toString()] for an integer [n] *)
Definition toString (n : Z) : string := NilZero.string_of_int (Z.to_int n).

(** [s.slice(0, -1)] *)
Definition drop_last (s : string) : string := of_chars (removelast (chars s)).

(** What a rejected promise carries: a string (a command's [Err(String)])
    or some other object, of which only [toString()] is observed. *)
Inductive thrown :=
| ThrownString (s : string)
| ThrownObject (description : string).

Definition thrown_toString (e : thrown) : string :=
  match e with ThrownString s => s | ThrownObject d => d end.

(** The settlement of [await invoke(...)]. *)
Inductive response (A : Type) :=
| Resolved (a : A)
| Rejected (e : thrown).

Arguments Resolved {A} a.
Arguments Rejected {A} e.

End Js.

(** ** The vault commands behind [invoke]

    The commands are implemented in Rust and are not in the source tree; the
    [accounts] table is, through its schema. *)

Module Vault.
Import Bytes.

(** Modelled from the spec: the error kinds of the commands. *)
Inductive VaultError :=
| ValidationError | ConflictError | AuthenticationError | CryptoError
| NotFoundError | ParseError | IOError.

Inductive result (A : Type) :=
| Ok (a : A)
| Err (e : VaultError).

Arguments Ok {A} a.
Arguments Err {A} e.

(** Modelled from the spec: the cryptographically secure random generator
    the commands draw salts, nonces and the master key from.  It is an
    infinite byte stream read once, left to right. *)
Record Rng := MkRng { stream : nat -> Z; cursor : nat }.

Definition draw (n : nat) (g : Rng) : bytes * Rng :=
  (map (fun i => stream g i mod 256) (seq (cursor g) n),
   MkRng (stream g) (cursor g + n)).

(** *** KeyDerivation *)

(** Modelled from the spec: the iteration count fixed at set-up and the
    length of the salt, at their required minimum. *)
Definition PBKDF2_ITERATIONS : N := 100000.
Definition SALT_LENGTH : nat := 16.

(** Modelled from the spec: [derive(pin, salt, iterations)], PBKDF2 with an
    HMAC-SHA-256 core over the bytes of the PIN. *)
Definition derive (pin : string) (salt : bytes) (iterations : N) : bytes :=
  Pbkdf2.hmac_sha256 (of_string pin) salt iterations.

(** Modelled from the spec: the persisted PinVerifier. *)
Record PinVerifier := MkVerifier { salt : bytes; iterations : N; hash : bytes }.

(** *** SecretCipher *)

(** Modelled from the spec: [encrypt(plaintext_secret, key)], with a fresh
    12-byte nonce drawn for every call and returned beside the ciphertext. *)
Definition encrypt (key : bytes) (g : Rng) (plaintext : bytes) : (bytes * bytes) * Rng :=
  let (nonce, g') := draw Aead.nonce_length g in
  ((Aead.seal key nonce [] plaintext, nonce), g').

(** Modelled from the spec: [decrypt(ciphertext, nonce, key)], which yields
    [CryptoError] on any tag mismatch or malformed nonce. *)
Definition decrypt (key : bytes) (ciphertext nonce : bytes) : result bytes :=
  if negb (length nonce =? Aead.nonce_length)%nat then Err CryptoError
  else match Aead.open key nonce [] ciphertext with
       | Some plaintext => Ok plaintext
       | None => Err CryptoError
       end.

(** *** The [accounts] table *)

(** One row of the table of the schema. *)
Record Account := MkAccount {
  id : Z;
  issuer : string;
  account_name : string;
  encrypted_secret : bytes;
  secret_nonce : bytes;
  created_at : Z
}.

(** The table with the counter that [AUTOINCREMENT] keeps: the largest id
    handed out so far. *)
Record Table := MkTable { rows : list Account; last_id : Z }.

Definition empty_table : Table := MkTable [] 0.

Definition same_key (i a : string) (r : Account) : bool :=
  String.eqb (issuer r) i && String.eqb (account_name r) a.

(** Modelled from the spec: the statement [add_account] persists a row
    with, [INSERT INTO accounts (issuer, account_name, encrypted_secret,
    secret_nonce)].  By the schema the id comes from [AUTOINCREMENT],
    [created_at] from its default, and [UNIQUE(issuer, account_name)]
    refuses a second row with the pair. *)
Definition insert (now : Z) (i a : string) (enc nonce : bytes) (t : Table) : option Table :=
  if existsb (same_key i a) (rows t) then None
  else
    let n := last_id t + 1 in
    Some (MkTable (rows t ++ [MkAccount n i a enc nonce now]) n).

Definition has_id (n : Z) (t : Table) : bool :=
  existsb (fun r => id r =? n) (rows t).

Definition rename (i a : string) (r : Account) : Account :=
  MkAccount (id r) i a (encrypted_secret r) (secret_nonce r) (created_at r).

(** Modelled from the spec: the statement of [update_account], [UPDATE
    accounts SET issuer = ?, account_name = ? WHERE id = ?].  By the schema
    the [UNIQUE] constraint refuses the pair of another row. *)
Definition update (n : Z) (i a : string) (t : Table) : option Table :=
  if existsb (fun r => same_key i a r && negb (id r =? n)) (rows t) then None
  else Some (MkTable (map (fun r => if id r =? n then rename i a r else r) (rows t))
                     (last_id t)).

(** Modelled from the spec: the statement of [delete_account], [DELETE FROM
    accounts WHERE id = ?]. *)
Definition delete (n : Z) (t : Table) : Table :=
  MkTable (filter (fun r => negb (id r =? n)) (rows t)) (last_id t).

(** *** The vault *)

(** Modelled from the spec: the vault lock state. *)
Inductive LockState := Uninitialized | NeedsSetup | Locked | Unlocked.

(** Modelled from the spec: what the backend holds, the verifier (when a PIN
    is configured), the master key, the table, the lock state, and the
    generator it draws from. *)
Record State := MkState {
  verifier : option PinVerifier;
  master_key : bytes;
  table : Table;
  lock : LockState;
  rng : Rng
}.

Definition with_verifier (v : option PinVerifier) (s : State) : State :=
  MkState v (master_key s) (table s) (lock s) (rng s).
Definition with_table (t : Table) (s : State) : State :=
  MkState (verifier s) (master_key s) t (lock s) (rng s).
Definition with_lock (l : LockState) (s : State) : State :=
  MkState (verifier s) (master_key s) (table s) l (rng s).
Definition with_rng (g : Rng) (s : State) : State :=
  MkState (verifier s) (master_key s) (table s) (lock s) g.

(** Modelled from the spec: the first run, which generates the master key
    once, with no PIN configured and no account stored. *)
Definition first_run (g : Rng) : State :=
  let (key, g') := draw Aead.key_length g in
  MkState None key empty_table Uninitialized g'.

(** *** PinGate *)

(** Modelled from the spec: [has_pin()], true iff a verifier is persisted. *)
Definition has_pin (s : State) : bool :=
  match verifier s with Some _ => true | None => false end.

(** Modelled from the spec: the lock state a process start leaves, [Locked]
    with a PIN configured and [NeedsSetup] without. *)
Definition startup (s : State) : State :=
  with_lock (if has_pin s then Locked else NeedsSetup) s.

(** Modelled from the spec: the PIN format [set_pin] validates, exactly four
    characters, each a decimal digit (the format the PIN pad produces). *)
Definition valid_pin (pin : string) : bool :=
  (String.length pin =? 4)%nat && forallb Js.is_digit (Js.chars pin).

(** Modelled from the spec: [set_pin(pin)], which validates the format,
    draws a fresh salt, derives and stores the verifier (over an older one,
    if any) and unlocks. *)
Definition set_pin (pin : string) (s : State) : result unit * State :=
  if valid_pin pin then
    let (fresh, g') := draw SALT_LENGTH (rng s) in
    let v := MkVerifier fresh PBKDF2_ITERATIONS (derive pin fresh PBKDF2_ITERATIONS) in
    (Ok tt, with_lock Unlocked (with_verifier (Some v) (with_rng g' s)))
  else (Err ValidationError, s).

(** Modelled from the spec: the comparison [verify_pin] makes against a
    stored verifier. *)
Definition matches (pin : string) (v : PinVerifier) : bool :=
  constant_time_eq (derive pin (salt v) (iterations v)) (hash v).

(** Modelled from the spec: [verify_pin(pin)], which re-derives with the
    stored salt and iteration count, compares in constant time, answers
    false on a mismatch and unlocks on a match. *)
Definition verify_pin (pin : string) (s : State) : bool * State :=
  match verifier s with
  | Some v => if matches pin v then (true, with_lock Unlocked s) else (false, s)
  | None => (false, s)
  end.

(** Modelled from the spec: [remove_pin(current_pin)], which requires
    [verify_pin] to succeed and then deletes the verifier. *)
Definition remove_pin (current_pin : string) (s : State) : result unit * State :=
  let (ok, s') := verify_pin current_pin s in
  if ok then (Ok tt, with_lock Unlocked (with_verifier None s'))
  else (Err AuthenticationError, s).

(** *** AccountStore *)

Definition is_base32_char (c : ascii) : bool :=
  ((65 <=? Js.code c) && (Js.code c <=? 90) || (50 <=? Js.code c) && (Js.code c <=? 55))%nat.

(** Modelled from the spec: a syntactically valid base32 secret, which is
    not empty and has each character among the 32 symbols [A-Z], [2-7]. *)
Definition valid_base32 (s : string) : bool :=
  negb (Js.is_empty s) && forallb is_base32_char (Js.chars s).

(** Modelled from the spec: the form in which [add_account] validates a
    secret, whitespace removed, then upper case. *)
Definition normalize_secret (secret : string) : string :=
  Js.toUpperCase (Js.remove_whitespace secret).





(** Modelled from the spec: [add_account(issuer, account_name, secret)],
    which validates the normalized secret, answers [ConflictError] for a
    pair the storage layer holds already, and otherwise encrypts the secret
    under the master key and inserts the row.  The spec does not say
    whether a duplicate is found before or after the cipher runs; here it
    is found before, so that a call that fails leaves the vault, the
    generator included, as it was. *)
Definition add_account (now : Z) (i a secret : string) (s : State) : result unit * State :=
  let clean := normalize_secret secret in
  if negb (valid_base32 clean) then (Err ValidationError, s)
  else if existsb (same_key i a) (rows (table s)) then (Err ConflictError, s)
  else
    let '((enc, nonce), g') := encrypt (master_key s) (rng s) (of_string clean) in
    match insert now i a enc nonce (table s) with
    | Some t => (Ok tt, with_table t (with_rng g' s))
    | None => (Err ConflictError, s)
    end.

(** Modelled from the spec: [get_accounts()], all rows in the order of
    their ids. *)
Definition get_accounts (s : State) : list Account := rows (table s).

(** Modelled from the spec: [update_account(id, issuer, account_name)],
    which changes the two names only. *)
Definition update_account (n : Z) (i a : string) (s : State) : result unit * State :=
  if negb (has_id n (table s)) then (Err NotFoundError, s)
  else match update n i a (table s) with
       | Some t => (Ok tt, with_table t s)
       | None => (Err ConflictError, s)
       end.

(** Modelled from the spec: [delete_account(id)], an error on an absent id. *)
Definition delete_account (n : Z) (s : State) : result unit * State :=
  if negb (has_id n (table s)) then (Err NotFoundError, s)
  else (Ok tt, with_table (delete n (table s)) s).

(** Modelled from the spec: the plaintext secret of a row, as
    [get_current_otp] and the export obtain it. *)
Definition decrypt_account (s : State) (r : Account) : result bytes :=
  decrypt (master_key s) (encrypted_secret r) (secret_nonce r).

(** The number of rows with a given pair. *)
Definition count_key (i a : string) (s : State) : nat :=
  length (filter (same_key i a) (rows (table s))).

Definition key_of (r : Account) : string * string := (issuer r, account_name r).

(** The [UNIQUE] constraint: no two rows share (issuer, account_name). *)
Definition unique_keys (t : Table) : Prop := NoDup (map key_of (rows t)).

(** The primary key with [AUTOINCREMENT]: ids are distinct and none exceeds
    the counter. *)
Definition ids_bounded (t : Table) : Prop :=
  NoDup (map id (rows t)) /\ Forall (fun r => id r <= last_id t) (rows t).

Definition schema_ok (t : Table) : Prop := unique_keys t /\ ids_bounded t.

(** The commands that change the vault, and a session of them. *)
Inductive Call :=
| call_set_pin (pin : string)
| call_verify_pin (pin : string)
| call_remove_pin (current_pin : string)
| call_add_account (now : Z) (i a secret : string)
| call_update_account (n : Z) (i a : string)
| call_delete_account (n : Z).

Definition exec (s : State) (c : Call) : State :=
  match c with
  | call_set_pin pin => snd (set_pin pin s)
  | call_verify_pin pin => snd (verify_pin pin s)
  | call_remove_pin pin => snd (remove_pin pin s)
  | call_add_account now i a secret => snd (add_account now i a secret s)
  | call_update_account n i a => snd (update_account n i a s)
  | call_delete_account n => snd (delete_account n s)
  end.

Definition session (s : State) (calls : list Call) : State := fold_left exec calls s.

(** The calls of PinGate, among them the change of a PIN ([set_pin] over an
    existing verifier) and its removal. *)
Definition is_pin_call (c : Call) : bool :=
  match c with
  | call_set_pin _ | call_verify_pin _ | call_remove_pin _ => true
  | _ => false
  end.

End Vault.

(** ** The PIN pad component *)

Module PinPad.

Inductive Mode := verify | setup | remove.

Definition MAX_PIN_LENGTH : nat := 4.
Definition MIN_PIN_LENGTH : nat := 4.

(** The component's variables, and the timers it has set and not yet run:
    [setTimeout(handleSubmit, 200)] and the 400 ms timer of [shake]. *)
Record State := MkState {
  mode : Mode;
  errorMsg : option string;
  successMsg : option string;
  pin : string;
  confirmPin : string;
  isConfirming : bool;
  isShaking : bool;
  submitTimers : nat;
  shakeTimers : nat
}.

Definition mount (m : Mode) : State :=
  MkState m None None "" "" false false 0 0.

(** What the component dispatches to its parent. *)
Inductive Dispatch :=
| submit (pin : string)
| setup_done (pin : string).

Definition dispatched_pin (d : Dispatch) : string :=
  match d with submit p => p | setup_done p => p end.

Definition shake (s : State) : State :=
  MkState (mode s) (errorMsg s) (successMsg s) (pin s) (confirmPin s)
          (isConfirming s) true (submitTimers s) (S (shakeTimers s)).

Definition triggerError (msg : string) (s : State) : State :=
  let s := shake (MkState (mode s) (Some msg) (successMsg s) (pin s) (confirmPin s)
                          (isConfirming s) (isShaking s) (submitTimers s) (shakeTimers s)) in
  match mode s with
  | setup =>
      MkState (mode s) (errorMsg s) (successMsg s) "" "" false
              (isShaking s) (submitTimers s) (shakeTimers s)
  | _ =>
      MkState (mode s) (errorMsg s) (successMsg s) "" (confirmPin s) (isConfirming s)
              (isShaking s) (submitTimers s) (shakeTimers s)
  end.

Definition handleInput (num : Z) (s : State) : State :=
  if (String.length (pin s) <? MAX_PIN_LENGTH)%nat then
    let pin' := String.append (pin s) (Js.toString num) in
    let timers := if (String.length pin' =? MAX_PIN_LENGTH)%nat
                  then S (submitTimers s) else submitTimers s in
    MkState (mode s) None (successMsg s) pin' (confirmPin s) (isConfirming s)
            (isShaking s) timers (shakeTimers s)
  else s.

Definition handleDelete (s : State) : State :=
  if (0 <? String.length (pin s))%nat then
    MkState (mode s) None (successMsg s) (Js.drop_last (pin s)) (confirmPin s)
            (isConfirming s) (isShaking s) (submitTimers s) (shakeTimers s)
  else s.

Definition handleSubmit (s : State) : State * list Dispatch :=
  if (String.length (pin s) <? MIN_PIN_LENGTH)%nat then
    (triggerError "PIN은 4자리여야 합니다" s, [])
  else
    match mode s with
    | verify | remove => (s, [submit (pin s)])
    | setup =>
        if negb (isConfirming s) then
          (MkState (mode s) (errorMsg s) (successMsg s) "" (pin s) true
                   (isShaking s) (submitTimers s) (shakeTimers s), [])
        else if String.eqb (pin s) (confirmPin s) then (s, [setup_done (pin s)])
        else (triggerError "입력한 PIN이 일치하지 않습니다" s, [])
    end.

(** [/^[0-9]$/.test(key)]: the key is one character, a decimal digit. *)
Definition is_digit_key (key : string) : bool :=
  match key with
  | String c EmptyString => Js.is_digit c
  | _ => false
  end.

(** [parseInt(key, 10)] on such a key. *)
Definition parseInt (key : string) : Z :=
  match key with
  | String c _ => Z.of_nat (Js.code c) - 48
  | EmptyString => 0
  end.

Definition handleKeydown (key : string) (s : State) : State :=
  if is_digit_key key then handleInput (parseInt key) s
  else if String.eqb key "Backspace" then handleDelete s
  else s.

(** The button under the pad, shown while a new PIN is being confirmed. *)
Definition clickReset (s : State) : State :=
  match mode s, isConfirming s with
  | setup, true =>
      MkState (mode s) None (successMsg s) "" "" false
              (isShaking s) (submitTimers s) (shakeTimers s)
  | _, _ => s
  end.

Inductive Event :=
| Keydown (key : string)
| SubmitTimeout
| ShakeTimeout
| ClickReset
| ParentError (msg : string).

Definition step (s : State) (e : Event) : State * list Dispatch :=
  match e with
  | Keydown key => (handleKeydown key s, [])
  | SubmitTimeout =>
      match submitTimers s with
      | O => (s, [])
      | S n =>
          handleSubmit (MkState (mode s) (errorMsg s) (successMsg s) (pin s) (confirmPin s)
                                (isConfirming s) (isShaking s) n (shakeTimers s))
      end
  | ShakeTimeout =>
      match shakeTimers s with
      | O => (s, [])
      | S n =>
          (MkState (mode s) (errorMsg s) (successMsg s) (pin s) (confirmPin s)
                   (isConfirming s) false (submitTimers s) n, [])
      end
  | ClickReset => (clickReset s, [])
  | ParentError msg => (triggerError msg s, [])
  end.

Fixpoint run (s : State) (es : list Event) : State * list Dispatch :=
  match es with
  | [] => (s, [])
  | e :: es' =>
      let (s1, d1) := step s e in
      let (s2, d2) := run s1 es' in
      (s2, d1 ++ d2)
  end.

(** What holds of the digits entered so far: they are decimal digits, at
    most [MAX_PIN_LENGTH] of them. *)
Definition entry_ok (s : State) : Prop :=
  forallb Js.is_digit (Js.chars (pin s)) = true
  /\ (String.length (pin s) <= MAX_PIN_LENGTH)%nat.

End PinPad.

(** ** The page: PIN state and account list *)

Module Page.
Import Js.

Inductive PinState := loading | needs_setup | locked | unlocked.

(** The [Account] type of the page, as [get_accounts] delivers it. *)
Record Account := MkAccount {
  id : Z;
  issuer : string;
  account_name : string;
  encrypted_secret : list Z;
  secret_nonce : list Z
}.

Inductive ToastType := success | error.

(** [pinPadRef] is the PIN pad the template shows, if it shows one;
    [toasts] lists the calls of [toastRef.show].  [removedPads] are the pads
    the template has taken away while a [setTimeout(handleSubmit, 200)] of
    theirs was pending, each with the PIN state it was rendered for: the pad
    never clears that timer, so it still runs and its dispatch still reaches
    the handler the pad was bound to. *)
Record State := MkState {
  accounts : list Account;
  pinState : PinState;
  pinPadRef : option PinPad.State;
  toasts : list (string * ToastType);
  removedPads : list (PinState * PinPad.State)
}.

Definition initial : State := MkState [] loading None [] [].

(** The commands the page invokes. *)
Inductive Command :=
| has_pin
| verify_pin (pin : string)
| set_pin (pin : string)
| get_accounts.

Inductive Reply :=
| has_pin_reply (r : response bool)
| verify_pin_reply (r : response bool)
| set_pin_reply (r : response unit)
| get_accounts_reply (r : response (list Account)).

(** The [{#if pinState === ...}] block: a pad in [setup] mode while a PIN
    must be set up, one in [verify] mode while locked, none otherwise. *)
Definition rendered_pad (p : PinState) : option PinPad.State :=
  match p with
  | needs_setup => Some (PinPad.mount PinPad.setup)
  | locked => Some (PinPad.mount PinPad.verify)
  | loading | unlocked => None
  end.

Definition PinState_eqb (a b : PinState) : bool :=
  match a, b with
  | loading, loading | needs_setup, needs_setup
  | locked, locked | unlocked, unlocked => true
  | _, _ => false
  end.

(** What is left of a pad that the template takes away: its pending submit
    timers.  Without one it can do nothing more (its key listener is gone
    with it, and the timer of [shake] only resets a flag of its own). *)
Definition removed (p : PinState) (pad : option PinPad.State)
  : list (PinState * PinPad.State) :=
  match pad with
  | Some x => if (0 <? PinPad.submitTimers x)%nat then [(p, x)] else []
  | None => []
  end.

(** Assignment to [pinState]; a change re-renders the block. *)
Definition set_pinState (p : PinState) (s : State) : State :=
  if PinState_eqb (pinState s) p then s
  else MkState (accounts s) p (rendered_pad p) (toasts s)
               (removedPads s ++ removed (pinState s) (pinPadRef s)).

(** [pinPadRef?.triggerError(msg)] *)
Definition pad_triggerError (msg : string) (s : State) : State :=
  MkState (accounts s) (pinState s)
          (option_map (PinPad.triggerError msg) (pinPadRef s)) (toasts s) (removedPads s).

(** [toastRef?.show(message, type)] *)
Definition toast (msg : string) (t : ToastType) (s : State) : State :=
  MkState (accounts s) (pinState s) (pinPadRef s) (toasts s ++ [(msg, t)]) (removedPads s).

(** [initializePinState], after [await invoke("has_pin")]. *)
Definition initializePinState (r : response bool) (s : State) : State :=
  match r with
  | Resolved hasPin => if hasPin then set_pinState locked s else set_pinState needs_setup s
  | Rejected _ => set_pinState needs_setup s
  end.

(** [loadAccounts], up to its [await invoke("get_accounts")]. *)
Definition loadAccounts (s : State) : list Command :=
  match pinState s with
  | unlocked => [get_accounts]
  | _ => []
  end.

(** [loadAccounts], after the [await]. *)
Definition loadAccounts_settled (r : response (list Account)) (s : State) : State :=
  match r with
  | Resolved l => MkState l (pinState s) (pinPadRef s) (toasts s) (removedPads s)
  | Rejected _ => toast "계정 목록을 불러오지 못했습니다" error s
  end.

(** [handlePinSubmit], after [await invoke("verify_pin", ...)]. *)
Definition handlePinSubmit (r : response bool) (s : State) : State * list Command :=
  match r with
  | Resolved isValid =>
      if isValid then
        let s' := set_pinState unlocked s in (s', loadAccounts s')
      else (pad_triggerError "PIN 번호가 일치하지 않습니다" s, [])
  | Rejected err =>
      (pad_triggerError (String.append "오류: " (thrown_toString err)) s, [])
  end.

(** [handlePinSetup], after [await invoke("set_pin", ...)]. *)
Definition handlePinSetup (r : response unit) (s : State) : State * list Command :=
  match r with
  | Resolved _ =>
      let s' := set_pinState unlocked (toast "초기 PIN이 설정되었습니다. 환영합니다!" success s) in
      (s', loadAccounts s')
  | Rejected err =>
      (pad_triggerError (String.append "설정 실패: " (thrown_toString err)) s, [])
  end.

(** The handler the template binds to a pad's event: [on:setup] on the
    set-up pad, [on:submit] on the lock-screen pad. *)
Definition on_dispatch (p : PinState) (d : PinPad.Dispatch) : list Command :=
  match p, d with
  | locked, PinPad.submit pin => [verify_pin pin]
  | needs_setup, PinPad.setup_done pin => [set_pin pin]
  | _, _ => []
  end.

(** [RemovedTimeout k] is a submit timer of the [k]-th removed pad. *)
Inductive Event :=
| Mount
| Pad (e : PinPad.Event)
| Settled (r : Reply)
| ClickLock
| RemovedTimeout (k : nat).

(** The [k]-th entry of a list replaced. *)
Fixpoint replace_nth {A} (k : nat) (x : A) (l : list A) : list A :=
  match l, k with
  | [], _ => []
  | _ :: l', O => x :: l'
  | y :: l', S k' => y :: replace_nth k' x l'
  end.

(** One event of the page, with the commands it invokes. [ClickLock] is the
    logo button of the unlocked header, [window.location.reload()], which
    ends every timer of the page. *)
Definition step (s : State) (e : Event) : State * list Command :=
  match e with
  | Mount => (s, [has_pin])
  | Pad pe =>
      match pinPadRef s with
      | Some pad =>
          let (pad', ds) := PinPad.step pad pe in
          (MkState (accounts s) (pinState s) (Some pad') (toasts s) (removedPads s),
           flat_map (on_dispatch (pinState s)) ds)
      | None => (s, [])
      end
  | RemovedTimeout k =>
      match nth_error (removedPads s) k with
      | Some (p, pad) =>
          let (pad', ds) := PinPad.step pad PinPad.SubmitTimeout in
          (MkState (accounts s) (pinState s) (pinPadRef s) (toasts s)
                   (replace_nth k (p, pad') (removedPads s)),
           flat_map (on_dispatch p) ds)
      | None => (s, [])
      end
  | Settled (has_pin_reply r) => (initializePinState r s, [])
  | Settled (verify_pin_reply r) => handlePinSubmit r s
  | Settled (set_pin_reply r) => handlePinSetup r s
  | Settled (get_accounts_reply r) => (loadAccounts_settled r s, [])
  | ClickLock =>
      match pinState s with
      | unlocked => (initial, [has_pin])
      | _ => (s, [])
      end
  end.

Fixpoint run (s : State) (es : list Event) : State * list Command :=
  match es with
  | [] => (s, [])
  | e :: es' =>
      let (s1, c1) := step s e in
      let (s2, c2) := run s1 es' in
      (s2, c1 ++ c2)
  end.

End Page.

(** ** The PIN settings modal *)

Module PinSettingsModal.
Import Js.

Inductive Mode := select | setup | remove.

(** [toasts] lists the [dispatch("toast", ...)] calls, [closeTimers] the
    300 ms timers [close] has set. *)
Record State := MkState {
  showModal : bool;
  mode : Mode;
  hasPin : bool;
  pinPadRef : option PinPad.State;
  toasts : list (string * Page.ToastType);
  closeTimers : nat
}.

Inductive Command :=
| has_pin
| set_pin (pin : string)
| remove_pin (currentPin : string).

(** The pad of the template: one in [setup] or [remove] mode while the modal
    is shown in that mode. *)
Definition rendered_pad (shown : bool) (m : Mode) : option PinPad.State :=
  match shown, m with
  | true, setup => Some (PinPad.mount PinPad.setup)
  | true, remove => Some (PinPad.mount PinPad.remove)
  | _, _ => None
  end.

Definition pad_triggerError (msg : string) (s : State) : State :=
  MkState (showModal s) (mode s) (hasPin s)
          (option_map (PinPad.triggerError msg) (pinPadRef s)) (toasts s) (closeTimers s).

Definition set_hasPin (b : bool) (s : State) : State :=
  MkState (showModal s) (mode s) b (pinPadRef s) (toasts s) (closeTimers s).

Definition toast (msg : string) (s : State) : State :=
  MkState (showModal s) (mode s) (hasPin s) (pinPadRef s)
          (toasts s ++ [(msg, Page.success)]) (closeTimers s).

Definition close (s : State) : State :=
  MkState false (mode s) (hasPin s) None (toasts s) (S (closeTimers s)).

(** [checkPinStatus], after [await invoke("has_pin")]. *)
Definition checkPinStatus (r : response bool) (s : State) : State :=
  match r with
  | Resolved b => set_hasPin b s
  | Rejected _ => set_hasPin false s
  end.

(** [handleSetup], after [await invoke("set_pin", ...)]. *)
Definition handleSetup (r : response unit) (s : State) : State :=
  match r with
  | Resolved _ => close (set_hasPin true (toast "PIN 번호가 설정되었습니다" s))
  | Rejected err => pad_triggerError (thrown_toString err) s
  end.

(** [handleRemove], after [await invoke("remove_pin", ...)]. *)
Definition handleRemove (r : response unit) (s : State) : State :=
  match r with
  | Resolved _ => close (set_hasPin false (toast "앱 잠금이 해제되었습니다" s))
  | Rejected _ => pad_triggerError "현재 PIN이 일치하지 않습니다" s
  end.

(** The command a pad's event makes the modal invoke: [on:setup] is bound
    in [setup] mode, [on:submit] in [remove] mode. *)
Definition on_dispatch (m : Mode) (d : PinPad.Dispatch) : list Command :=
  match m, d with
  | setup, PinPad.setup_done pin => [set_pin pin]
  | remove, PinPad.submit pin => [remove_pin pin]
  | _, _ => []
  end.

End PinSettingsModal.

(** ** The add-account modal *)

Module AddAccountModal.
Import Js.

Record State := MkState {
  issuer : string;
  accountName : string;
  secretKey : string;
  errorMessage : string;
  isSubmitting : bool;
  showModal : bool;
  accountAdded : nat
}.

(** The arguments of [invoke("add_account", ...)]. *)
Record Request := MkRequest {
  arg_issuer : string;
  arg_accountName : string;
  arg_secretKey : string
}.

(** [secretKey.replace(/\s+/g, "").toUpperCase()] *)
Definition cleanSecret (secretKey : string) : string :=
  toUpperCase (remove_whitespace secretKey).

(** [handleSubmit], up to its [await]: the form with one empty field is
    refused on the spot, otherwise the command is invoked. *)
Definition handleSubmit (s : State) : State * option Request :=
  if is_empty (issuer s) || is_empty (accountName s) || is_empty (secretKey s) then
    (MkState (issuer s) (accountName s) (secretKey s) "모든 항목을 입력해주세요."
             (isSubmitting s) (showModal s) (accountAdded s), None)
  else
    (MkState (issuer s) (accountName s) (secretKey s) "" true (showModal s) (accountAdded s),
     Some (MkRequest (trim (issuer s)) (trim (accountName s)) (cleanSecret (secretKey s)))).

(** [handleSubmit], after the [await]. *)
Definition handleSubmit_settled (r : response unit) (s : State) : State :=
  match r with
  | Resolved _ => MkState "" "" "" "" false false (S (accountAdded s))
  | Rejected (ThrownString msg) =>
      MkState (issuer s) (accountName s) (secretKey s) msg false (showModal s) (accountAdded s)
  | Rejected (ThrownObject _) =>
      MkState (issuer s) (accountName s) (secretKey s)
              "계정 추가에 실패했습니다. 시크릿 키를 확인해주세요."
              false (showModal s) (accountAdded s)
  end.

End AddAccountModal.

(** ** The account card *)

(** What both cards share: the command they invoke and its answer. *)
Module Otp.

Record Request := MkRequest { encryptedSecret : list Z; nonce : list Z }.

Record Response := MkResponse { code : string; remaining_seconds : Z }.

Definition request_of (a : Page.Account) : Request :=
  MkRequest (Page.encrypted_secret a) (Page.secret_nonce a).

Definition placeholder : string := "------".
Definition failure : string := "오류".

End Otp.

(** The card that follows the wall clock: [tick] runs on mount and then
    every second, and asks for a new code when the 30-second step changes. *)
Module AccountCard.
Import Js.

(** [frames] counts the pending [requestAnimationFrame] pairs. *)
Record State := MkState {
  account : Page.Account;
  currentCode : string;
  remainingSeconds : Z;
  progressPercentage : Z;
  lastTimeStep : Z;
  noTransition : bool;
  frames : nat
}.

Definition create (a : Page.Account) : State :=
  MkState a Otp.placeholder 30 100 (-1) false 0.

(** [fetchOtp], after [await invoke("get_current_otp", ...)]. *)
Definition fetchOtp_settled (r : response Otp.Response) (s : State) : State :=
  let c := match r with
           | Resolved resp => Otp.code resp
           | Rejected _ => Otp.failure
           end in
  MkState (account s) c (remainingSeconds s) (progressPercentage s)
          (lastTimeStep s) (noTransition s) (frames s).

(** [Math.floor(Date.now() / 1000)] *)
Definition seconds (dateNow : Z) : Z := dateNow / 1000.

(** [Math.floor(now / 30)] *)
Definition timeStep (now : Z) : Z := now / 30.

(** [30 - (now % 30)], with the remainder of JavaScript, which takes the
    sign of [now]. *)
Definition remaining (now : Z) : Z := 30 - Z.rem now 30.

(** [tick] at wall-clock time [dateNow] (milliseconds), with the
    [get_current_otp] requests it sends. *)
Definition tick (dateNow : Z) (s : State) : State * list Otp.Request :=
  let now := seconds dateNow in
  let currentTimeStep := timeStep now in
  let r := remaining now in
  if negb (currentTimeStep =? lastTimeStep s) then
    if negb (lastTimeStep s =? -1) then
      (MkState (account s) (currentCode s) r 100 currentTimeStep true (S (frames s)),
       [Otp.request_of (account s)])
    else
      (MkState (account s) (currentCode s) r 0 currentTimeStep (noTransition s) (frames s),
       [Otp.request_of (account s)])
  else
    (MkState (account s) (currentCode s) r (progressPercentage s)
             (lastTimeStep s) (noTransition s) (frames s), []).

(** The inner [requestAnimationFrame] callback. *)
Definition frame (s : State) : State :=
  match frames s with
  | O => s
  | S n => MkState (account s) (currentCode s) (remainingSeconds s) 0
                   (lastTimeStep s) false n
  end.

(** [copyToClipboard]: the text written to the clipboard, if any. *)
Definition copyToClipboard (s : State) : option string :=
  if String.eqb (currentCode s) Otp.placeholder || String.eqb (currentCode s) Otp.failure
  then None else Some (currentCode s).

Inductive Event :=
| Tick (dateNow : Z)
| Settled (r : response Otp.Response)
| Frame.

Definition step (s : State) (e : Event) : State * list Otp.Request :=
  match e with
  | Tick dateNow => tick dateNow s
  | Settled r => (fetchOtp_settled r s, [])
  | Frame => (frame s, [])
  end.

(** The run of a card over a sequence of events: for each event, the number
    of [get_current_otp] requests it sent. *)
Fixpoint run (s : State) (es : list Event) : list nat :=
  match es with
  | [] => []
  | e :: es' => let (s', reqs) := step s e in length reqs :: run s' es'
  end.

(** The state of a card after a sequence of events. *)
Fixpoint exec (s : State) (es : list Event) : State :=
  match es with
  | [] => s
  | e :: es' => exec (fst (step s e)) es'
  end.

(** The same event with what a rejection carried blanked out. *)
Definition blind (e : Event) : Event :=
  match e with
  | Settled (Rejected _) => Settled (Rejected (ThrownString ""))
  | _ => e
  end.

(** One request at a tick whose 30-second step differs from the step of the
    tick before, none at any other event: the pattern [run] is compared
    with. *)
Fixpoint once_per_step (last : Z) (es : list Event) : list nat :=
  match es with
  | [] => []
  | Tick dateNow :: es' =>
      let step_now := timeStep (seconds dateNow) in
      (if step_now =? last then O else 1%nat) :: once_per_step step_now es'
  | _ :: es' => O :: once_per_step last es'
  end.

(** The ticks of the [n] seconds that follow second [t0]. *)
Definition second_ticks (t0 : Z) (n : nat) : list Event :=
  map (fun k => Tick (1000 * (t0 + Z.of_nat k))) (seq 1 n).

End AccountCard.

(** The card that counts down: it asks for a code on mount, takes the
    remaining seconds from the answer, decrements them every second and asks
    again when they reach zero.  [progressPercentage] is
    [(remainingSeconds / 30) * 100] after every assignment and is not kept. *)
Module CountdownCard.
Import Js.

Record State := MkState {
  account : Page.Account;
  currentCode : string;
  remainingSeconds : Z
}.

Definition create (a : Page.Account) : State := MkState a Otp.placeholder 30.

(** [fetchOtp], after [await invoke("get_current_otp", ...)]. *)
Definition fetchOtp_settled (r : response Otp.Response) (s : State) : State :=
  match r with
  | Resolved resp => MkState (account s) (Otp.code resp) (Otp.remaining_seconds resp)
  | Rejected _ => MkState (account s) Otp.failure (remainingSeconds s)
  end.

(** The callback of [setInterval(..., 1000)]. *)
Definition interval (s : State) : State * list Otp.Request :=
  let s' := MkState (account s) (currentCode s) (remainingSeconds s - 1) in
  if remainingSeconds s' <=? 0 then (s', [Otp.request_of (account s)]) else (s', []).

Definition copyToClipboard (s : State) : option string :=
  if String.eqb (currentCode s) Otp.placeholder || String.eqb (currentCode s) Otp.failure
  then None else Some (currentCode s).

Inductive Event :=
| Mount
| Interval
| Settled (r : response Otp.Response).

Definition step (s : State) (e : Event) : State * list Otp.Request :=
  match e with
  | Mount => (s, [Otp.request_of (account s)])
  | Interval => interval s
  | Settled r => (fetchOtp_settled r s, [])
  end.

Fixpoint run (s : State) (es : list Event) : list nat :=
  match es with
  | [] => []
  | e :: es' => let (s', reqs) := step s e in length reqs :: run s' es'
  end.

Fixpoint exec (s : State) (es : list Event) : State :=
  match es with
  | [] => s
  | e :: es' => exec (fst (step s e)) es'
  end.

Definition blind (e : Event) : Event :=
  match e with
  | Settled (Rejected _) => Settled (Rejected (ThrownString ""))
  | _ => e
  end.

(** The events of a card whose command keeps failing. *)
Definition is_tick_or_failure (e : Event) : bool :=
  match e with
  | Interval | Settled (Rejected _) => true
  | _ => false
  end.

Definition requests_every_tick (e : Event) : nat :=
  match e with Interval => 1%nat | _ => O end.

End CountdownCard.

(** ** Sample values, for running the definitions *)

Module Sample.

Definition rng : Vault.Rng := Vault.MkRng (fun i => Z.of_nat (37 * i + 11)) 0.

Definition vault : Vault.State := Vault.first_run rng.

Definition secret : string := "jbsw y3dp ehpk 3pxp".

Definition account : Page.Account := Page.MkAccount 1 "GitHub" "dev@example.com" [1; 2; 3] [4; 5; 6].

Definition nul : string := String "000"%char EmptyString.

Definition form : AddAccountModal.State :=
  AddAccountModal.MkState " GitHub" "dev@example.com " secret "" false true 0.

End Sample.

(** ** The selection overlay of the screen capture *)

Module Capture.

Record State := MkState {
  isDrawing : bool;
  startX : Z;
  startY : Z;
  currentX : Z;
  currentY : Z
}.

Definition initial : State := MkState false 0 0 0 0.

Definition selectionLeft (s : State) : Z := Z.min (startX s) (currentX s).
Definition selectionTop (s : State) : Z := Z.min (startY s) (currentY s).
Definition selectionWidth (s : State) : Z := Z.abs (currentX s - startX s).
Definition selectionHeight (s : State) : Z := Z.abs (currentY s - startY s).

(** The detail of the [captured] event. *)
Record Rect := MkRect { x : Z; y : Z; w : Z; h : Z }.

Definition handleMouseDown (clientX clientY : Z) (s : State) : State :=
  MkState true clientX clientY clientX clientY.

Definition handleMouseMove (clientX clientY : Z) (s : State) : State :=
  if negb (isDrawing s) then s
  else MkState (isDrawing s) (startX s) (startY s) clientX clientY.

(** [scale v] stands for [Math.round(v * dpr)], with
    [dpr = window.devicePixelRatio || 1] read from the browser; at a ratio of
    1 it is the identity. *)
Definition handleMouseUp (scale : Z -> Z) (s : State) : State * option Rect :=
  if negb (isDrawing s) then (s, None)
  else
    let s' := MkState false (startX s) (startY s) (currentX s) (currentY s) in
    if (selectionWidth s' <? 30) || (selectionHeight s' <? 30) then (s', None)
    else (s', Some (MkRect (scale (selectionLeft s')) (scale (selectionTop s'))
                           (scale (selectionWidth s')) (scale (selectionHeight s')))).

(** [handleKeydown]: whether [cancelled] is dispatched. *)
Definition handleKeydown (key : string) : bool := String.eqb key "Escape".

(** A drag: button down at one point, moves, button up. *)
Definition drag (scale : Z -> Z) (fromX fromY : Z) (moves : list (Z * Z)) (s : State)
  : State * option Rect :=
  handleMouseUp scale
    (fold_left (fun st p => handleMouseMove (fst p) (snd p) st) moves
               (handleMouseDown fromX fromY s)).

End Capture.

(** ** The toast list *)

Module Toast.

Record ToastItem := MkToast {
  id : Z;
  message : string;
  type : Page.ToastType;
  visible : bool
}.

(** The timers [show] sets: the one that starts the fade-out after 2 s and,
    set by it, the one that removes the toast 300 ms later. *)
Inductive Timer :=
| FadeOut (id : Z)
| Removal (id : Z).

Definition timer_id (t : Timer) : Z :=
  match t with FadeOut n => n | Removal n => n end.

Definition Timer_eqb (a b : Timer) : bool :=
  match a, b with
  | FadeOut m, FadeOut n => m =? n
  | Removal m, Removal n => m =? n
  | _, _ => false
  end.

Record State := MkState {
  toasts : list ToastItem;
  nextId : Z;
  timers : list Timer
}.

Definition initial : State := MkState [] 0 [].

(** [show(message, type = "success")] *)
Definition show (msg : string) (type : option Page.ToastType) (s : State) : State :=
  let ty := match type with Some t => t | None => Page.success end in
  MkState (toasts s ++ [MkToast (nextId s) msg ty true])
          (nextId s + 1)
          (timers s ++ [FadeOut (nextId s)]).

(** The first pending timer equal to [t] taken out. *)
Fixpoint cancel (t : Timer) (l : list Timer) : list Timer :=
  match l with
  | [] => []
  | u :: l' => if Timer_eqb t u then l' else u :: cancel t l'
  end.

(** The callback of a timer. *)
Definition callback (t : Timer) (s : State) : State :=
  match t with
  | FadeOut n =>
      MkState (map (fun i => if id i =? n then MkToast (id i) (message i) (type i) false
                             else i) (toasts s))
              (nextId s) (timers s ++ [Removal n])
  | Removal n =>
      MkState (filter (fun i => negb (id i =? n)) (toasts s)) (nextId s) (timers s)
  end.

Definition onDestroy (s : State) : State := MkState [] (nextId s) (timers s).

Inductive Event :=
| Show (msg : string) (type : option Page.ToastType)
| Fire (t : Timer)
| Destroy.

(** A timer fires only if it is pending, and then once. *)
Definition step (s : State) (e : Event) : State :=
  match e with
  | Show msg ty => show msg ty s
  | Fire t =>
      if existsb (Timer_eqb t) (timers s)
      then callback t (MkState (toasts s) (nextId s) (cancel t (timers s)))
      else s
  | Destroy => onDestroy s
  end.

Definition run (s : State) (es : list Event) : State := fold_left step es s.

(** The timer a toast on display waits for. *)
Definition awaited (i : ToastItem) : Timer :=
  if visible i then FadeOut (id i) else Removal (id i).

(** Ids are distinct and below [nextId], no id has two timers, and every
    toast on display has the timer pending that takes it one step out. *)
Definition well_formed (s : State) : Prop :=
  NoDup (map id (toasts s))
  /\ NoDup (map timer_id (timers s))
  /\ Forall (fun i => id i < nextId s) (toasts s)
  /\ Forall (fun t => timer_id t < nextId s) (timers s)
  /\ Forall (fun i => In (awaited i) (timers s)) (toasts s).

End Toast.

(** ** The QR scan of the add-account modal *)

Module QrScan.
Import Js.

(** What the handlers do to the window and the commands they invoke, in
    order. *)
Inductive Effect :=
| win_hide
| win_show
| win_setFocus
| win_center
| win_setDecorations (b : bool)
| win_setAlwaysOnTop (b : bool)
| win_setFullscreen (b : bool)
| take_screenshot
| decode_screenshot_auto
| decode_screenshot_region (r : Capture.Rect)
| parse_otpauth_uri (uri : string).

(** The window, as far as the handlers set it. *)
Record Window := MkWindow {
  visible : bool;
  decorations : bool;
  alwaysOnTop : bool;
  fullscreen : bool
}.

Definition usual : Window := MkWindow true true false false.

Definition apply (w : Window) (e : Effect) : Window :=
  match e with
  | win_hide => MkWindow false (decorations w) (alwaysOnTop w) (fullscreen w)
  | win_show => MkWindow true (decorations w) (alwaysOnTop w) (fullscreen w)
  | win_setDecorations b => MkWindow (visible w) b (alwaysOnTop w) (fullscreen w)
  | win_setAlwaysOnTop b => MkWindow (visible w) (decorations w) b (fullscreen w)
  | win_setFullscreen b => MkWindow (visible w) (decorations w) (alwaysOnTop w) b
  | _ => w
  end.

Definition window_after (w : Window) (es : list Effect) : Window := fold_left apply es w.

(** The answer of [parse_otpauth_uri]. *)
Record Info := MkInfo { issuer : string; account_name : string; secret : string }.

(** The modal: its form and the variables of the scan. *)
Record State := MkState {
  form : AddAccountModal.State;
  isScanning : bool;
  showScreenCapture : bool;
  screenshotData : string
}.

Definition fill (i : Info) (f : AddAccountModal.State) : AddAccountModal.State :=
  AddAccountModal.MkState (issuer i) (account_name i) (secret i) ""
    (AddAccountModal.isSubmitting f) (AddAccountModal.showModal f)
    (AddAccountModal.accountAdded f).

Definition set_error (msg : string) (f : AddAccountModal.State) : AddAccountModal.State :=
  AddAccountModal.MkState (AddAccountModal.issuer f) (AddAccountModal.accountName f)
    (AddAccountModal.secretKey f) msg
    (AddAccountModal.isSubmitting f) (AddAccountModal.showModal f)
    (AddAccountModal.accountAdded f).

Definition set_showModal (b : bool) (f : AddAccountModal.State) : AddAccountModal.State :=
  AddAccountModal.MkState (AddAccountModal.issuer f) (AddAccountModal.accountName f)
    (AddAccountModal.secretKey f) (AddAccountModal.errorMessage f)
    (AddAccountModal.isSubmitting f) b (AddAccountModal.accountAdded f).

(** [typeof e === "string" ? e : fallback] *)
Definition message_or (fallback : string) (e : thrown) : string :=
  match e with ThrownString m => m | ThrownObject _ => fallback end.

Definition restoreWindow : list Effect :=
  [win_setFullscreen false; win_setAlwaysOnTop false; win_setDecorations true; win_center].

(** The full-screen overlay for the manual selection. *)
Definition open_overlay : list Effect :=
  [win_setDecorations false; win_setAlwaysOnTop true; win_setFullscreen true;
   win_show; win_setFocus].

(** [handleQrScan], with the settlements of its three commands; the second
    and third are only awaited when the ones before them resolve. *)
Definition handleQrScan (shot auto : response string) (parsed : response Info)
           (s : State) : State * list Effect :=
  let f := set_showModal false (set_error "" (form s)) in
  match shot with
  | Rejected e =>
      (MkState (set_error (message_or "스크린샷 캡처 실패" e) (set_showModal true f))
               false (showScreenCapture s) (screenshotData s),
       [win_hide; take_screenshot] ++ restoreWindow)
  | Resolved data =>
      let manual (before : list Effect) :=
        (MkState f true true data, before ++ open_overlay) in
      match auto with
      | Rejected _ => manual [win_hide; take_screenshot; decode_screenshot_auto]
      | Resolved uri =>
          let before := [win_hide; take_screenshot; decode_screenshot_auto;
                         parse_otpauth_uri uri] in
          match parsed with
          | Rejected _ => manual before
          | Resolved info =>
              (MkState (set_showModal true (fill info f)) false (showScreenCapture s) data,
               before ++ [win_show; win_setFocus])
          end
      end
  end.

(** [handleCaptured], with the settlements of its two commands. *)
Definition handleCaptured (r : Capture.Rect) (decoded : response string)
           (parsed : response Info) (s : State) : State * list Effect :=
  let failed (e : thrown) (before : list Effect) :=
    (MkState (set_showModal true
                (set_error (message_or "QR 코드를 인식할 수 없습니다." e) (form s)))
             false false (screenshotData s),
     before ++ restoreWindow) in
  match decoded with
  | Rejected e => failed e [decode_screenshot_region r]
  | Resolved uri =>
      let before := [decode_screenshot_region r; parse_otpauth_uri uri] in
      match parsed with
      | Rejected e => failed e before
      | Resolved info =>
          (MkState (set_showModal true (fill info (form s))) false false (screenshotData s),
           before ++ restoreWindow)
      end
  end.

Definition handleCaptureCancelled (s : State) : State * list Effect :=
  (MkState (set_showModal true (form s)) false false (screenshotData s), restoreWindow).

(** [closeModal] *)
Definition closeModal (s : State) : State :=
  MkState (set_error "" (set_showModal false (form s)))
          (isScanning s) (showScreenCapture s) (screenshotData s).

(** [handleKeydown] of the modal. *)
Definition handleKeydown (key : string) (s : State) : State :=
  if String.eqb key "Escape" then closeModal s else s.

(** A key pressed on the window.  The modal listens always, the overlay
    while it is shown: the modal's [handleKeydown] runs to its end within
    the event, the overlay's dispatches [cancelled], whose handler sets
    [showModal] only after it has awaited [restoreWindow]. *)
Definition keydown (key : string) (s : State) : State * list Effect :=
  let s1 := handleKeydown key s in
  if showScreenCapture s && Capture.handleKeydown key
  then handleCaptureCancelled s1 else (s1, []).

(** The window while the overlay is open. *)
Definition overlaid : Window := MkWindow true false true true.

(** How a scan ends when the overlay was opened: a region captured or the
    selection cancelled. *)
Inductive Ending :=
| captured (r : Capture.Rect) (decoded : response string) (parsed : response Info)
| cancelled.

(** A whole scan: [handleQrScan] and, if it opened the overlay, the handler
    of the overlay's event. *)
Definition scan (shot auto : response string) (parsed : response Info)
           (ending : Ending) (s : State) : State * list Effect :=
  let (s1, e1) := handleQrScan shot auto parsed s in
  if showScreenCapture s1 then
    let (s2, e2) := match ending with
                    | captured r d p => handleCaptured r d p s1
                    | cancelled => handleCaptureCancelled s1
                    end in
    (s2, e1 ++ e2)
  else (s1, e1).

End QrScan.

(** ** The page's file handlers: drop, export, import *)

Module PageFiles.
Import Js.

Definition lower_char (c : ascii) : ascii :=
  if ((65 <=? code c) && (code c <=? 90))%nat then ascii_of_nat (code c + 32) else c.

(** [s.toLowerCase()], exact on ASCII text. *)
Definition toLowerCase (s : string) : string := of_chars (map lower_char (chars s)).

(** [s.endsWith(suffix)] *)
Definition endsWith (s suffix : string) : bool :=
  (String.length suffix <=? String.length s)%nat
  && String.eqb (of_chars (skipn (String.length s - String.length suffix) (chars s))) suffix.

(** [name.match(/\.(png|jpg|jpeg|gif|bmp|webp)$/)] *)
Definition is_image_name (name : string) : bool :=
  existsb (endsWith name) [".png"; ".jpg"; ".jpeg"; ".gif"; ".bmp"; ".webp"].

(** What [JSON.parse(await file.text())] makes of a file, as far as the
    handler looks at it: it throws, or it yields [null] (on which reading
    [.length] throws), or it yields a value whose [.length] prints as a
    text ("3" for an array of three, "undefined" for an object). *)
Inductive Json :=
| not_json (err : thrown)
| json_null (err : thrown)
| json_value (length_text : string).

Record File := MkFile { name : string; content : Json }.

Inductive Command :=
| export_backup (path : string)
| import_backup (path : string)
| page_command (c : Page.Command).

Record State := MkState { page : Page.State; isDragging : bool }.

Definition toast (msg : string) (t : Page.ToastType) (s : State) : State :=
  MkState (Page.toast msg t (page s)) (isDragging s).

Definition loadAccounts (s : State) : list Command :=
  map page_command (Page.loadAccounts (page s)).

(** A dialog's answer [path] passes [if (path)] when it is a non-empty
    string. *)
Definition chosen_path (answer : option string) : option string :=
  match answer with
  | Some p => if is_empty p then None else Some p
  | None => None
  end.

(** [handleDrop], with the dropped files, the answer of the save dialog and
    the settlement of the command (both consulted only where the handler
    gets there). *)
Definition handleDrop (files : list File) (dialog : option string)
           (reply : response unit) (s : State) : State * list Command :=
  let s := MkState (page s) false in
  match files with
  | [] => (s, [])
  | file :: _ =>
      let lower := toLowerCase (name file) in
      if endsWith lower ".json" then
        let failure (e : thrown) :=
          toast (String.append "파일 처리 실패: " (thrown_toString e)) Page.error s in
        match content file with
        | not_json e => (failure e, [])
        | parsed =>
            let finish :=
              match parsed with
              | json_value n =>
                  (toast (String.append n "개의 계정을 불러왔습니다") Page.success s,
                   loadAccounts s)
              | json_null e | not_json e => (failure e, [])
              end in
            match chosen_path dialog with
            | None => finish
            | Some path =>
                match reply with
                | Resolved _ => (fst finish, export_backup path :: snd finish)
                | Rejected e => (failure e, [export_backup path])
                end
            end
        end
      else if is_image_name lower then
        (toast "QR 코드 이미지 드롭은 파일 다이얼로그를 통해 불러오세요" Page.error s, [])
      else
        (toast "지원되지 않는 파일 형식입니다 (JSON 또는 이미지 파일)" Page.error s, [])
  end.

(** [handleExport] *)
Definition handleExport (dialog : option string) (reply : response unit) (s : State)
  : State * list Command :=
  match chosen_path dialog with
  | None => (s, [])
  | Some path =>
      match reply with
      | Resolved _ => (toast "계정 데이터를 내보냈습니다" Page.success s, [export_backup path])
      | Rejected e =>
          (toast (String.append "내보내기 실패: " (thrown_toString e)) Page.error s,
           [export_backup path])
      end
  end.

(** [handleImport]; the command answers with the number of accounts. *)
Definition handleImport (dialog : option string) (reply : response Z) (s : State)
  : State * list Command :=
  match chosen_path dialog with
  | None => (s, [])
  | Some path =>
      match reply with
      | Resolved importedCount =>
          (toast (String.append (toString importedCount) "개의 계정을 불러왔습니다")
                 Page.success s,
           import_backup path :: loadAccounts s)
      | Rejected e =>
          (toast (String.append "불러오기 실패: " (thrown_toString e)) Page.error s,
           [import_backup path])
      end
  end.

End PageFiles.

(** ** Delete, edit and copy on the account card *)

Module CardActions.
Import Js.

(** The card's variables beside those of the code display, with the timers
    set by [requestDelete] (3 s) and [copyToClipboard] (2 s). *)
Record State := MkState {
  account : Page.Account;
  currentCode : string;
  copied : bool;
  confirmingDelete : bool;
  isEditing : bool;
  editIssuer : string;
  editAccountName : string;
  deleteTimers : nat;
  copiedTimers : nat
}.

Definition create (a : Page.Account) : State :=
  MkState a Otp.placeholder false false false "" "" 0 0.

(** What a handler sends out: commands, events to the parent, and text
    written to the clipboard. *)
Inductive Output :=
| delete_account (id : Z)
| update_account (id : Z) (issuer accountName : string)
| writeText (text : string)
| deleted
| toast (msg : string) (type : Page.ToastType).

Inductive Event :=
| CodeShown (code : string)
| ClickCode
| ClipboardSettled (r : response unit)
| CopiedTimeout
| ClickBin
| ClickCancelDelete
| ClickConfirmDelete
| DeleteTimeout
| DeleteSettled (r : response unit)
| ClickEdit
| TypeIssuer (text : string)
| TypeAccountName (text : string)
| ClickSave
| SaveSettled (r : response unit)
| ClickCancelEdit.

Definition set_confirming (b : bool) (timers : nat) (s : State) : State :=
  MkState (account s) (currentCode s) (copied s) b (isEditing s)
          (editIssuer s) (editAccountName s) timers (copiedTimers s).

Definition set_copied (b : bool) (timers : nat) (s : State) : State :=
  MkState (account s) (currentCode s) b (confirmingDelete s) (isEditing s)
          (editIssuer s) (editAccountName s) (deleteTimers s) timers.

Definition set_edit (editing : bool) (i a : string) (s : State) : State :=
  MkState (account s) (currentCode s) (copied s) (confirmingDelete s) editing
          i a (deleteTimers s) (copiedTimers s).

(** One event of the card.  A button acts only while the template shows it:
    bin and pencil while no confirmation is asked, cancel and confirm while
    one is, save and cancel while editing. *)
Definition step (s : State) (e : Event) : State * list Output :=
  match e with
  | CodeShown c =>
      (MkState (account s) c (copied s) (confirmingDelete s) (isEditing s)
               (editIssuer s) (editAccountName s) (deleteTimers s) (copiedTimers s), [])
  | ClickCode =>
      if String.eqb (currentCode s) Otp.placeholder || String.eqb (currentCode s) Otp.failure
      then (s, []) else (s, [writeText (currentCode s)])
  | ClipboardSettled (Resolved _) =>
      (set_copied true (S (copiedTimers s)) s,
       [toast "코드가 클립보드에 복사되었습니다" Page.success])
  | ClipboardSettled (Rejected _) => (s, [toast "복사에 실패했습니다" Page.error])
  | CopiedTimeout =>
      match copiedTimers s with
      | O => (s, [])
      | S n => (set_copied false n s, [])
      end
  | ClickBin =>
      if confirmingDelete s then (s, [])
      else (set_confirming true (S (deleteTimers s)) s, [])
  | ClickCancelDelete =>
      if confirmingDelete s then (set_confirming false (deleteTimers s) s, []) else (s, [])
  | ClickConfirmDelete =>
      if confirmingDelete s then (s, [delete_account (Page.id (account s))]) else (s, [])
  | DeleteTimeout =>
      match deleteTimers s with
      | O => (s, [])
      | S n => (set_confirming false n s, [])
      end
  | DeleteSettled (Resolved _) =>
      (s, [deleted;
           toast (String.append (Page.issuer (account s)) " 계정이 삭제되었습니다")
                 Page.success])
  | DeleteSettled (Rejected _) => (s, [toast "삭제에 실패했습니다" Page.error])
  | ClickEdit =>
      if confirmingDelete s then (s, [])
      else (set_edit true (Page.issuer (account s)) (Page.account_name (account s)) s, [])
  | TypeIssuer text =>
      if isEditing s then (set_edit true text (editAccountName s) s, []) else (s, [])
  | TypeAccountName text =>
      if isEditing s then (set_edit true (editIssuer s) text s, []) else (s, [])
  | ClickSave =>
      if isEditing s
      then (s, [update_account (Page.id (account s))
                               (trim (editIssuer s)) (trim (editAccountName s))])
      else (s, [])
  | SaveSettled (Resolved _) =>
      (set_edit false (editIssuer s) (editAccountName s) s,
       [toast (String.append (trim (editIssuer s)) " 계정이 수정되었습니다") Page.success;
        deleted])
  | SaveSettled (Rejected _) => (s, [toast "수정에 실패했습니다" Page.error])
  | ClickCancelEdit =>
      if isEditing s then (set_edit false (editIssuer s) (editAccountName s) s, [])
      else (s, [])
  end.

Fixpoint run (s : State) (es : list Event) : State * list Output :=
  match es with
  | [] => (s, [])
  | e :: es' =>
      let (s1, o1) := step s e in
      let (s2, o2) := run s1 es' in
      (s2, o1 ++ o2)
  end.

End CardActions.

(** ** The installer window *)

Module Installer.
Import Js.

(** The script's variables, what it has written to the elements of the
    page, the listeners on the install button, and whether a [run_install]
    promise is pending. *)
Record State := MkState {
  selectedPath : string;
  downloadUrl : string;
  installPathText : string;
  versionBadge : string;
  releaseNotes : string;
  versionAreaShown : bool;
  buttonText : string;
  buttonActive : bool;
  buttonDisabled : bool;
  installListener : bool;
  closeListeners : nat;
  folderClickable : bool;
  progressShown : bool;
  progressWidth : string;
  statusText : string;
  pending : bool
}.

(** The answer of [check_latest_version]. *)
Record VersionInfo := MkVersionInfo {
  latest : string;
  release_notes : option string;
  download_url : string
}.

Inductive Effect :=
| get_default_install_path
| check_latest_version
| run_install (installPath downloadUrl : string)
| setSize (width height : Z)
| open_folder_dialog (defaultPath : string)
| window_close.

(** The page as the document delivers it, before the script runs; the
    script's own variables start empty. *)
Definition loaded (buttonText0 : string) (buttonActive0 buttonDisabled0 : bool) : State :=
  MkState "" "" "" "" "" false buttonText0 buttonActive0 buttonDisabled0
          false 0 true false "" "" false.

(** [info.release_notes || "..."] *)
Definition notes_or_default (n : option string) : string :=
  match n with
  | Some t => if is_empty t then "릴리즈 노트 제공되지 않음" else t
  | None => "릴리즈 노트 제공되지 않음"
  end.

(** [init], with the settlements of its two commands; sizes are logical,
    before the multiplication by the scale factor. *)
Definition init (path : response string) (version : response VersionInfo) (s : State)
  : State * list Effect :=
  let p := match path with Resolved d => d | Rejected _ => "C:\Secure2FA" end in
  match version with
  | Resolved info =>
      (MkState p (download_url info) p
               (String.append "v" (latest info)) (notes_or_default (release_notes info)) true
               "🚀 다운로드 및 설치" true false
               true (closeListeners s) (folderClickable s)
               (progressShown s) (progressWidth s) (statusText s) false,
       [setSize 500 460; get_default_install_path; check_latest_version; setSize 500 600])
  | Rejected e =>
      (MkState p (downloadUrl s) p
               (versionBadge s) (String.append "버전 확인 실패: " (thrown_toString e)) true
               "오류 발생 (재시작 필요)" (buttonActive s) (buttonDisabled s)
               true (closeListeners s) (folderClickable s)
               (progressShown s) (progressWidth s) (statusText s) false,
       [setSize 500 460; get_default_install_path; check_latest_version])
  end.

(** [runInstall], up to its [await]. *)
Definition runInstall (s : State) : State * list Effect :=
  if is_empty (selectedPath s) || is_empty (downloadUrl s) then (s, [])
  else
    (MkState (selectedPath s) (downloadUrl s) (installPathText s)
             (versionBadge s) (releaseNotes s) (versionAreaShown s)
             "설치 진행 중..." false true
             (installListener s) (closeListeners s) false
             true (progressWidth s) (statusText s) true,
     [run_install (selectedPath s) (downloadUrl s)]).

(** [runInstall], after the [await]. *)
Definition runInstall_settled (r : response unit) (s : State) : State :=
  match r with
  | Resolved _ =>
      MkState (selectedPath s) (downloadUrl s) (installPathText s)
              (versionBadge s) (releaseNotes s) (versionAreaShown s)
              "닫기" true false
              false (S (closeListeners s)) (folderClickable s)
              (progressShown s) "100%" "✅ 설치가 완료되었습니다!" false
  | Rejected e =>
      MkState (selectedPath s) (downloadUrl s) (installPathText s)
              (versionBadge s) (releaseNotes s) (versionAreaShown s)
              "다시 시도" true false
              (installListener s) (closeListeners s) true
              (progressShown s) (progressWidth s)
              (String.append "❌ 오류: " (thrown_toString e)) false
  end.

Inductive Event :=
| ClickInstall
| InstallSettled (r : response unit)
| ClickFolder
| FolderChosen (selected : option string)
| Progress (progress : Z) (message : string).

(** One event after [init].  A disabled button receives no click, and an
    element with [pointer-events: none] none either; the listeners of the
    install button run in the order they were added. *)
Definition step (s : State) (e : Event) : State * list Effect :=
  match e with
  | ClickInstall =>
      if buttonDisabled s then (s, [])
      else
        let (s', out) := if installListener s then runInstall s else (s, []) in
        (s', out ++ repeat window_close (closeListeners s))
  | InstallSettled r => if pending s then (runInstall_settled r s, []) else (s, [])
  | ClickFolder =>
      if folderClickable s then (s, [open_folder_dialog (selectedPath s)]) else (s, [])
  | FolderChosen selected =>
      match PageFiles.chosen_path selected with
      | Some d =>
          (MkState d (downloadUrl s) d
                   (versionBadge s) (releaseNotes s) (versionAreaShown s)
                   (buttonText s) (buttonActive s) (buttonDisabled s)
                   (installListener s) (closeListeners s) (folderClickable s)
                   (progressShown s) (progressWidth s) (statusText s) (pending s), [])
      | None => (s, [])
      end
  | Progress progress message =>
      (MkState (selectedPath s) (downloadUrl s) (installPathText s)
               (versionBadge s) (releaseNotes s) (versionAreaShown s)
               (buttonText s) (buttonActive s) (buttonDisabled s)
               (installListener s) (closeListeners s) (folderClickable s)
               true (String.append (toString progress) "%") message (pending s), [])
  end.

Fixpoint run (s : State) (es : list Event) : State * list Effect :=
  match es with
  | [] => (s, [])
  | e :: es' =>
      let (s1, o1) := step s e in
      let (s2, o2) := run s1 es' in
      (s2, o1 ++ o2)
  end.

Definition is_run_install (e : Effect) : bool :=
  match e with run_install _ _ => true | _ => false end.

Definition is_failure (e : Event) : bool :=
  match e with InstallSettled (Rejected _) => true | _ => false end.

(** How often the installer is started in a list of effects, and how often
    an installation fails in a list of events. *)
Definition installs (out : list Effect) : nat := length (filter is_run_install out).
Definition failures (es : list Event) : nat := length (filter is_failure es).

End Installer.

(** ** Typing a PIN *)

Module Typing.

(** The key presses that type the characters of [p], one by one. *)
Definition keys (p : string) : list PinPad.Event :=
  map (fun c => PinPad.Keydown (String c EmptyString)) (Js.chars p).

(** Typing [p] and letting the 200 ms timer run. *)
Definition entry (p : string) : list PinPad.Event := keys p ++ [PinPad.SubmitTimeout].

Definition is_positive_answer (e : Page.Event) : bool :=
  match e with
  | Page.Settled (Page.verify_pin_reply (Js.Resolved true)) => true
  | Page.Settled (Page.set_pin_reply (Js.Resolved _)) => true
  | _ => false
  end.

(** The PIN a command of the page carries, if it carries one. *)
Definition command_pin (c : Page.Command) : option string :=
  match c with
  | Page.verify_pin p | Page.set_pin p => Some p
  | _ => None
  end.

Definition consistent (m : PinPad.Mode) (d : PinPad.Dispatch) : bool :=
  match m, d with
  | PinPad.setup, PinPad.setup_done _ => true
  | PinPad.verify, PinPad.submit _ => true
  | PinPad.remove, PinPad.submit _ => true
  | _, _ => false
  end.

(** Every pad of a page, shown or removed, holds a well-formed entry. *)
Definition pads_ok (s : Page.State) : Prop :=
  (forall pad, Page.pinPadRef s = Some pad -> PinPad.entry_ok pad)
  /\ Forall (fun q => PinPad.entry_ok (snd q)) (Page.removedPads s).

(** The pad a page shows is in the mode of its PIN state. *)
Definition pad_fits (s : Page.State) : Prop :=
  match Page.pinPadRef s with
  | Some pad =>
      (Page.pinState s = Page.needs_setup /\ PinPad.mode pad = PinPad.setup)
      \/ (Page.pinState s = Page.locked /\ PinPad.mode pad = PinPad.verify)
  | None => True
  end.

End Typing.

(** * Properties *)

(** ** Byte sequences *)

Lemma diff_acc_zero (a : Bytes.bytes) :
  forall b acc, length a = length b ->
    (Bytes.diff_acc acc a b = 0 <-> acc = 0 /\ a = b).
Proof.
  induction a as [|x a IH]; intros [|y b] acc Hlen; simpl in *; try discriminate.
  - split; [intro H; split; [exact H | reflexivity] | intros [H _]; exact H].
  - injection Hlen as Hlen. rewrite (IH b _ Hlen), Z.lor_eq_0_iff, Z.lxor_eq_0_iff.
    split.
    + intros [[Hacc Hxy] Hab]. subst. split; reflexivity.
    + intros [Hacc Heq]. injection Heq as Hxy Hab. subst. repeat split.
Qed.

Lemma constant_time_eq_iff (a b : Bytes.bytes) :
  Bytes.constant_time_eq a b = true <-> a = b.
Proof.
  unfold Bytes.constant_time_eq. rewrite andb_true_iff, Nat.eqb_eq, Z.eqb_eq. split.
  - intros [Hlen Hd]. apply (diff_acc_zero a b 0 Hlen) in Hd. apply Hd.
  - intros ->. split; [reflexivity|]. apply (diff_acc_zero b b 0 eq_refl).
    split; reflexivity.
Qed.

Lemma constant_time_eq_refl (a : Bytes.bytes) : Bytes.constant_time_eq a a = true.
Proof. apply constant_time_eq_iff. reflexivity. Qed.

Lemma xor_length (a : Bytes.bytes) :
  forall k, length (Bytes.xor a k) = Nat.min (length a) (length k).
Proof.
  induction a as [|x a IH]; intros [|y k]; simpl; try reflexivity.
  rewrite IH. reflexivity.
Qed.

Lemma xor_involutive (a : Bytes.bytes) :
  forall k, (length a <= length k)%nat -> Bytes.xor (Bytes.xor a k) k = a.
Proof.
  induction a as [|x a IH]; intros [|y k] Hlen; simpl in *; try reflexivity; try lia.
  rewrite IH by lia. rewrite Z.lxor_assoc, Z.lxor_nilpotent, Z.lxor_0_r. reflexivity.
Qed.

Lemma le_bytes_length (n : nat) : forall x, length (Bytes.le_bytes n x) = n.
Proof. induction n as [|n IH]; intro x; simpl; [|rewrite IH]; reflexivity. Qed.

Lemma flat_map_length_const {A B} (f : A -> list B) (k : nat) (l : list A) :
  (forall x, length (f x) = k) -> length (flat_map f l) = (k * length l)%nat.
Proof.
  intro Hf. induction l as [|x l IH]; simpl; [lia|].
  rewrite length_app, Hf, IH. lia.
Qed.

(** ** The cipher: what is sealed opens to the plaintext *)

Lemma chacha20_block_length (key nonce : Bytes.bytes) (counter : Z) :
  length (ChaCha20.block key counter nonce) = 64%nat.
Proof.
  unfold ChaCha20.block.
  rewrite (flat_map_length_const _ 4%nat) by (intro; apply le_bytes_length).
  rewrite length_map, length_seq. reflexivity.
Qed.

Lemma keystream_length (key nonce : Bytes.bytes) (first n : nat) :
  length (ChaCha20.keystream key first nonce n) = n.
Proof.
  unfold ChaCha20.keystream. rewrite length_firstn.
  rewrite (flat_map_length_const _ 64%nat) by (intro; apply chacha20_block_length).
  rewrite length_seq. pose proof (Nat.div_mod_eq n 64) as Hd.
  pose proof (Nat.mod_upper_bound n 64 ltac:(discriminate)) as Hm. lia.
Qed.

Lemma chacha20_encrypt_length (key nonce data : Bytes.bytes) (first : nat) :
  length (ChaCha20.encrypt key first nonce data) = length data.
Proof.
  unfold ChaCha20.encrypt. rewrite xor_length, keystream_length. lia.
Qed.

Lemma chacha20_encrypt_involutive (key nonce data : Bytes.bytes) (first : nat) :
  ChaCha20.encrypt key first nonce (ChaCha20.encrypt key first nonce data) = data.
Proof.
  unfold ChaCha20.encrypt at 1. rewrite chacha20_encrypt_length.
  unfold ChaCha20.encrypt. apply xor_involutive. rewrite keystream_length. lia.
Qed.

Lemma aead_tag_length (key nonce aad ct : Bytes.bytes) :
  length (Aead.tag key nonce aad ct) = Aead.tag_length.
Proof. unfold Aead.tag, Poly1305.mac. apply le_bytes_length. Qed.

Lemma aead_open_seal (key nonce aad pt : Bytes.bytes) :
  Aead.open key nonce aad (Aead.seal key nonce aad pt) = Some pt.
Proof.
  unfold Aead.open, Aead.seal.
  set (ct := ChaCha20.encrypt key 1 nonce pt).
  set (t := Aead.tag key nonce aad ct).
  assert (Ht : length t = Aead.tag_length) by apply aead_tag_length.
  rewrite length_app, Ht.
  replace (length ct + Aead.tag_length <? Aead.tag_length)%nat with false
    by (symmetry; apply Nat.ltb_ge; lia).
  replace (length ct + Aead.tag_length - Aead.tag_length)%nat with (length ct) by lia.
  rewrite firstn_app, Nat.sub_diag, firstn_all, firstn_O, app_nil_r.
  rewrite skipn_app, Nat.sub_diag, skipn_all, skipn_O. cbn [app].
  fold t. rewrite constant_time_eq_refl.
  unfold ct. rewrite chacha20_encrypt_involutive. reflexivity.
Qed.

(** ** The [accounts] table keeps its constraints *)

Lemma same_key_iff (i a : string) (r : Vault.Account) :
  Vault.same_key i a r = true <-> Vault.key_of r = (i, a).
Proof.
  unfold Vault.same_key, Vault.key_of.
  rewrite andb_true_iff, !String.eqb_eq. split.
  - intros [-> ->]. reflexivity.
  - intro H. injection H as -> ->. split; reflexivity.
Qed.

Lemma key_present_iff (i a : string) (l : list Vault.Account) :
  existsb (Vault.same_key i a) l = true <-> In (i, a) (map Vault.key_of l).
Proof.
  rewrite existsb_exists, in_map_iff. split.
  - intros [r [Hin Hk]]. exists r. split; [apply same_key_iff; exact Hk | exact Hin].
  - intros [r [Hk Hin]]. exists r. split; [exact Hin | apply same_key_iff; exact Hk].
Qed.

(** Deleting rows keeps the values of any column distinct. *)
Lemma delete_keeps_distinct {B} (column : Vault.Account -> B) (n : Z) (t : Vault.Table) :
  NoDup (map column (Vault.rows t)) ->
  NoDup (map column (Vault.rows (Vault.delete n t))).
Proof.
  unfold Vault.delete. cbn [Vault.rows].
  induction (Vault.rows t) as [|r rows IH]; cbn [map filter]; intro Hnd;
    [constructor|].
  apply NoDup_cons_iff in Hnd as [Hfresh Hrest].
  destruct (negb (Vault.id r =? n)); cbn [map]; [|exact (IH Hrest)].
  constructor; [|exact (IH Hrest)].
  intro Hin. apply Hfresh. apply in_map_iff in Hin as [r' [Heq Hin]].
  apply filter_In in Hin as [Hin _]. apply in_map_iff. exists r'. split; assumption.
Qed.

Lemma insert_keeps_schema (now : Z) (i a : string) (enc nonce : Bytes.bytes)
      (t t' : Vault.Table) :
  Vault.schema_ok t -> Vault.insert now i a enc nonce t = Some t' -> Vault.schema_ok t'.
Proof.
  intros [Hk [Hid Hle]]. unfold Vault.insert.
  destruct (existsb (Vault.same_key i a) (Vault.rows t)) eqn:He; [discriminate|].
  intro H. injection H as <-.
  assert (Hnew : ~ In (i, a) (map Vault.key_of (Vault.rows t))).
  { intro Hin. apply key_present_iff in Hin. congruence. }
  unfold Vault.schema_ok, Vault.unique_keys, Vault.ids_bounded. simpl.
  rewrite !map_app. simpl. repeat split.
  - apply NoDup_app; [exact Hk | repeat constructor; intros [] |].
    intros k Hin [<- | []]. exact (Hnew Hin).
  - apply NoDup_app; [exact Hid | repeat constructor; intros [] |].
    intros n Hin [<- | []]. apply in_map_iff in Hin as [r [Hr Hin]].
    rewrite Forall_forall in Hle. specialize (Hle r Hin). lia.
  - apply Forall_app. split.
    + eapply Forall_impl; [|exact Hle]. simpl. intros r Hr. lia.
    + repeat constructor. simpl. lia.
Qed.

Lemma delete_keeps_schema (n : Z) (t : Vault.Table) :
  Vault.schema_ok t -> Vault.schema_ok (Vault.delete n t).
Proof.
  intros [Hk [Hid Hle]].
  unfold Vault.schema_ok, Vault.unique_keys, Vault.ids_bounded.
  repeat split; try (apply delete_keeps_distinct; assumption).
  unfold Vault.delete. cbn [Vault.rows Vault.last_id].
  apply Forall_forall. intros r Hin. apply filter_In in Hin as [Hin _].
  rewrite Forall_forall in Hle. apply Hle. exact Hin.
Qed.

Lemma update_keeps_ids (n : Z) (i a : string) (l : list Vault.Account) :
  map Vault.id (map (fun r => if Vault.id r =? n then Vault.rename i a r else r) l)
  = map Vault.id l.
Proof.
  rewrite map_map. apply map_ext. intro r. destruct (Vault.id r =? n); reflexivity.
Qed.

Lemma update_keeps_keys (n : Z) (i a : string) (l : list Vault.Account) :
  NoDup (map Vault.key_of l) -> NoDup (map Vault.id l) ->
  existsb (fun r => Vault.same_key i a r && negb (Vault.id r =? n)) l = false ->
  NoDup (map Vault.key_of
             (map (fun r => if Vault.id r =? n then Vault.rename i a r else r) l)).
Proof.
  set (f := fun r => if Vault.id r =? n then Vault.rename i a r else r).
  intros Hk Hid Hfree.
  assert (Hother : forall r, In r l -> Vault.id r <> n -> Vault.key_of r <> (i, a)).
  { intros r Hin Hn Hkey.
    assert (existsb (fun r => Vault.same_key i a r && negb (Vault.id r =? n)) l = true);
      [|congruence].
    apply existsb_exists. exists r. split; [exact Hin|].
    apply andb_true_iff. split; [apply same_key_iff; exact Hkey|].
    apply negb_true_iff, Z.eqb_neq. exact Hn. }
  clear Hfree. induction l as [|r l IH]; simpl; [constructor|].
  simpl in Hk, Hid. apply NoDup_cons_iff in Hk as [Hkr Hk].
  apply NoDup_cons_iff in Hid as [Hidr Hid].
  constructor.
  - intro Hin. apply in_map_iff in Hin as [r' [Heq Hin']].
    apply in_map_iff in Hin' as [r0 [<- Hin0]].
    unfold f in Heq. destruct (Vault.id r0 =? n) eqn:E0; destruct (Vault.id r =? n) eqn:E.
    + apply Z.eqb_eq in E0, E. apply Hidr. apply in_map_iff. exists r0.
      split; [congruence | exact Hin0].
    + apply Z.eqb_neq in E. apply (Hother r (or_introl eq_refl) E).
      rewrite <- Heq. reflexivity.
    + apply Z.eqb_neq in E0. apply (Hother r0 (or_intror Hin0) E0).
      rewrite Heq. reflexivity.
    + apply Hkr. apply in_map_iff. exists r0. split; assumption.
  - apply IH; try assumption. intros r0 Hin0. apply Hother. right. exact Hin0.
Qed.

Lemma update_keeps_schema (n : Z) (i a : string) (t t' : Vault.Table) :
  Vault.schema_ok t -> Vault.update n i a t = Some t' -> Vault.schema_ok t'.
Proof.
  intros [Hk [Hid Hle]]. unfold Vault.update.
  destruct (existsb _ (Vault.rows t)) eqn:He; [discriminate|].
  intro H. injection H as <-.
  unfold Vault.schema_ok, Vault.unique_keys, Vault.ids_bounded. simpl.
  rewrite update_keeps_ids. repeat split.
  - apply update_keeps_keys; assumption.
  - exact Hid.
  - apply Forall_forall. intros r Hin. apply in_map_iff in Hin as [r0 [<- Hin0]].
    rewrite Forall_forall in Hle. specialize (Hle r0 Hin0).
    destruct (Vault.id r0 =? n); simpl; exact Hle.
Qed.

(** ** The vault commands *)

Lemma draw_length (n : nat) (g : Vault.Rng) : length (fst (Vault.draw n g)) = n.
Proof. unfold Vault.draw. simpl. rewrite length_map, length_seq. reflexivity. Qed.

(** What [encrypt] returns is decrypted to the plaintext (the round trip of
    the cipher, for every key, generator state and plaintext). *)
Lemma decrypt_encrypt (key : Bytes.bytes) (g : Vault.Rng) (pt : Bytes.bytes) :
  let out := fst (Vault.encrypt key g pt) in
  Vault.decrypt key (fst out) (snd out) = Vault.Ok pt.
Proof.
  unfold Vault.encrypt.
  pose proof (draw_length Aead.nonce_length g) as Hn.
  destruct (Vault.draw Aead.nonce_length g) as [nonce g']. simpl in *.
  unfold Vault.decrypt. rewrite Hn, Nat.eqb_refl. simpl.
  rewrite aead_open_seal. reflexivity.
Qed.


(** That two nonces differ is a property of the random bytes and not of the
    commands: on a stream that repeats itself, two encryptions of a secret
    under one key give the same nonce and the same ciphertext. *)
Example encrypt_repeats_on_constant_stream :
  let g := Vault.MkRng (fun _ => 7) 0 in
  let key := Vault.master_key Sample.vault in
  let pt := Bytes.of_string "JBSWY3DPEHPK3PXP" in
  fst (Vault.encrypt key (snd (Vault.encrypt key g pt)) pt) = fst (Vault.encrypt key g pt).
Proof. vm_compute. reflexivity. Qed.

(** [add_account] by cases. *)
Lemma add_account_cases (now : Z) (i a secret : string) (s : Vault.State) :
  let clean := Vault.normalize_secret secret in
  let out := Vault.encrypt (Vault.master_key s) (Vault.rng s) (Bytes.of_string clean) in
  let s' := Vault.with_rng (snd out) s in
  Vault.add_account now i a secret s =
    if negb (Vault.valid_base32 clean) then (Vault.Err Vault.ValidationError, s)
    else if existsb (Vault.same_key i a) (Vault.rows (Vault.table s))
    then (Vault.Err Vault.ConflictError, s)
    else (Vault.Ok tt,
          Vault.with_table
            (Vault.MkTable
               (Vault.rows (Vault.table s)
                  ++ [Vault.MkAccount (Vault.last_id (Vault.table s) + 1) i a
                                      (fst (fst out)) (snd (fst out)) now])
               (Vault.last_id (Vault.table s) + 1)) s').
Proof.
  intros clean out s'. unfold Vault.add_account. fold clean.
  destruct (negb (Vault.valid_base32 clean)); [reflexivity|].
  destruct (existsb (Vault.same_key i a) (Vault.rows (Vault.table s))) eqn:E;
    [reflexivity|].
  fold out. subst s'. destruct out as [[enc nonce] g'].
  unfold Vault.insert. rewrite E. reflexivity.
Qed.

Lemma exec_keeps_schema (s : Vault.State) (c : Vault.Call) :
  Vault.schema_ok (Vault.table s) -> Vault.schema_ok (Vault.table (Vault.exec s c)).
Proof.
  intro H. destruct c as [pin|pin|pin|now i a secret|n i a|n]; simpl.
  - unfold Vault.set_pin. destruct (Vault.valid_pin pin); [|exact H].
    destruct (Vault.draw _ _). exact H.
  - unfold Vault.verify_pin. destruct (Vault.verifier s) as [v|]; [|exact H].
    destruct (Vault.matches pin v); exact H.
  - unfold Vault.remove_pin, Vault.verify_pin.
    destruct (Vault.verifier s) as [v|]; [|exact H].
    destruct (Vault.matches pin v); exact H.
  - unfold Vault.add_account.
    destruct (negb _); [exact H|].
    destruct (existsb _ _); [exact H|].
    destruct (Vault.encrypt _ _ _) as [[enc nonce] g'].
    destruct (Vault.insert now i a enc nonce (Vault.table s)) as [t|] eqn:E; simpl.
    + eapply insert_keeps_schema; eassumption.
    + exact H.
  - unfold Vault.update_account.
    destruct (negb _); [exact H|].
    destruct (Vault.update n i a (Vault.table s)) as [t|] eqn:E; simpl.
    + eapply update_keeps_schema; eassumption.
    + exact H.
  - unfold Vault.delete_account.
    destruct (negb _); [exact H|]. simpl. apply delete_keeps_schema. exact H.
Qed.

(** From the first run on, every session of commands leaves a table that
    satisfies the constraints of the schema. *)
Lemma session_keeps_schema (g : Vault.Rng) (calls : list Vault.Call) :
  Vault.schema_ok (Vault.table (Vault.session (Vault.first_run g) calls)).
Proof.
  unfold Vault.session.
  assert (H0 : Vault.schema_ok (Vault.table (Vault.first_run g))).
  { unfold Vault.first_run. destruct (Vault.draw _ _). simpl.
    repeat split; constructor. }
  revert H0. generalize (Vault.first_run g) as s.
  induction calls as [|c calls IH]; intros s H; simpl; [exact H|].
  apply IH. apply exec_keeps_schema. exact H.
Qed.

Lemma count_one (i a : string) (l : list Vault.Account) :
  NoDup (map Vault.key_of l) -> In (i, a) (map Vault.key_of l) ->
  length (filter (Vault.same_key i a) l) = 1%nat.
Proof.
  induction l as [|r l IH]; simpl; intros Hnd Hin; [contradiction|].
  apply NoDup_cons_iff in Hnd as [Hr Hnd].
  destruct (Vault.same_key i a r) eqn:E.
  - apply same_key_iff in E. simpl. f_equal.
    rewrite E in Hr.
    assert (Hnone : forall r', In r' l -> Vault.same_key i a r' = false).
    { intros r' Hin'. destruct (Vault.same_key i a r') eqn:E'; [|reflexivity].
      exfalso. apply Hr. apply in_map_iff. exists r'.
      split; [apply same_key_iff; exact E' | exact Hin']. }
    clear -Hnone. induction l as [|x l IH]; simpl; [reflexivity|].
    rewrite (Hnone x (or_introl eq_refl)). apply IH.
    intros r' Hin'. apply Hnone. right. exact Hin'.
  - apply IH; [exact Hnd|]. destruct Hin as [Hk | Hin]; [|exact Hin].
    apply same_key_iff in Hk. congruence.
Qed.

Lemma add_account_key_present (now : Z) (i a secret : string) (s : Vault.State) :
  Vault.valid_base32 (Vault.normalize_secret secret) = true ->
  existsb (Vault.same_key i a)
          (Vault.rows (Vault.table (snd (Vault.add_account now i a secret s)))) = true.
Proof.
  intro Hv. rewrite add_account_cases. cbv zeta. rewrite Hv. cbn [negb].
  destruct (existsb (Vault.same_key i a) (Vault.rows (Vault.table s))) eqn:E;
    cbn [snd Vault.table Vault.with_rng Vault.with_table Vault.rows]; [exact E|].
  rewrite existsb_app. apply orb_true_iff. right. simpl.
  unfold Vault.same_key. simpl. rewrite !String.eqb_refl. reflexivity.
Qed.

(** C2. The pair (issuer, account_name) is unique among the stored rows:
    every command keeps the constraints of the schema, and a second
    [add_account] with the pair of a first one is answered by
    [ConflictError], changes no row and leaves exactly one row with the
    pair. *)
Theorem account_pair_unique (s : Vault.State) (now1 now2 : Z) (i a secret1 secret2 : string) :
  Vault.schema_ok (Vault.table s) ->
  Vault.valid_base32 (Vault.normalize_secret secret1) = true ->
  Vault.valid_base32 (Vault.normalize_secret secret2) = true ->
  let s1 := snd (Vault.add_account now1 i a secret1 s) in
  let second := Vault.add_account now2 i a secret2 s1 in
  fst second = Vault.Err Vault.ConflictError
  /\ Vault.table (snd second) = Vault.table s1
  /\ Vault.count_key i a (snd second) = 1%nat
  /\ (forall c, Vault.schema_ok (Vault.table (Vault.exec s c))).
Proof.
  intros Hs Hv1 Hv2 s1 second.
  assert (Hs1 : Vault.schema_ok (Vault.table s1))
    by exact (exec_keeps_schema s (Vault.call_add_account now1 i a secret1) Hs).
  assert (Hp : existsb (Vault.same_key i a) (Vault.rows (Vault.table s1)) = true)
    by (apply add_account_key_present; exact Hv1).
  assert (Hsecond : fst second = Vault.Err Vault.ConflictError
                    /\ Vault.table (snd second) = Vault.table s1).
  { unfold second. rewrite add_account_cases. cbv zeta. rewrite Hv2, Hp.
    split; reflexivity. }
  destruct Hsecond as [Hres Htab]. split; [|split; [|split]].
  - exact Hres.
  - exact Htab.
  - unfold Vault.count_key. rewrite Htab. apply count_one.
    + apply Hs1.
    + apply key_present_iff. exact Hp.
  - intro c. apply exec_keeps_schema. exact Hs.
Qed.

Lemma account_pair_unique_witness :
  let s1 := snd (Vault.add_account 1700000000 "X" "y" Sample.secret Sample.vault) in
  let second := Vault.add_account 1700000060 "X" "y" "JBSWY3DPEHPK3PXP" s1 in
  fst second = Vault.Err Vault.ConflictError
  /\ Vault.table (snd second) = Vault.table s1
  /\ Vault.count_key "X" "y" (snd second) = 1%nat
  /\ (forall c, Vault.schema_ok (Vault.table (Vault.exec Sample.vault c))).
Proof.
  apply (account_pair_unique Sample.vault 1700000000 1700000060 "X" "y"
                             Sample.secret "JBSWY3DPEHPK3PXP").
  - repeat split; constructor.
  - reflexivity.
  - reflexivity.
Defined.

(** ** Strings *)

Lemma chars_append (a b : string) :
  Js.chars (String.append a b) = Js.chars a ++ Js.chars b.
Proof.
  unfold Js.chars. induction a as [|c a IH]; simpl; [|rewrite IH]; reflexivity.
Qed.

Lemma chars_length (s : string) : length (Js.chars s) = String.length s.
Proof.
  unfold Js.chars. induction s as [|c s IH]; simpl; [|rewrite IH]; reflexivity.
Qed.

Lemma chars_of_chars (l : list ascii) : Js.chars (Js.of_chars l) = l.
Proof. apply list_ascii_of_string_of_list_ascii. Qed.


Lemma of_string_append (a b : string) :
  Bytes.of_string (String.append a b) = Bytes.of_string a ++ Bytes.of_string b.
Proof.
  unfold Bytes.of_string. fold (Js.chars (String.append a b)).
  rewrite chars_append, map_app. reflexivity.
Qed.

Lemma of_string_length (s : string) : length (Bytes.of_string s) = String.length s.
Proof. unfold Bytes.of_string. rewrite length_map. apply chars_length. Qed.

(** ** PinGate *)

(** HMAC fills a short key with zero bytes, so a key and the key followed by
    a zero byte give the same key block. *)
Lemma key_block_nul (k : Bytes.bytes) :
  (length k < 64)%nat -> Hmac.key_block (k ++ [0]) = Hmac.key_block k.
Proof.
  intro Hlen. unfold Hmac.key_block, Sha256.block_size.
  rewrite length_app. simpl length.
  replace (64 <? length k + 1)%nat with false by (symmetry; apply Nat.ltb_ge; lia).
  replace (64 <? length k)%nat with false by (symmetry; apply Nat.ltb_ge; lia).
  rewrite length_app. simpl length. rewrite <- app_assoc. f_equal.
  replace (64 - length k)%nat with (S (64 - (length k + 1))) by lia.
  reflexivity.
Qed.

Lemma derive_nul (pin : string) (salt : Bytes.bytes) (iterations : N) :
  (String.length pin < 64)%nat ->
  Vault.derive (String.append pin Sample.nul) salt iterations
  = Vault.derive pin salt iterations.
Proof.
  intro Hlen. unfold Vault.derive, Pbkdf2.hmac_sha256.
  rewrite of_string_append.
  change (Bytes.of_string Sample.nul) with [0].
  rewrite key_block_nul by (rewrite of_string_length; exact Hlen).
  reflexivity.
Qed.

(** [set_pin] by cases. *)
Lemma set_pin_cases (pin : string) (s : Vault.State) :
  let drawn := Vault.draw Vault.SALT_LENGTH (Vault.rng s) in
  Vault.set_pin pin s =
    if Vault.valid_pin pin then
      (Vault.Ok tt,
       Vault.MkState
         (Some (Vault.MkVerifier (fst drawn) Vault.PBKDF2_ITERATIONS
                  (Vault.derive pin (fst drawn) Vault.PBKDF2_ITERATIONS)))
         (Vault.master_key s) (Vault.table s) Vault.Unlocked (snd drawn))
    else (Vault.Err Vault.ValidationError, s).
Proof.
  intro drawn. unfold Vault.set_pin. fold drawn.
  destruct (Vault.valid_pin pin); [|reflexivity].
  destruct drawn as [salt g']. reflexivity.
Qed.

(** [verify_pin] by cases; it changes nothing but the lock. *)
Lemma verify_pin_cases (p : string) (s : Vault.State) :
  Vault.verify_pin p s =
    match Vault.verifier s with
    | Some v =>
        if Bytes.constant_time_eq (Vault.derive p (Vault.salt v) (Vault.iterations v))
                                  (Vault.hash v)
        then (true, Vault.with_lock Vault.Unlocked s) else (false, s)
    | None => (false, s)
    end.
Proof. reflexivity. Qed.

(** [remove_pin] by cases. *)
Lemma remove_pin_cases (pin : string) (s : Vault.State) :
  Vault.remove_pin pin s =
    if fst (Vault.verify_pin pin s)
    then (Vault.Ok tt,
          Vault.MkState None (Vault.master_key s) (Vault.table s) Vault.Unlocked (Vault.rng s))
    else (Vault.Err Vault.AuthenticationError, s).
Proof.
  unfold Vault.remove_pin. rewrite verify_pin_cases.
  destruct (Vault.verifier s) as [v|]; [|reflexivity].
  destruct (Bytes.constant_time_eq _ _); reflexivity.
Qed.

Lemma verify_pin_after_set_pin (pin p : string) (s : Vault.State) :
  Vault.valid_pin pin = true ->
  let salt := fst (Vault.draw Vault.SALT_LENGTH (Vault.rng s)) in
  fst (Vault.verify_pin p (snd (Vault.set_pin pin s)))
  = Bytes.constant_time_eq (Vault.derive p salt Vault.PBKDF2_ITERATIONS)
                           (Vault.derive pin salt Vault.PBKDF2_ITERATIONS).
Proof.
  intros Hv salt. rewrite set_pin_cases. cbv zeta. rewrite Hv.
  cbn [snd]. rewrite verify_pin_cases.
  cbn [Vault.verifier Vault.salt Vault.iterations Vault.hash]. fold salt.
  destruct (Bytes.constant_time_eq _ _); reflexivity.
Qed.

(** ** The page's PIN state *)

Lemma pinState_set_pinState (p : Page.PinState) (s : Page.State) :
  Page.pinState (Page.set_pinState p s) = p.
Proof.
  unfold Page.set_pinState.
  destruct (Page.PinState_eqb (Page.pinState s) p) eqn:E; [|reflexivity].
  destruct (Page.pinState s), p; try discriminate; reflexivity.
Qed.

Lemma pinState_pad_triggerError (msg : string) (s : Page.State) :
  Page.pinState (Page.pad_triggerError msg s) = Page.pinState s.
Proof. reflexivity. Qed.

(** The lock screen opens on the answer [true] of [verify_pin] and on no
    other answer. *)
Lemma handlePinSubmit_unlocks (r : Js.response bool) (s : Page.State) :
  Page.pinState (fst (Page.handlePinSubmit r s)) = Page.unlocked
  <-> r = Js.Resolved true \/ Page.pinState s = Page.unlocked.
Proof.
  destruct r as [[|]|e]; simpl.
  - rewrite pinState_set_pinState. split; [left|]; reflexivity.
  - split; [intro H; right; exact H | intros [H|H]; [discriminate | exact H]].
  - split; [intro H; right; exact H | intros [H|H]; [discriminate | exact H]].
Qed.

(** After [set_pin(pin)], [verify_pin] accepts [pin] followed by a zero
    byte, which is another string. *)
Lemma verify_pin_accepts_nul_suffix (pin : string) (s : Vault.State) :
  Vault.valid_pin pin = true ->
  fst (Vault.verify_pin (String.append pin Sample.nul) (snd (Vault.set_pin pin s))) = true.
Proof.
  intro Hv. rewrite verify_pin_after_set_pin by exact Hv. cbv zeta.
  rewrite derive_nul; [apply constant_time_eq_refl|].
  unfold Vault.valid_pin in Hv. apply andb_true_iff in Hv as [Hlen _].
  apply Nat.eqb_eq in Hlen. rewrite Hlen. repeat constructor.
Qed.

(** In the model [verify_pin] looks at the derived bytes only: after
    [set_pin("1234")] the five-character string made of "1234" and a zero
    byte is verified as well.  That string is no PIN, and the pad never
    sends it. *)
Example verify_pin_nul_suffix_example :
  let s1 := snd (Vault.set_pin "1234" Sample.vault) in
  let p := String.append "1234" Sample.nul in
  fst (Vault.verify_pin p s1) = true /\ p <> "1234".
Proof.
  split.
  - apply verify_pin_accepts_nul_suffix. reflexivity.
  - discriminate.
Qed.

(** What is proved of [verify_pin].  After an accepted [set_pin(pin)],
    [verify_pin(p)] answers true exactly when the bytes derived from [p]
    under the stored salt and iteration count equal the stored ones, so it
    answers true for [pin] itself; its answer is a boolean in every case,
    with the vault unlocked on true and untouched on false; and the page
    leaves the lock screen on the answer true only.  That a wrong PIN of
    four digits is answered with false is the statement that the key
    derivation has no collision among the PINs, which is neither proved nor
    refuted here. *)
Lemma verify_pin_true_iff_derived_equal (pin p : string) (s : Vault.State) :
  Vault.valid_pin pin = true ->
  let s1 := snd (Vault.set_pin pin s) in
  let salt := fst (Vault.draw Vault.SALT_LENGTH (Vault.rng s)) in
  (fst (Vault.verify_pin p s1) = true
   <-> Vault.derive p salt Vault.PBKDF2_ITERATIONS
       = Vault.derive pin salt Vault.PBKDF2_ITERATIONS)
  /\ fst (Vault.verify_pin pin s1) = true
  /\ (forall s', snd (Vault.verify_pin p s')
                 = if fst (Vault.verify_pin p s')
                   then Vault.with_lock Vault.Unlocked s' else s')
  /\ (forall r page,
         Page.pinState (fst (Page.handlePinSubmit r page)) = Page.unlocked
         <-> r = Js.Resolved true \/ Page.pinState page = Page.unlocked).
Proof.
  intros Hv s1 salt. split; [|split; [|split]].
  - unfold s1. rewrite verify_pin_after_set_pin by exact Hv.
    apply constant_time_eq_iff.
  - unfold s1. rewrite verify_pin_after_set_pin by exact Hv.
    apply constant_time_eq_refl.
  - intro s'. rewrite verify_pin_cases.
    destruct (Vault.verifier s') as [v|]; [|reflexivity].
    destruct (Bytes.constant_time_eq _ _); reflexivity.
  - apply handlePinSubmit_unlocks.
Qed.

Lemma verify_pin_true_iff_derived_equal_witness :
  let s1 := snd (Vault.set_pin "1234" Sample.vault) in
  let salt := fst (Vault.draw Vault.SALT_LENGTH (Vault.rng Sample.vault)) in
  (fst (Vault.verify_pin "0000" s1) = true
   <-> Vault.derive "0000" salt Vault.PBKDF2_ITERATIONS
       = Vault.derive "1234" salt Vault.PBKDF2_ITERATIONS)
  /\ fst (Vault.verify_pin "1234" s1) = true
  /\ (forall s', snd (Vault.verify_pin "0000" s')
                 = if fst (Vault.verify_pin "0000" s')
                   then Vault.with_lock Vault.Unlocked s' else s')
  /\ (forall r page,
         Page.pinState (fst (Page.handlePinSubmit r page)) = Page.unlocked
         <-> r = Js.Resolved true \/ Page.pinState page = Page.unlocked).
Proof.
  apply (verify_pin_true_iff_derived_equal "1234" "0000" Sample.vault).
  reflexivity.
Defined.

(** ** The PIN pad dispatches four-digit PINs only *)

Lemma digit_toString (c : ascii) :
  Js.is_digit c = true -> Js.toString (Z.of_nat (Js.code c) - 48) = String c EmptyString.
Proof.
  destruct c as [[] [] [] [] [] [] [] []]; intro H; try discriminate H; reflexivity.
Qed.

Lemma forallb_removelast {A} (f : A -> bool) (l : list A) :
  forallb f l = true -> forallb f (removelast l) = true.
Proof.
  induction l as [|x l IH]; simpl; [reflexivity|].
  intro H. apply andb_true_iff in H as [Hx Hl].
  destruct l as [|y l]; [reflexivity|].
  simpl. rewrite Hx. apply IH. exact Hl.
Qed.

Lemma removelast_length_le {A} (l : list A) : (length (removelast l) <= length l)%nat.
Proof.
  induction l as [|x l IH]; simpl; [lia|]. destruct l; simpl in *; lia.
Qed.

Lemma entry_ok_empty (m : PinPad.Mode) (e : option string) (sm : option string)
      (cp : string) (ic sh : bool) (st sk : nat) :
  PinPad.entry_ok (PinPad.MkState m e sm "" cp ic sh st sk).
Proof. split; simpl; [reflexivity | unfold PinPad.MAX_PIN_LENGTH; lia]. Qed.

Lemma triggerError_entry_ok (msg : string) (s : PinPad.State) :
  PinPad.entry_ok (PinPad.triggerError msg s).
Proof. unfold PinPad.triggerError. simpl. destruct (PinPad.mode s); apply entry_ok_empty. Qed.

Lemma handleKeydown_entry_ok (key : string) (s : PinPad.State) :
  PinPad.entry_ok s -> PinPad.entry_ok (PinPad.handleKeydown key s).
Proof.
  intros [Hd Hl]. unfold PinPad.handleKeydown.
  destruct (PinPad.is_digit_key key) eqn:Ek.
  - destruct key as [|c [|c' key]]; try discriminate Ek. simpl in Ek.
    unfold PinPad.handleInput, PinPad.parseInt. rewrite (digit_toString c Ek).
    destruct (String.length (PinPad.pin s) <? PinPad.MAX_PIN_LENGTH)%nat eqn:El;
      [|split; assumption].
    apply Nat.ltb_lt in El. split; simpl.
    + rewrite chars_append, forallb_app, Hd. simpl. rewrite Ek. reflexivity.
    + rewrite <- chars_length, chars_append, length_app, chars_length. simpl. lia.
  - destruct (String.eqb key "Backspace"); [|split; assumption].
    unfold PinPad.handleDelete.
    destruct (0 <? String.length (PinPad.pin s))%nat; [|split; assumption].
    unfold Js.drop_last. split; simpl.
    + rewrite chars_of_chars. apply forallb_removelast. exact Hd.
    + rewrite <- chars_length, chars_of_chars.
      pose proof (removelast_length_le (Js.chars (PinPad.pin s))) as Hr.
      rewrite chars_length in Hr. lia.
Qed.

Lemma entry_ok_valid_pin (s : PinPad.State) :
  PinPad.entry_ok s ->
  (String.length (PinPad.pin s) <? PinPad.MIN_PIN_LENGTH)%nat = false ->
  Vault.valid_pin (PinPad.pin s) = true.
Proof.
  intros [Hd Hl] Hmin. apply Nat.ltb_ge in Hmin.
  unfold PinPad.MAX_PIN_LENGTH in Hl. unfold PinPad.MIN_PIN_LENGTH in Hmin.
  unfold Vault.valid_pin. rewrite Hd, andb_true_r. apply Nat.eqb_eq. lia.
Qed.

Lemma handleSubmit_entry_ok (s : PinPad.State) :
  PinPad.entry_ok s ->
  PinPad.entry_ok (fst (PinPad.handleSubmit s))
  /\ Forall (fun d => Vault.valid_pin (PinPad.dispatched_pin d) = true)
            (snd (PinPad.handleSubmit s)).
Proof.
  intro Hok. unfold PinPad.handleSubmit.
  destruct (String.length (PinPad.pin s) <? PinPad.MIN_PIN_LENGTH)%nat eqn:El; simpl.
  - split; [apply triggerError_entry_ok | constructor].
  - pose proof (entry_ok_valid_pin s Hok El) as Hv.
    destruct (PinPad.mode s); simpl.
    + split; [exact Hok | repeat constructor; exact Hv].
    + destruct (PinPad.isConfirming s); simpl.
      * destruct (String.eqb (PinPad.pin s) (PinPad.confirmPin s)); simpl.
        -- split; [exact Hok | repeat constructor; exact Hv].
        -- split; [apply triggerError_entry_ok | constructor].
      * split; [apply entry_ok_empty | constructor].
    + split; [exact Hok | repeat constructor; exact Hv].
Qed.

Lemma step_entry_ok (s : PinPad.State) (e : PinPad.Event) :
  PinPad.entry_ok s ->
  PinPad.entry_ok (fst (PinPad.step s e))
  /\ Forall (fun d => Vault.valid_pin (PinPad.dispatched_pin d) = true)
            (snd (PinPad.step s e)).
Proof.
  intro Hok. destruct e as [key| | | |msg]; simpl.
  - split; [apply handleKeydown_entry_ok; exact Hok | constructor].
  - destruct (PinPad.submitTimers s) as [|n]; [split; [exact Hok | constructor]|].
    apply handleSubmit_entry_ok. exact Hok.
  - destruct (PinPad.shakeTimers s) as [|n]; (split; [exact Hok | constructor]).
  - split; [|constructor]. unfold PinPad.clickReset.
    destruct (PinPad.mode s); try exact Hok.
    destruct (PinPad.isConfirming s); [apply entry_ok_empty | exact Hok].
  - split; [apply triggerError_entry_ok | constructor].
Qed.

Lemma run_entry_ok (es : list PinPad.Event) :
  forall s, PinPad.entry_ok s ->
    PinPad.entry_ok (fst (PinPad.run s es))
    /\ Forall (fun d => Vault.valid_pin (PinPad.dispatched_pin d) = true)
              (snd (PinPad.run s es)).
Proof.
  induction es as [|e es IH]; intros s Hok; simpl; [split; [exact Hok | constructor]|].
  destruct (step_entry_ok s e Hok) as [H1 Hd1].
  destruct (PinPad.step s e) as [s1 d1]. simpl in H1, Hd1.
  destruct (IH s1 H1) as [H2 Hd2].
  destruct (PinPad.run s1 es) as [s2 d2]. simpl in *.
  split; [exact H2 | apply Forall_app; split; assumption].
Qed.

(** Whatever the keys, timers and errors, a pad dispatches only PINs of
    four decimal digits. *)
Lemma pad_dispatches_valid_pins (m : PinPad.Mode) (es : list PinPad.Event) :
  Forall (fun d => Vault.valid_pin (PinPad.dispatched_pin d) = true)
         (snd (PinPad.run (PinPad.mount m) es)).
Proof. apply run_entry_ok. apply entry_ok_empty. Qed.

Lemma valid_pin_four_digits (pin : string) :
  Vault.valid_pin pin = true
  <-> exists a b c d,
        pin = String a (String b (String c (String d EmptyString)))
        /\ Js.is_digit a = true /\ Js.is_digit b = true
        /\ Js.is_digit c = true /\ Js.is_digit d = true.
Proof.
  unfold Vault.valid_pin. split.
  - intro H. apply andb_true_iff in H as [Hlen Hd]. apply Nat.eqb_eq in Hlen.
    destruct pin as [|a [|b [|c [|d [|e pin]]]]]; try discriminate Hlen.
    simpl in Hd. rewrite !andb_true_iff in Hd.
    destruct Hd as [Ha [Hb [Hc [Hd _]]]].
    exists a, b, c, d. repeat split; assumption.
  - intros [a [b [c [d [-> [Ha [Hb [Hc Hd]]]]]]]]. simpl.
    rewrite Ha, Hb, Hc, Hd. reflexivity.
Qed.

(** C8. [set_pin] accepts the strings of exactly four decimal digits and
    answers every other string with [ValidationError], leaving the vault as
    it was; on acceptance it draws the next 16 bytes of the generator as the
    salt, stores the verifier derived from the PIN under that salt, and
    unlocks.  The PIN pad, for its part, hands over four-digit PINs only. *)
Theorem set_pin_accepts_four_digit_pins (pin : string) (s : Vault.State) :
  let drawn := Vault.draw Vault.SALT_LENGTH (Vault.rng s) in
  (Vault.valid_pin pin = true
   <-> exists a b c d,
         pin = String a (String b (String c (String d EmptyString)))
         /\ Js.is_digit a = true /\ Js.is_digit b = true
         /\ Js.is_digit c = true /\ Js.is_digit d = true)
  /\ Vault.set_pin pin s
     = (if Vault.valid_pin pin then
          (Vault.Ok tt,
           Vault.MkState
             (Some (Vault.MkVerifier (fst drawn) Vault.PBKDF2_ITERATIONS
                      (Vault.derive pin (fst drawn) Vault.PBKDF2_ITERATIONS)))
             (Vault.master_key s) (Vault.table s) Vault.Unlocked (snd drawn))
        else (Vault.Err Vault.ValidationError, s))
  /\ fst drawn = map (fun i => Vault.stream (Vault.rng s) i mod 256)
                     (seq (Vault.cursor (Vault.rng s)) 16)
  /\ Vault.cursor (snd drawn) = (Vault.cursor (Vault.rng s) + 16)%nat
  /\ (forall m es,
         Forall (fun d => Vault.valid_pin (PinPad.dispatched_pin d) = true)
                (snd (PinPad.run (PinPad.mount m) es))).
Proof.
  intro drawn. split; [|split; [|split; [|split]]].
  - apply valid_pin_four_digits.
  - apply set_pin_cases.
  - reflexivity.
  - reflexivity.
  - apply pad_dispatches_valid_pins.
Qed.

(** ** The PIN and the stored secrets *)

Lemma pin_call_frame (s : Vault.State) (c : Vault.Call) :
  Vault.is_pin_call c = true ->
  Vault.master_key (Vault.exec s c) = Vault.master_key s
  /\ Vault.table (Vault.exec s c) = Vault.table s.
Proof.
  destruct c as [pin|pin|pin| | |]; intro H; try discriminate H; simpl.
  - rewrite set_pin_cases. cbv zeta. destruct (Vault.valid_pin pin); split; reflexivity.
  - rewrite verify_pin_cases. destruct (Vault.verifier s) as [v|]; [|split; reflexivity].
    destruct (Bytes.constant_time_eq _ _); split; reflexivity.
  - rewrite remove_pin_cases. destruct (fst (Vault.verify_pin pin s)); split; reflexivity.
Qed.

Lemma pin_session_frame (calls : list Vault.Call) :
  forall s, forallb Vault.is_pin_call calls = true ->
    Vault.master_key (Vault.session s calls) = Vault.master_key s
    /\ Vault.table (Vault.session s calls) = Vault.table s.
Proof.
  unfold Vault.session.
  induction calls as [|c calls IH]; intros s H; simpl in *; [split; reflexivity|].
  apply andb_true_iff in H as [Hc Hcalls].
  destruct (IH (Vault.exec s c) Hcalls) as [Hk Ht].
  destruct (pin_call_frame s c Hc) as [Hk' Ht'].
  split; congruence.
Qed.

(** C4. [remove_pin] succeeds exactly when [verify_pin] answers true for the
    PIN given, and then only the verifier goes (and the vault is unlocked);
    and no session of PIN calls, removal and change among them, alters the
    master key or a row of the table, so each stored secret is decrypted to
    what it was decrypted to before.  The modal, for its part, records the
    PIN as gone only when the command succeeded. *)
Theorem remove_pin_touches_only_verifier
        (pin : string) (s : Vault.State) (calls : list Vault.Call) :
  forallb Vault.is_pin_call calls = true ->
  Vault.remove_pin pin s
  = (if fst (Vault.verify_pin pin s)
     then (Vault.Ok tt,
           Vault.MkState None (Vault.master_key s) (Vault.table s)
                         Vault.Unlocked (Vault.rng s))
     else (Vault.Err Vault.AuthenticationError, s))
  /\ Vault.master_key (Vault.session s calls) = Vault.master_key s
  /\ Vault.table (Vault.session s calls) = Vault.table s
  /\ (forall r, Vault.decrypt_account (Vault.session s calls) r = Vault.decrypt_account s r)
  /\ (forall r m,
         PinSettingsModal.hasPin (PinSettingsModal.handleRemove r m)
         = match r with
           | Js.Resolved _ => false
           | Js.Rejected _ => PinSettingsModal.hasPin m
           end).
Proof.
  intro Hcalls. destruct (pin_session_frame calls s Hcalls) as [Hk Ht].
  split; [|split; [|split; [|split]]].
  - apply remove_pin_cases.
  - exact Hk.
  - exact Ht.
  - intro r. unfold Vault.decrypt_account. rewrite Hk. reflexivity.
  - intros [u|e] m; reflexivity.
Qed.

Lemma remove_pin_touches_only_verifier_witness :
  let s := snd (Vault.set_pin "1234" Sample.vault) in
  let calls := [Vault.call_remove_pin "1234"; Vault.call_set_pin "9999"] in
  Vault.remove_pin "1234" s
  = (if fst (Vault.verify_pin "1234" s)
     then (Vault.Ok tt,
           Vault.MkState None (Vault.master_key s) (Vault.table s)
                         Vault.Unlocked (Vault.rng s))
     else (Vault.Err Vault.AuthenticationError, s))
  /\ Vault.master_key (Vault.session s calls) = Vault.master_key s
  /\ Vault.table (Vault.session s calls) = Vault.table s
  /\ (forall r, Vault.decrypt_account (Vault.session s calls) r = Vault.decrypt_account s r)
  /\ (forall r m,
         PinSettingsModal.hasPin (PinSettingsModal.handleRemove r m)
         = match r with
           | Js.Resolved _ => false
           | Js.Rejected _ => PinSettingsModal.hasPin m
           end).
Proof.
  apply (remove_pin_touches_only_verifier "1234"
           (snd (Vault.set_pin "1234" Sample.vault))
           [Vault.call_remove_pin "1234"; Vault.call_set_pin "9999"]).
  reflexivity.
Defined.

(** ** Adding an account *)






(** *** The secret, character by character *)











(** A row that [add_account] stored is decrypted to its secret, and still is
    after any session of PIN calls. *)
Lemma added_account_stays_decryptable
      (now : Z) (i a secret : string) (s : Vault.State) (calls : list Vault.Call) :
  fst (Vault.add_account now i a secret s) = Vault.Ok tt ->
  forallb Vault.is_pin_call calls = true ->
  let s' := Vault.session (snd (Vault.add_account now i a secret s)) calls in
  exists r, In r (Vault.get_accounts s')
            /\ Vault.key_of r = (i, a)
            /\ Vault.decrypt_account s' r
               = Vault.Ok (Bytes.of_string (Vault.normalize_secret secret)).
Proof.
  intros Hok Hcalls s'.
  destruct (pin_session_frame calls (snd (Vault.add_account now i a secret s)) Hcalls)
    as [Hk Ht].
  fold s' in Hk, Ht. unfold Vault.get_accounts, Vault.decrypt_account.
  rewrite Hk, Ht. clear Hk Ht s' Hcalls calls.
  rewrite add_account_cases in *. cbv zeta in *.
  destruct (negb (Vault.valid_base32 (Vault.normalize_secret secret)));
    [discriminate Hok|].
  destruct (existsb (Vault.same_key i a) (Vault.rows (Vault.table s)));
    [discriminate Hok|].
  cbn [snd Vault.table Vault.with_table Vault.with_rng Vault.rows Vault.master_key].
  eexists. split; [apply in_or_app; right; left; reflexivity|].
  split; [reflexivity|].
  cbn [Vault.encrypted_secret Vault.secret_nonce]. apply decrypt_encrypt.
Qed.

(** ** The account cards *)

Lemma tick_sets_remaining (dateNow : Z) (s : AccountCard.State) :
  0 <= dateNow ->
  AccountCard.remainingSeconds (fst (AccountCard.tick dateNow s))
  = 30 - AccountCard.seconds dateNow mod 30.
Proof.
  intro Hnow. set (now := AccountCard.seconds dateNow).
  assert (Hn : 0 <= now) by (apply Z.div_pos; lia).
  assert (Hrem : AccountCard.remaining now = 30 - now mod 30).
  { unfold AccountCard.remaining. rewrite Z.rem_mod_nonneg by lia. reflexivity. }
  unfold AccountCard.tick. fold now.
  destruct (negb (AccountCard.timeStep now =? AccountCard.lastTimeStep s));
    [destruct (negb (AccountCard.lastTimeStep s =? -1))|]; simpl; exact Hrem.
Qed.

Lemma tick_sets_lastTimeStep (dateNow : Z) (s : AccountCard.State) :
  AccountCard.lastTimeStep (fst (AccountCard.tick dateNow s))
  = AccountCard.timeStep (AccountCard.seconds dateNow).
Proof.
  unfold AccountCard.tick.
  destruct (AccountCard.timeStep (AccountCard.seconds dateNow)
            =? AccountCard.lastTimeStep s) eqn:E; simpl.
  - apply Z.eqb_eq in E. symmetry. exact E.
  - destruct (negb (AccountCard.lastTimeStep s =? -1)); reflexivity.
Qed.

(** C5. At a clock reading that is not before the epoch, [tick] takes the
    second [floor(Date.now() / 1000)], keeps [floor(now / 30)] as the time
    step and sets the remaining seconds to [30 - (now mod 30)], a value
    between 0 and 30. *)
Theorem tick_time_step_and_remaining (dateNow : Z) (s : AccountCard.State) :
  0 <= dateNow ->
  let now := AccountCard.seconds dateNow in
  let s' := fst (AccountCard.tick dateNow s) in
  1000 * now <= dateNow < 1000 * now + 1000
  /\ 30 * AccountCard.timeStep now <= now < 30 * AccountCard.timeStep now + 30
  /\ AccountCard.lastTimeStep s' = AccountCard.timeStep now
  /\ AccountCard.remainingSeconds s' = 30 - now mod 30
  /\ 0 <= AccountCard.remainingSeconds s' <= 30.
Proof.
  intros Hnow now s'.
  split; [|split; [|split; [|split]]].
  - unfold now, AccountCard.seconds.
    pose proof (Z.div_mod dateNow 1000 ltac:(lia)).
    pose proof (Z.mod_pos_bound dateNow 1000 ltac:(lia)). lia.
  - unfold AccountCard.timeStep.
    pose proof (Z.div_mod now 30 ltac:(lia)).
    pose proof (Z.mod_pos_bound now 30 ltac:(lia)). lia.
  - apply tick_sets_lastTimeStep.
  - apply tick_sets_remaining. exact Hnow.
  - unfold s'. rewrite tick_sets_remaining by exact Hnow. fold now.
    pose proof (Z.mod_pos_bound now 30 ltac:(lia)). lia.
Qed.

Lemma tick_time_step_and_remaining_witness :
  let dateNow := 1700000000123 in
  let s := AccountCard.create Sample.account in
  let now := AccountCard.seconds dateNow in
  let s' := fst (AccountCard.tick dateNow s) in
  1000 * now <= dateNow < 1000 * now + 1000
  /\ 30 * AccountCard.timeStep now <= now < 30 * AccountCard.timeStep now + 30
  /\ AccountCard.lastTimeStep s' = AccountCard.timeStep now
  /\ AccountCard.remainingSeconds s' = 30 - now mod 30
  /\ 0 <= AccountCard.remainingSeconds s' <= 30.
Proof.
  apply (tick_time_step_and_remaining 1700000000123 (AccountCard.create Sample.account)).
  lia.
Defined.

(** The remaining seconds are never 0 at such a reading: they run from 30
    down to 1. *)
Lemma tick_remaining_positive (dateNow : Z) (s : AccountCard.State) :
  0 <= dateNow -> 1 <= AccountCard.remainingSeconds (fst (AccountCard.tick dateNow s)) <= 30.
Proof.
  intro H. rewrite tick_sets_remaining by exact H.
  pose proof (Z.mod_pos_bound (AccountCard.seconds dateNow) 30 ltac:(lia)). lia.
Qed.

(** Before the epoch the remainder of JavaScript is negative and the
    remaining seconds exceed 30. *)
Example tick_before_epoch :
  AccountCard.remainingSeconds
    (fst (AccountCard.tick (-1000) (AccountCard.create Sample.account))) = 31.
Proof. reflexivity. Qed.

(** The card that follows the clock sends a request at the first tick and
    at every tick whose step differs from the step of the tick before, and
    at no other event. *)
Lemma run_once_per_step (es : list AccountCard.Event) :
  forall s, AccountCard.run s es = AccountCard.once_per_step (AccountCard.lastTimeStep s) es.
Proof.
  induction es as [|e es IH]; intro s; simpl; [reflexivity|].
  destruct e as [dateNow|r|]; simpl.
  - unfold AccountCard.tick.
    destruct (AccountCard.timeStep (AccountCard.seconds dateNow)
              =? AccountCard.lastTimeStep s) eqn:E; simpl.
    + rewrite IH. simpl. apply Z.eqb_eq in E. rewrite E. reflexivity.
    + destruct (negb (AccountCard.lastTimeStep s =? -1)); simpl; rewrite IH; reflexivity.
  - rewrite IH. reflexivity.
  - rewrite IH. unfold AccountCard.frame.
    destruct (AccountCard.frames s); reflexivity.
Qed.

Lemma seconds_of_whole (t : Z) : AccountCard.seconds (1000 * t) = t.
Proof. unfold AccountCard.seconds. rewrite Z.mul_comm. apply Z.div_mul. lia. Qed.

Lemma second_ticks_succ (t0 : Z) (n : nat) :
  AccountCard.second_ticks t0 (S n)
  = AccountCard.Tick (1000 * (t0 + 1)) :: AccountCard.second_ticks (t0 + 1) n.
Proof.
  unfold AccountCard.second_ticks. cbn [map seq]. f_equal.
  rewrite <- (seq_shift n 1), map_map. apply map_ext. intro k.
  apply (f_equal AccountCard.Tick). lia.
Qed.

(** Ticking once a second, the clock card sends as many requests as
    30-second boundaries are crossed: one for each. *)
Lemma second_ticks_once_per_boundary (n : nat) :
  forall t0 s, AccountCard.lastTimeStep s = AccountCard.timeStep t0 ->
    Z.of_nat (list_sum (AccountCard.run s (AccountCard.second_ticks t0 n)))
    = AccountCard.timeStep (t0 + Z.of_nat n) - AccountCard.timeStep t0.
Proof.
  induction n as [|n IH]; intros t0 s Hlast.
  - simpl. rewrite Z.add_0_r. lia.
  - rewrite second_ticks_succ. cbn [AccountCard.run AccountCard.step].
    pose proof (tick_sets_lastTimeStep (1000 * (t0 + 1)) s) as Hstep.
    rewrite seconds_of_whole in Hstep.
    assert (Hreq : Z.of_nat (length (snd (AccountCard.tick (1000 * (t0 + 1)) s)))
                   = AccountCard.timeStep (t0 + 1) - AccountCard.timeStep t0).
    { unfold AccountCard.tick. rewrite seconds_of_whole, Hlast.
      unfold AccountCard.timeStep in *.
      destruct ((t0 + 1) / 30 =? t0 / 30) eqn:E; simpl.
      - apply Z.eqb_eq in E. lia.
      - apply Z.eqb_neq in E.
        destruct (negb (t0 / 30 =? -1)); simpl;
          pose proof (Z.div_mod t0 30 ltac:(lia));
          pose proof (Z.mod_pos_bound t0 30 ltac:(lia));
          pose proof (Z.div_mod (t0 + 1) 30 ltac:(lia));
          pose proof (Z.mod_pos_bound (t0 + 1) 30 ltac:(lia)); lia. }
    destruct (AccountCard.tick (1000 * (t0 + 1)) s) as [s1 reqs].
    cbn [fst snd] in Hstep, Hreq.
    change (list_sum (length reqs :: ?l)) with (length reqs + list_sum l)%nat.
    rewrite Nat2Z.inj_add, Hreq, (IH (t0 + 1) s1 Hstep).
    replace (t0 + 1 + Z.of_nat n) with (t0 + Z.of_nat (S n)) by lia. lia.
Qed.

(** Once the countdown of the other card is at or below zero and the
    command keeps failing, every later tick sends a request. *)
Lemma countdown_requests_every_tick (es : list CountdownCard.Event) :
  forall s, CountdownCard.remainingSeconds s <= 0 ->
    forallb CountdownCard.is_tick_or_failure es = true ->
    CountdownCard.run s es = map CountdownCard.requests_every_tick es.
Proof.
  induction es as [|e es IH]; intros s Hrem Hes; [reflexivity|].
  simpl in Hes. apply andb_true_iff in Hes as [He Hes].
  destruct e as [| |[resp|err]]; try discriminate He; simpl.
  - unfold CountdownCard.interval. simpl.
    replace (CountdownCard.remainingSeconds s - 1 <=? 0) with true
      by (symmetry; apply Z.leb_le; lia).
    simpl. f_equal. apply IH; [simpl; lia | exact Hes].
  - f_equal. apply IH; [exact Hrem | exact Hes].
Qed.

(** C6, on the card that counts down: the command fails on mount, the
    countdown from 30 reaches zero at the 30th tick, and from then on every
    tick, one second apart, sends a request. *)
Theorem countdown_card_requests_every_second_after_failure :
  let failed := CountdownCard.Settled (Js.Rejected (Js.ThrownString "decryption failed")) in
  CountdownCard.run (CountdownCard.create Sample.account)
    ([CountdownCard.Mount; failed] ++ repeat CountdownCard.Interval 30
       ++ [failed; CountdownCard.Interval; failed; CountdownCard.Interval;
           failed; CountdownCard.Interval])
  = [1; 0]%nat ++ repeat O 29 ++ [1; 0; 1; 0; 1; 0; 1]%nat.
Proof. vm_compute. reflexivity. Qed.

Lemma card_step_blind (s : AccountCard.State) (e : AccountCard.Event) :
  AccountCard.step s (AccountCard.blind e) = AccountCard.step s e.
Proof. destruct e as [d|[resp|err]|]; reflexivity. Qed.

Lemma card_exec_blind (es : list AccountCard.Event) :
  forall s, AccountCard.exec s (map AccountCard.blind es) = AccountCard.exec s es.
Proof.
  induction es as [|e es IH]; intro s; simpl; [reflexivity|].
  rewrite card_step_blind. apply IH.
Qed.

Lemma countdown_step_blind (s : CountdownCard.State) (e : CountdownCard.Event) :
  CountdownCard.step s (CountdownCard.blind e) = CountdownCard.step s e.
Proof. destruct e as [| |[resp|err]]; reflexivity. Qed.

Lemma countdown_exec_blind (es : list CountdownCard.Event) :
  forall s, CountdownCard.exec s (map CountdownCard.blind es) = CountdownCard.exec s es.
Proof.
  induction es as [|e es IH]; intro s; simpl; [reflexivity|].
  rewrite countdown_step_blind. apply IH.
Qed.

(** C7. When [get_current_otp] is rejected, whatever the rejection carries,
    either card shows the fixed text "오류" and changes nothing else, and a
    click on the code copies nothing; over any history of events the state
    of a card is the one it has when every rejection is blanked out, so
    nothing a rejection carries reaches the card. *)
Theorem fetch_failure_shows_error_code
        (e : Js.thrown) (s1 : AccountCard.State) (s2 : CountdownCard.State)
        (es1 : list AccountCard.Event) (es2 : list CountdownCard.Event) :
  AccountCard.fetchOtp_settled (Js.Rejected e) s1
  = AccountCard.MkState (AccountCard.account s1) "오류"
      (AccountCard.remainingSeconds s1) (AccountCard.progressPercentage s1)
      (AccountCard.lastTimeStep s1) (AccountCard.noTransition s1) (AccountCard.frames s1)
  /\ CountdownCard.fetchOtp_settled (Js.Rejected e) s2
     = CountdownCard.MkState (CountdownCard.account s2) "오류"
         (CountdownCard.remainingSeconds s2)
  /\ AccountCard.copyToClipboard (AccountCard.fetchOtp_settled (Js.Rejected e) s1) = None
  /\ CountdownCard.copyToClipboard (CountdownCard.fetchOtp_settled (Js.Rejected e) s2) = None
  /\ AccountCard.exec s1 es1 = AccountCard.exec s1 (map AccountCard.blind es1)
  /\ CountdownCard.exec s2 es2 = CountdownCard.exec s2 (map CountdownCard.blind es2).
Proof.
  split; [reflexivity|]. split; [reflexivity|].
  split; [reflexivity|]. split; [reflexivity|].
  split; symmetry; [apply card_exec_blind | apply countdown_exec_blind].
Qed.

(** ** Start-up *)

Lemma initializePinState_pinState (r : Js.response bool) (s : Page.State) :
  Page.pinState (Page.initializePinState r s)
  = match r with
    | Js.Resolved true => Page.locked
    | _ => Page.needs_setup
    end.
Proof. destruct r as [[|]|e]; simpl; apply pinState_set_pinState. Qed.

(** C10. When [has_pin] is rejected the page goes to [needs_setup]; it goes
    to [locked] on the answer true and on no other; and from the rejection a
    new PIN typed twice opens the page, [verify_pin] never being invoked. *)
Theorem has_pin_failure_skips_lock_screen
        (e : Js.thrown) (r : Js.response bool) (s : Page.State) :
  Page.pinState (Page.initializePinState (Js.Rejected e) s) = Page.needs_setup
  /\ (Page.pinState (Page.initializePinState r s) = Page.locked <-> r = Js.Resolved true)
  /\ (let typed := map (fun k => Page.Pad (PinPad.Keydown k)) ["1"; "2"; "3"; "4"]
                       ++ [Page.Pad PinPad.SubmitTimeout] in
      let events := [Page.Mount; Page.Settled (Page.has_pin_reply (Js.Rejected e))]
                      ++ typed ++ typed
                      ++ [Page.Settled (Page.set_pin_reply (Js.Resolved tt))] in
      Page.pinState (fst (Page.run Page.initial events)) = Page.unlocked
      /\ snd (Page.run Page.initial events)
         = [Page.has_pin; Page.set_pin "1234"; Page.get_accounts]).
Proof.
  split; [|split].
  - apply initializePinState_pinState.
  - rewrite initializePinState_pinState. destruct r as [[|]|e']; split; intro H;
      try reflexivity; discriminate H.
  - split; reflexivity.
Qed.

(** ** Published test vectors of the primitives *)

Example sha256_abc :
  Bytes.of_be (Sha256.digest (Bytes.of_string "abc"))
  = 0xba7816bf8f01cfea414140de5dae2223b00361a396177a9cb410ff61f20015ad.
Proof. vm_compute. reflexivity. Qed.

Example sha256_two_blocks :
  Bytes.of_be (Sha256.digest
    (Bytes.of_string "abcdbcdecdefdefgefghfghighijhijkijkljklmklmnlmnomnopnopq"))
  = 0x248d6a61d20638b8e5c026930c3e6039a33ce45964ff2167f6ecedd419db06c1.
Proof. vm_compute. reflexivity. Qed.

Example hmac_sha256_rfc4231_case2 :
  Bytes.of_be (Hmac.hmac_sha256 (Bytes.of_string "Jefe")
                                (Bytes.of_string "what do ya want for nothing?"))
  = 0x5bdcc146bf60754e6a042426089575c75a003f089d2739839dec58b964ec3843.
Proof. vm_compute. reflexivity. Qed.

Example pbkdf2_hmac_sha256_one_iteration :
  Bytes.of_be (Pbkdf2.hmac_sha256 (Bytes.of_string "password") (Bytes.of_string "salt") 1)
  = 0x120fb6cffcf8b32c43e7225256c4f837a86548c92ccc35480805987cb70be17b.
Proof. vm_compute. reflexivity. Qed.

Example pbkdf2_hmac_sha256_two_iterations :
  Bytes.of_be (Pbkdf2.hmac_sha256 (Bytes.of_string "password") (Bytes.of_string "salt") 2)
  = 0xae4d0c95af6b46d32d0adff928f06dd02a303f8ef3c251dfd6e2d85a95474c43.
Proof. vm_compute. reflexivity. Qed.

Example chacha20_block_rfc8439 :
  Bytes.of_be (ChaCha20.block (map Z.of_nat (seq 0 32)) 1
                              (Bytes.be_bytes 12 0x000000090000004a00000000))
  = 0x10f1e7e4d13b5915500fdd1fa32071c4c7d1f4c733c068030422aa9ac3d46c4ed2826446079faa0914c2d705d98b02a2b5129cd1de164eb9cbd083e8a2503c4e.
Proof. vm_compute. reflexivity. Qed.

Example poly1305_rfc8439 :
  Bytes.of_be (Poly1305.mac
    (Bytes.be_bytes 32 0x85d6be7857556d337f4452fe42d506a80103808afb0db2fd4abff6af4149f51b)
    (Bytes.of_string "Cryptographic Forum Research Group"))
  = 0xa8061dc1305136c6c22b8baf0c0127a9.
Proof. vm_compute. reflexivity. Qed.

Example aead_seal_rfc8439 :
  let sealed :=
    Aead.seal (map Z.of_nat (seq 128 32))
              (Bytes.be_bytes 12 0x070000004041424344454647)
              (Bytes.be_bytes 12 0x50515253c0c1c2c3c4c5c6c7)
              (Bytes.of_string "Ladies and Gentlemen of the class of '99: If I could offer you only one tip for the future, sunscreen would be it.") in
  Bytes.of_be (firstn 16 sealed) = 0xd31a8d34648e60db7b86afbc53ef7ec2
  /\ Bytes.of_be (skipn 114 sealed) = 0x1ae10b594f09e26a7e902ecbd0600691.
Proof. vm_compute. split; reflexivity. Qed.

(** A changed tag is refused. *)
Example aead_open_tampered :
  let key := map Z.of_nat (seq 128 32) in
  let nonce := Bytes.be_bytes 12 0x070000004041424344454647 in
  let sealed := Aead.seal key nonce [] (Bytes.of_string "JBSWY3DPEHPK3PXP") in
  Aead.open key nonce [] (removelast sealed ++ [Z.lxor (last sealed 0) 1]) = None.
Proof. vm_compute. reflexivity. Qed.

(** * Further properties of the front end *)

(** ** The selection overlay *)

Lemma last_of_nonempty {A} (l : list A) (a d d' : A) : last (a :: l) d = last (a :: l) d'.
Proof.
  revert a. induction l as [|b l IH]; intro a; [reflexivity|].
  change (last (b :: l) d = last (b :: l) d'). apply IH.
Qed.

Lemma moves_while_drawing (moves : list (Z * Z)) :
  forall x0 y0 cx cy,
    fold_left (fun st p => Capture.handleMouseMove (fst p) (snd p) st) moves
              (Capture.MkState true x0 y0 cx cy)
    = Capture.MkState true x0 y0 (fst (last moves (cx, cy))) (snd (last moves (cx, cy))).
Proof.
  induction moves as [|[mx my] moves IH]; intros x0 y0 cx cy; [reflexivity|].
  cbn [fold_left]. unfold Capture.handleMouseMove at 2.
  cbn [Capture.isDrawing negb fst snd Capture.startX Capture.startY]. rewrite IH.
  destruct moves as [|m moves]; [reflexivity|].
  rewrite (last_of_nonempty moves m (mx, my) (cx, cy)). reflexivity.
Qed.

Lemma drag_outcome (scale : Z -> Z) (x0 y0 : Z) (moves : list (Z * Z)) (s : Capture.State) :
  let x1 := fst (last moves (x0, y0)) in
  let y1 := snd (last moves (x0, y0)) in
  Capture.drag scale x0 y0 moves s
  = (Capture.MkState false x0 y0 x1 y1,
     if (Z.abs (x1 - x0) <? 30) || (Z.abs (y1 - y0) <? 30) then None
     else Some (Capture.MkRect (scale (Z.min x0 x1)) (scale (Z.min y0 y1))
                               (scale (Z.abs (x1 - x0))) (scale (Z.abs (y1 - y0))))).
Proof.
  intros x1 y1. unfold Capture.drag, Capture.handleMouseDown.
  rewrite moves_while_drawing. fold x1 y1. unfold Capture.handleMouseUp.
  cbn [Capture.isDrawing negb]. unfold Capture.selectionWidth, Capture.selectionHeight,
    Capture.selectionLeft, Capture.selectionTop.
  cbn [Capture.startX Capture.startY Capture.currentX Capture.currentY].
  destruct ((Z.abs (x1 - x0) <? 30) || (Z.abs (y1 - y0) <? 30)); reflexivity.
Qed.

(** X1. A drag is decided by the point where the button went down and the
    last point the pointer reached: the overlay stops drawing, and dispatches
    a capture exactly when the two points are at least 30 pixels apart both
    ways, the rectangle being the scaled bounding box of the two points.
    What the overlay held before and the points passed in between do not
    count. *)
Theorem drag_decided_by_end_points
        (scale : Z -> Z) (x0 y0 : Z) (moves : list (Z * Z)) (s : Capture.State) :
  let x1 := fst (last moves (x0, y0)) in
  let y1 := snd (last moves (x0, y0)) in
  Capture.drag scale x0 y0 moves s
  = (Capture.MkState false x0 y0 x1 y1,
     if (Z.abs (x1 - x0) <? 30) || (Z.abs (y1 - y0) <? 30) then None
     else Some (Capture.MkRect (scale (Z.min x0 x1)) (scale (Z.min y0 y1))
                               (scale (Z.abs (x1 - x0))) (scale (Z.abs (y1 - y0))))).
Proof. apply drag_outcome. Qed.

(** X2. At a device pixel ratio of 1, a dispatched rectangle is at least 30
    by 30, its corner is the smaller coordinate of the two points and its
    far corner the larger one; and dragging from the second point to the
    first dispatches the same rectangle. *)
Theorem captured_rectangle_is_bounding_box
        (x0 y0 x1 y1 : Z) (s s' : Capture.State) (r : Capture.Rect) :
  snd (Capture.drag (fun v => v) x0 y0 [(x1, y1)] s) = Some r ->
  Capture.x r = Z.min x0 x1 /\ Capture.y r = Z.min y0 y1
  /\ Capture.x r + Capture.w r = Z.max x0 x1
  /\ Capture.y r + Capture.h r = Z.max y0 y1
  /\ 30 <= Capture.w r /\ 30 <= Capture.h r
  /\ snd (Capture.drag (fun v => v) x1 y1 [(x0, y0)] s') = Some r.
Proof.
  rewrite !drag_outcome. cbn [last fst snd].
  destruct ((Z.abs (x1 - x0) <? 30) || (Z.abs (y1 - y0) <? 30)) eqn:E;
    [discriminate|].
  apply orb_false_iff in E as [Ew Eh]. apply Z.ltb_ge in Ew, Eh.
  intro H. injection H as <-. cbn [Capture.x Capture.y Capture.w Capture.h].
  replace (Z.abs (x0 - x1)) with (Z.abs (x1 - x0)) by lia.
  replace (Z.abs (y0 - y1)) with (Z.abs (y1 - y0)) by lia.
  replace ((Z.abs (x1 - x0) <? 30) || (Z.abs (y1 - y0) <? 30)) with false
    by (symmetry; apply orb_false_iff; split; apply Z.ltb_ge; assumption).
  rewrite (Z.min_comm x1 x0), (Z.min_comm y1 y0).
  repeat split; try lia.
Qed.

Lemma captured_rectangle_is_bounding_box_witness :
  let r := Capture.MkRect 40 50 160 50 in
  Capture.x r = Z.min 200 40 /\ Capture.y r = Z.min 100 50
  /\ Capture.x r + Capture.w r = Z.max 200 40
  /\ Capture.y r + Capture.h r = Z.max 100 50
  /\ 30 <= Capture.w r /\ 30 <= Capture.h r
  /\ snd (Capture.drag (fun v => v) 40 50 [(200, 100)] Capture.initial) = Some r.
Proof.
  apply (captured_rectangle_is_bounding_box 200 100 40 50 Capture.initial Capture.initial).
  reflexivity.
Defined.

(** ** The toast list *)

Lemma Timer_eqb_eq (a b : Toast.Timer) : Toast.Timer_eqb a b = true <-> a = b.
Proof.
  destruct a as [m|m], b as [n|n]; simpl; rewrite ?Z.eqb_eq; split; intro H;
    try discriminate H; try (injection H as ->); try subst; reflexivity.
Qed.

Lemma pending_iff (t : Toast.Timer) (l : list Toast.Timer) :
  existsb (Toast.Timer_eqb t) l = true <-> In t l.
Proof.
  rewrite existsb_exists. split.
  - intros [u [Hin Heq]]. apply Timer_eqb_eq in Heq. subst. exact Hin.
  - intro Hin. exists t. split; [exact Hin | apply Timer_eqb_eq; reflexivity].
Qed.

Lemma cancel_subset (t u : Toast.Timer) (l : list Toast.Timer) :
  In u (Toast.cancel t l) -> In u l.
Proof.
  induction l as [|v l IH]; simpl; [tauto|].
  destruct (Toast.Timer_eqb t v); simpl; [tauto|]. intros [H|H]; [left; exact H|].
  right. apply IH. exact H.
Qed.

Lemma cancel_keeps_others (t u : Toast.Timer) (l : list Toast.Timer) :
  In u l -> u <> t -> In u (Toast.cancel t l).
Proof.
  induction l as [|v l IH]; simpl; [tauto|]. intros [H|H] Hne.
  - subst v. destruct (Toast.Timer_eqb t u) eqn:E.
    + apply Timer_eqb_eq in E. congruence.
    + left. reflexivity.
  - destruct (Toast.Timer_eqb t v); [exact H|]. right. apply IH; assumption.
Qed.

Lemma cancel_keeps_distinct (t : Toast.Timer) (l : list Toast.Timer) :
  NoDup (map Toast.timer_id l) -> NoDup (map Toast.timer_id (Toast.cancel t l)).
Proof.
  induction l as [|v l IH]; simpl; intro H; [constructor|].
  apply NoDup_cons_iff in H as [Hv Hl].
  destruct (Toast.Timer_eqb t v); [exact Hl|]. simpl. constructor; [|apply IH; exact Hl].
  intro Hin. apply Hv. apply in_map_iff in Hin as [u [Hu Hin]].
  apply in_map_iff. exists u. split; [exact Hu | eapply cancel_subset; exact Hin].
Qed.

Lemma cancel_frees_id (t : Toast.Timer) (l : list Toast.Timer) :
  NoDup (map Toast.timer_id l) -> In t l ->
  ~ In (Toast.timer_id t) (map Toast.timer_id (Toast.cancel t l)).
Proof.
  induction l as [|v l IH]; simpl; intros Hnd Hin; [contradiction|].
  apply NoDup_cons_iff in Hnd as [Hv Hl].
  destruct (Toast.Timer_eqb t v) eqn:E.
  - apply Timer_eqb_eq in E. subst v. exact Hv.
  - destruct Hin as [Heq|Hin]; [subst v; rewrite (proj2 (Timer_eqb_eq t t) eq_refl) in E;
                                 discriminate|].
    simpl. intros [Heq|Hin'].
    + apply Hv. rewrite Heq. apply in_map. exact Hin.
    + exact (IH Hl Hin Hin').
Qed.

Lemma fade_keeps_ids (n : Z) (l : list Toast.ToastItem) :
  map Toast.id
      (map (fun i => if Toast.id i =? n
                     then Toast.MkToast (Toast.id i) (Toast.message i) (Toast.type i) false
                     else i) l)
  = map Toast.id l.
Proof.
  rewrite map_map. apply map_ext. intro i. destruct (Toast.id i =? n); reflexivity.
Qed.

Lemma awaited_id (i : Toast.ToastItem) : Toast.timer_id (Toast.awaited i) = Toast.id i.
Proof. unfold Toast.awaited. destruct (Toast.visible i); reflexivity. Qed.

Lemma step_well_formed (s : Toast.State) (e : Toast.Event) :
  Toast.well_formed s -> Toast.well_formed (Toast.step s e).
Proof.
  intros [Hids [Htim [Hlt [Htlt Haw]]]].
  rewrite Forall_forall in Hlt, Htlt, Haw.
  destruct e as [msg ty|t|]; simpl.
  - unfold Toast.well_formed, Toast.show. simpl. rewrite !map_app. simpl.
    split; [|split; [|split; [|split]]].
    + apply NoDup_app; [exact Hids | repeat constructor; intros [] |].
      intros k Hin [<-|[]]. apply in_map_iff in Hin as [i [Hi Hin]].
      specialize (Hlt i Hin). lia.
    + apply NoDup_app; [exact Htim | repeat constructor; intros [] |].
      intros k Hin [<-|[]]. apply in_map_iff in Hin as [t [Ht Hin]].
      specialize (Htlt t Hin). lia.
    + apply Forall_app. split; [|repeat constructor; simpl; lia].
      apply Forall_forall. intros i Hin. specialize (Hlt i Hin). lia.
    + apply Forall_app. split; [|repeat constructor; simpl; lia].
      apply Forall_forall. intros t Hin. specialize (Htlt t Hin). lia.
    + apply Forall_app. split.
      * apply Forall_forall. intros i Hin. apply in_or_app. left. apply Haw. exact Hin.
      * repeat constructor. apply in_or_app. right. left. reflexivity.
  - destruct (existsb (Toast.Timer_eqb t) (Toast.timers s)) eqn:Ep;
      [|repeat split; try assumption; apply Forall_forall; assumption].
    apply pending_iff in Ep.
    pose proof (cancel_frees_id t (Toast.timers s) Htim Ep) as Hfree.
    pose proof (cancel_keeps_distinct t (Toast.timers s) Htim) as Hdist.
    destruct t as [n|n]; unfold Toast.well_formed, Toast.callback; simpl in *.
    + rewrite fade_keeps_ids, map_app. simpl.
      split; [exact Hids|]. split; [|split; [|split]].
      * apply NoDup_app; [exact Hdist | repeat constructor; intros [] |].
        intros k Hin [<-|[]]. exact (Hfree Hin).
      * apply Forall_forall. intros i Hin. apply in_map_iff in Hin as [j [<- Hj]].
        specialize (Hlt j Hj). destruct (Toast.id j =? n); simpl; exact Hlt.
      * apply Forall_app. split.
        -- apply Forall_forall. intros u Hin. apply Htlt. eapply cancel_subset. exact Hin.
        -- repeat constructor. simpl. exact (Htlt _ Ep).
      * apply Forall_forall. intros i Hin. apply in_map_iff in Hin as [j [<- Hj]].
        apply in_or_app. destruct (Toast.id j =? n) eqn:E.
        -- right. left. apply Z.eqb_eq in E. unfold Toast.awaited. simpl. congruence.
        -- left. apply cancel_keeps_others; [apply Haw; exact Hj|].
           intro Heq. apply Z.eqb_neq in E. apply E.
           rewrite <- awaited_id, Heq. reflexivity.
    + split; [|split; [|split; [|split]]].
      * clear -Hids. induction (Toast.toasts s) as [|i l IH]; simpl; [constructor|].
        simpl in Hids. apply NoDup_cons_iff in Hids as [Hi Hl].
        destruct (negb (Toast.id i =? n)); simpl; [|exact (IH Hl)].
        constructor; [|exact (IH Hl)]. intro Hin. apply Hi.
        apply in_map_iff in Hin as [j [Hj Hin]]. apply filter_In in Hin as [Hin _].
        apply in_map_iff. exists j. split; assumption.
      * exact Hdist.
      * apply Forall_forall. intros i Hin. apply filter_In in Hin as [Hin _].
        apply Hlt. exact Hin.
      * apply Forall_forall. intros u Hin. apply Htlt. eapply cancel_subset. exact Hin.
      * apply Forall_forall. intros i Hin. apply filter_In in Hin as [Hin Hne].
        apply negb_true_iff, Z.eqb_neq in Hne.
        apply cancel_keeps_others; [apply Haw; exact Hin|].
        intro Heq. apply Hne. rewrite <- awaited_id, Heq. reflexivity.
  - unfold Toast.well_formed, Toast.onDestroy. simpl.
    repeat split; try constructor; try assumption. apply Forall_forall. assumption.
Qed.

Lemma initial_well_formed : Toast.well_formed Toast.initial.
Proof. repeat split; constructor. Qed.

Lemma run_well_formed (es : list Toast.Event) :
  forall s, Toast.well_formed s -> Toast.well_formed (Toast.run s es).
Proof.
  unfold Toast.run. induction es as [|e es IH]; intros s H; simpl; [exact H|].
  apply IH. apply step_well_formed. exact H.
Qed.

(** X3. Whatever is shown and whichever timers fire, and also after the
    component is destroyed, the toasts on display have distinct ids (the
    keys of the list), and each of them has its next timer pending: the
    fade-out while it is visible, the removal once it fades.  No toast stays
    without a timer that takes it away. *)
Theorem toasts_stay_well_formed (es : list Toast.Event) :
  Toast.well_formed (Toast.run Toast.initial es).
Proof. apply run_well_formed. apply initial_well_formed. Qed.

Lemma step_keeps_gone (n : Z) (s : Toast.State) (e : Toast.Event) :
  n < Toast.nextId s ->
  ~ In n (map Toast.id (Toast.toasts s)) ->
  ~ In n (map Toast.timer_id (Toast.timers s)) ->
  n < Toast.nextId (Toast.step s e)
  /\ ~ In n (map Toast.id (Toast.toasts (Toast.step s e)))
  /\ ~ In n (map Toast.timer_id (Toast.timers (Toast.step s e))).
Proof.
  intros Hlt Hno Hnt. destruct e as [msg ty|t|]; simpl.
  - unfold Toast.show. simpl. rewrite !map_app. simpl. repeat split; [lia| |].
    + intro Hin. apply in_app_or in Hin as [Hin|[Heq|[]]]; [exact (Hno Hin) | lia].
    + intro Hin. apply in_app_or in Hin as [Hin|[Heq|[]]]; [exact (Hnt Hin) | lia].
  - destruct (existsb (Toast.Timer_eqb t) (Toast.timers s)) eqn:Ep;
      [|repeat split; assumption].
    apply pending_iff in Ep.
    assert (Hcancel : ~ In n (map Toast.timer_id (Toast.cancel t (Toast.timers s)))).
    { intro Hin. apply Hnt. apply in_map_iff in Hin as [u [Hu Hin]].
      apply in_map_iff. exists u. split; [exact Hu | eapply cancel_subset; exact Hin]. }
    destruct t as [m|m]; unfold Toast.callback; simpl.
    + rewrite fade_keeps_ids, map_app. simpl. repeat split; [exact Hlt | exact Hno |].
      intro Hin. apply in_app_or in Hin as [Hin|[Heq|[]]]; [exact (Hcancel Hin)|].
      apply Hnt. subst m. change n with (Toast.timer_id (Toast.FadeOut n)).
      apply in_map. exact Ep.
    + repeat split; [exact Hlt | | exact Hcancel].
      intro Hin. apply Hno. apply in_map_iff in Hin as [i [Hi Hin]].
      apply filter_In in Hin as [Hin _]. apply in_map_iff. exists i. split; assumption.
  - unfold Toast.onDestroy. simpl. repeat split; [exact Hlt | intros [] | exact Hnt].
Qed.

(** X4. When the removal timer of a toast fires, that toast leaves the list
    and every other toast stays as it is; and the toast never returns,
    whatever is shown and whichever timers fire afterwards, because its id
    is not given out again. *)
Theorem removed_toast_never_returns
        (s : Toast.State) (n : Z) (es : list Toast.Event) :
  Toast.well_formed s ->
  In (Toast.Removal n) (Toast.timers s) ->
  let s' := Toast.step s (Toast.Fire (Toast.Removal n)) in
  Toast.toasts s' = filter (fun i => negb (Toast.id i =? n)) (Toast.toasts s)
  /\ ~ In n (map Toast.id (Toast.toasts (Toast.run s' es))).
Proof.
  intros Hwf Hin s'.
  assert (Hs' : s' = Toast.callback (Toast.Removal n)
                       (Toast.MkState (Toast.toasts s) (Toast.nextId s)
                                      (Toast.cancel (Toast.Removal n) (Toast.timers s)))).
  { unfold s'. simpl. rewrite (proj2 (pending_iff _ _) Hin). reflexivity. }
  split; [rewrite Hs'; reflexivity|].
  destruct Hwf as [_ [Htim [_ [Htlt _]]]]. rewrite Forall_forall in Htlt.
  assert (Hgone : n < Toast.nextId s'
                  /\ ~ In n (map Toast.id (Toast.toasts s'))
                  /\ ~ In n (map Toast.timer_id (Toast.timers s'))).
  { rewrite Hs'. simpl. repeat split.
    - exact (Htlt _ Hin).
    - intro H. apply in_map_iff in H as [i [Hi H]]. apply filter_In in H as [_ H].
      apply negb_true_iff, Z.eqb_neq in H. contradiction.
    - exact (cancel_frees_id _ _ Htim Hin). }
  clearbody s'. clear Hs' Hin Htim Htlt s. revert s' Hgone. unfold Toast.run.
  induction es as [|e es IH]; intros s [Hlt [Hno Hnt]]; simpl; [exact Hno|].
  apply IH. apply step_keeps_gone; assumption.
Qed.

Lemma removed_toast_never_returns_witness :
  let s := Toast.run Toast.initial
             [Toast.Show "a" None; Toast.Show "b" (Some Page.error);
              Toast.Fire (Toast.FadeOut 0)] in
  let es := [Toast.Show "c" None; Toast.Fire (Toast.FadeOut 1); Toast.Fire (Toast.Removal 1)] in
  let s' := Toast.step s (Toast.Fire (Toast.Removal 0)) in
  Toast.toasts s' = filter (fun i => negb (Toast.id i =? 0)) (Toast.toasts s)
  /\ ~ In 0 (map Toast.id (Toast.toasts (Toast.run s' es))).
Proof.
  apply (removed_toast_never_returns
           (Toast.run Toast.initial
              [Toast.Show "a" None; Toast.Show "b" (Some Page.error);
               Toast.Fire (Toast.FadeOut 0)]) 0).
  - apply run_well_formed. apply initial_well_formed.
  - vm_compute. right. left. reflexivity.
Defined.

(** ** The QR scan *)



(** X6. When [take_screenshot] is rejected, [handleQrScan] has hidden the
    window and does not show it again: it resets full screen, always-on-top
    and decorations, centres the window, and sets the modal to be shown with
    the error, but the window stays hidden, whatever state it was in. *)
Theorem screenshot_failure_leaves_window_hidden
        (e : Js.thrown) (auto : Js.response string) (parsed : Js.response QrScan.Info)
        (s : QrScan.State) (w : QrScan.Window) :
  let result := QrScan.handleQrScan (Js.Rejected e) auto parsed s in
  snd result
  = [QrScan.win_hide; QrScan.take_screenshot; QrScan.win_setFullscreen false;
     QrScan.win_setAlwaysOnTop false; QrScan.win_setDecorations true; QrScan.win_center]
  /\ QrScan.visible (QrScan.window_after w (snd result)) = false
  /\ AddAccountModal.showModal (QrScan.form (fst result)) = true
  /\ AddAccountModal.errorMessage (QrScan.form (fst result))
     = QrScan.message_or "스크린샷 캡처 실패" e
  /\ QrScan.isScanning (fst result) = false.
Proof. repeat split. Qed.

(** X7. A scan writes the form's issuer, account and secret only from an
    answer of [parse_otpauth_uri]: from the automatic detection if it
    succeeded, else from the captured region if that succeeded; in every
    other case the three fields keep what they held.  Submitting the form
    after a successful scan sends the scanned names trimmed and the scanned
    secret without whitespace and in upper case. *)
Theorem scan_fills_form_from_parsed_uri_only
        (shot auto : Js.response string) (parsed : Js.response QrScan.Info)
        (ending : QrScan.Ending) (s : QrScan.State) :
  QrScan.showScreenCapture s = false ->
  let f := QrScan.form s in
  let f' := QrScan.form (fst (QrScan.scan shot auto parsed ending s)) in
  let kept := (AddAccountModal.issuer f, AddAccountModal.accountName f,
               AddAccountModal.secretKey f) in
  let from (i : QrScan.Info) :=
    (QrScan.issuer i, QrScan.account_name i, QrScan.secret i) in
  (AddAccountModal.issuer f', AddAccountModal.accountName f', AddAccountModal.secretKey f')
  = match shot, auto, parsed, ending with
    | Js.Rejected _, _, _, _ => kept
    | Js.Resolved _, Js.Resolved _, Js.Resolved i, _ => from i
    | Js.Resolved _, _, _, QrScan.captured _ (Js.Resolved _) (Js.Resolved i) => from i
    | Js.Resolved _, _, _, _ => kept
    end
  /\ (forall i,
        (AddAccountModal.issuer f', AddAccountModal.accountName f',
         AddAccountModal.secretKey f') = from i ->
        Js.is_empty (QrScan.issuer i) || Js.is_empty (QrScan.account_name i)
          || Js.is_empty (QrScan.secret i) = false ->
        snd (AddAccountModal.handleSubmit f')
        = Some (AddAccountModal.MkRequest
                  (Js.trim (QrScan.issuer i)) (Js.trim (QrScan.account_name i))
                  (Js.toUpperCase (Js.remove_whitespace (QrScan.secret i))))).
Proof.
  intros Hclosed f f' kept from. split.
  - unfold f', kept, from, f, QrScan.scan, QrScan.handleQrScan.
    destruct shot as [data|e0]; [|cbn [QrScan.showScreenCapture]; rewrite Hclosed;
                                  reflexivity].
    destruct auto as [uri|e1]; [destruct parsed as [info|e2]|];
      cbn [QrScan.showScreenCapture]; rewrite ?Hclosed;
      try (destruct ending as [r [u|e3] [i|e4]|]); reflexivity.
  - intros i Hfields Hfull. injection Hfields as Hi Ha Hs.
    unfold AddAccountModal.handleSubmit. rewrite Hi, Ha, Hs, Hfull. reflexivity.
Qed.

Lemma scan_fills_form_from_parsed_uri_only_witness :
  let shot := Js.Resolved "data:image/png;base64,AAAA" in
  let auto := Js.Resolved "otpauth://totp/GitHub:dev?secret=jbswy3dpehpk3pxp" in
  let parsed := Js.Resolved (QrScan.MkInfo "GitHub" "dev" "jbswy3dpehpk3pxp") in
  let s := QrScan.MkState Sample.form false false "" in
  let f := QrScan.form s in
  let f' := QrScan.form (fst (QrScan.scan shot auto parsed QrScan.cancelled s)) in
  let kept := (AddAccountModal.issuer f, AddAccountModal.accountName f,
               AddAccountModal.secretKey f) in
  let from (i : QrScan.Info) :=
    (QrScan.issuer i, QrScan.account_name i, QrScan.secret i) in
  (AddAccountModal.issuer f', AddAccountModal.accountName f', AddAccountModal.secretKey f')
  = from (QrScan.MkInfo "GitHub" "dev" "jbswy3dpehpk3pxp")
  /\ (forall i,
        (AddAccountModal.issuer f', AddAccountModal.accountName f',
         AddAccountModal.secretKey f') = from i ->
        Js.is_empty (QrScan.issuer i) || Js.is_empty (QrScan.account_name i)
          || Js.is_empty (QrScan.secret i) = false ->
        snd (AddAccountModal.handleSubmit f')
        = Some (AddAccountModal.MkRequest
                  (Js.trim (QrScan.issuer i)) (Js.trim (QrScan.account_name i))
                  (Js.toUpperCase (Js.remove_whitespace (QrScan.secret i))))).
Proof.
  apply (scan_fills_form_from_parsed_uri_only
           (Js.Resolved "data:image/png;base64,AAAA")
           (Js.Resolved "otpauth://totp/GitHub:dev?secret=jbswy3dpehpk3pxp")
           (Js.Resolved (QrScan.MkInfo "GitHub" "dev" "jbswy3dpehpk3pxp"))
           QrScan.cancelled (QrScan.MkState Sample.form false false "")).
  reflexivity.
Defined.

(** ** Dropping, exporting and importing files *)

Lemma loadAccounts_commands (s : PageFiles.State) (c : PageFiles.Command) :
  In c (PageFiles.loadAccounts s) ->
  c = PageFiles.page_command Page.get_accounts
  /\ Page.pinState (PageFiles.page s) = Page.unlocked.
Proof.
  unfold PageFiles.loadAccounts, Page.loadAccounts.
  destruct (Page.pinState (PageFiles.page s)); simpl; try tauto.
  intros [<-|[]]. split; reflexivity.
Qed.

(** X8. [handleDrop] never invokes [import_backup].  For a first file whose
    name ends in ".json" in any letter case and whose text parses, it
    invokes [export_backup] on the path chosen in the save dialog, and it
    does so whatever the PIN state of the page is, locked included.  It
    leaves the PIN state and the account list alone and asks for the
    accounts only on an unlocked page. *)
Theorem drop_exports_and_never_imports
        (files : list PageFiles.File) (dialog : option string)
        (reply : Js.response unit) (s : PageFiles.State) :
  let result := PageFiles.handleDrop files dialog reply s in
  (forall p, ~ In (PageFiles.import_backup p) (snd result))
  /\ (forall p,
        In (PageFiles.export_backup p) (snd result)
        <-> exists f rest,
              files = f :: rest
              /\ PageFiles.endsWith (PageFiles.toLowerCase (PageFiles.name f)) ".json" = true
              /\ (forall e, PageFiles.content f <> PageFiles.not_json e)
              /\ PageFiles.chosen_path dialog = Some p)
  /\ Page.pinState (PageFiles.page (fst result)) = Page.pinState (PageFiles.page s)
  /\ Page.accounts (PageFiles.page (fst result)) = Page.accounts (PageFiles.page s)
  /\ (In (PageFiles.page_command Page.get_accounts) (snd result) ->
      Page.pinState (PageFiles.page s) = Page.unlocked).
Proof.
  cbv zeta. unfold PageFiles.handleDrop.
  set (s0 := PageFiles.MkState (PageFiles.page s) false).
  assert (Hload : forall c, In c (PageFiles.loadAccounts s0) ->
                            c = PageFiles.page_command Page.get_accounts
                            /\ Page.pinState (PageFiles.page s) = Page.unlocked)
    by (intros c Hc; exact (loadAccounts_commands s0 c Hc)).
  destruct files as [|f rest].
  { simpl. repeat split; try tauto.
    intros [f [rest [H _]]]. discriminate H. }
  destruct (PageFiles.endsWith (PageFiles.toLowerCase (PageFiles.name f)) ".json") eqn:Ejson.
  2:{ destruct (PageFiles.is_image_name _); simpl; repeat split; try tauto;
        intros [f' [rest' [H [Hj _]]]]; injection H as <- <-; congruence. }
  assert (Hf : forall p : string,
             (exists f' rest',
                 f :: rest = f' :: rest'
                 /\ PageFiles.endsWith (PageFiles.toLowerCase (PageFiles.name f')) ".json" = true
                 /\ (forall e, PageFiles.content f' <> PageFiles.not_json e)
                 /\ PageFiles.chosen_path dialog = Some p)
             <-> (forall e, PageFiles.content f <> PageFiles.not_json e)
                 /\ PageFiles.chosen_path dialog = Some p).
  { intro p. split.
    - intros [f' [rest' [H [_ [Hn Hp]]]]]. injection H as <- <-. split; assumption.
    - intros [Hn Hp]. exists f, rest. repeat split; assumption. }
  split; [|split; [intro p; rewrite Hf|]];
    destruct (PageFiles.content f) as [e|e|n] eqn:Ec;
    destruct (PageFiles.chosen_path dialog) as [path|] eqn:Ed;
    destruct reply as [u|e']; cbn [fst snd PageFiles.toast PageFiles.page In].
  all: try (intros p [H|H]; [discriminate H | try contradiction;
                                              apply Hload in H as [H _]; discriminate H]).
  all: try (intros p H; try contradiction; apply Hload in H as [H _]; discriminate H).
  all: try (split; [intros [H|H]; [injection H as <-|try contradiction;
                                                     apply Hload in H as [H _]; discriminate H];
                    split; [intros e0 He0; discriminate He0 | reflexivity]
                   | intros [_ H]; injection H as <-; left; reflexivity]).
  all: try (split; [intro H; try contradiction; apply Hload in H as [H _]; discriminate H
                   | intros [Hn H]; first [discriminate H | exact (Hn e eq_refl)]]).
  all: try (split; [intros [H|H]; [discriminate H|try contradiction]
                   | intros [Hn H]; exact (Hn e eq_refl)]).
  all: try (split; [intros [H|H]; try contradiction; discriminate H
                   | intros [Hn H]; first [discriminate H | exact (Hn e eq_refl)]]).
  all: try (split; [reflexivity|split; [reflexivity|]]).
  all: try (intros [H|H]; [discriminate H|]).
  all: try (intro H; try contradiction; apply Hload in H as [_ H]; exact H).
  all: try contradiction.
  all: apply Hload in H as [_ H]; exact H.
Qed.

(** ** The buttons of a card *)

Lemma card_run_cons (s : CardActions.State) (e : CardActions.Event)
      (es : list CardActions.Event) :
  CardActions.run s (e :: es)
  = (fst (CardActions.run (fst (CardActions.step s e)) es),
     snd (CardActions.step s e) ++ snd (CardActions.run (fst (CardActions.step s e)) es)).
Proof.
  cbn [CardActions.run].
  destruct (CardActions.step s e) as [s1 o1].
  cbn [fst snd]. destruct (CardActions.run s1 es) as [s2 o2]. reflexivity.
Qed.

Lemma card_step_account (s : CardActions.State) (e : CardActions.Event) :
  CardActions.account (fst (CardActions.step s e)) = CardActions.account s.
Proof.
  destruct e as [c| |[u|x]| | | | | |[u|x]| |t|t| |[u|x]| ]; cbn [CardActions.step];
    repeat match goal with
           | |- context [if ?b then _ else _] => destruct b
           | |- context [match ?n with O => _ | S _ => _ end] => destruct n
           end; reflexivity.
Qed.

Lemma card_step_delete (s : CardActions.State) (e : CardActions.Event) (i : Z) :
  In (CardActions.delete_account i) (snd (CardActions.step s e)) ->
  i = Page.id (CardActions.account s) /\ CardActions.confirmingDelete s = true.
Proof.
  destruct e as [c| |[u|x]| | | | | |[u|x]| |t|t| |[u|x]| ]; cbn [CardActions.step];
    repeat match goal with
           | |- context [if ?b then _ else _] => destruct b eqn:?
           | |- context [match ?n with O => _ | S _ => _ end] => destruct n
           end; cbn [snd In]; intros H;
    repeat match goal with
           | H : _ \/ _ |- _ => destruct H as [H|H]
           end; try contradiction; try discriminate H.
  injection H as <-. split; reflexivity.
Qed.

Lemma card_step_opens (s : CardActions.State) (e : CardActions.Event) :
  CardActions.confirmingDelete (fst (CardActions.step s e)) = true ->
  CardActions.confirmingDelete s = true \/ e = CardActions.ClickBin.
Proof.
  destruct e as [c| |[u|x]| | | | | |[u|x]| |t|t| |[u|x]| ]; cbn [CardActions.step];
    repeat match goal with
           | |- context [if ?b then _ else _] => destruct b eqn:?
           | |- context [match ?n with O => _ | S _ => _ end] => destruct n
           end; cbn; intros H; try discriminate H; try congruence; auto.
Qed.

Lemma card_run_delete (es : list CardActions.Event) (s : CardActions.State) (i : Z) :
  In (CardActions.delete_account i) (snd (CardActions.run s es)) ->
  i = Page.id (CardActions.account s)
  /\ (CardActions.confirmingDelete s = true \/ In CardActions.ClickBin es).
Proof.
  revert s. induction es as [|e es IH]; intros s.
  - intros [].
  - rewrite card_run_cons. cbn [snd]. rewrite in_app_iff. intros [H|H].
    + apply card_step_delete in H as [-> H]. auto.
    + apply IH in H as [-> H]. rewrite card_step_account. split; [reflexivity|].
      destruct H as [H|H]; [|right; right; exact H].
      apply card_step_opens in H as [H| ->]; [left; exact H|right; left; reflexivity].
Qed.

(** X9. Whatever is done to a card, a [delete_account] command leaves it
    only for the card's own account, and only when the bin has been
    clicked: the other buttons, the timers and the answers of the back end
    never cause a deletion. *)
Theorem delete_only_after_bin_click
        (a : Page.Account) (es : list CardActions.Event) (i : Z) :
  In (CardActions.delete_account i) (snd (CardActions.run (CardActions.create a) es)) ->
  i = Page.id a /\ In CardActions.ClickBin es.
Proof.
  intros H. apply card_run_delete in H as [-> [H|H]].
  - discriminate H.
  - split; [reflexivity|exact H].
Qed.

(** A card on which the bin and then the confirmation are clicked. *)
Lemma delete_only_after_bin_click_witness :
  In (CardActions.delete_account 1)
     (snd (CardActions.run (CardActions.create Sample.account)
                           [CardActions.ClickBin; CardActions.ClickConfirmDelete]))
  /\ 1 = Page.id Sample.account
  /\ In CardActions.ClickBin [CardActions.ClickBin; CardActions.ClickConfirmDelete].
Proof.
  assert (H : In (CardActions.delete_account 1)
                 (snd (CardActions.run (CardActions.create Sample.account)
                                       [CardActions.ClickBin; CardActions.ClickConfirmDelete])))
    by (left; reflexivity).
  split; [exact H|].
  exact (delete_only_after_bin_click Sample.account _ 1 H).
Defined.

(** *** What [trim] leaves *)

Lemma drop_whitespace_nil (l : list ascii) :
  Js.drop_whitespace l = [] <-> forallb Js.is_whitespace l = true.
Proof.
  induction l as [|c l IH]; cbn [Js.drop_whitespace forallb].
  - tauto.
  - destruct (Js.is_whitespace c); cbn [andb]; [exact IH|].
    split; intros H; discriminate H.
Qed.

Lemma drop_whitespace_head (l : list ascii) (c : ascii) (t : list ascii) :
  Js.drop_whitespace l = c :: t -> Js.is_whitespace c = false.
Proof.
  induction l as [|d l IH]; cbn [Js.drop_whitespace]; [discriminate|].
  destruct (Js.is_whitespace d) eqn:E; [exact IH|].
  intros H. injection H as <- _. exact E.
Qed.

Lemma drop_whitespace_tail (l : list ascii) :
  exists w, l = w ++ Js.drop_whitespace l.
Proof.
  induction l as [|d l [w IH]]; cbn [Js.drop_whitespace].
  - exists []. reflexivity.
  - destruct (Js.is_whitespace d).
    + exists (d :: w). cbn [app]. rewrite <- IH. reflexivity.
    + exists []. reflexivity.
Qed.

Lemma drop_whitespace_kept (c : ascii) (t : list ascii) :
  Js.is_whitespace c = false -> Js.drop_whitespace (c :: t) = c :: t.
Proof. intros H. cbn [Js.drop_whitespace]. rewrite H. reflexivity. Qed.

Lemma drop_whitespace_twice (l : list ascii) :
  Js.drop_whitespace (Js.drop_whitespace l) = Js.drop_whitespace l.
Proof.
  destruct (Js.drop_whitespace l) as [|c t] eqn:E; [reflexivity|].
  apply drop_whitespace_kept. exact (drop_whitespace_head l c t E).
Qed.

(** Dropping the white space at the end of a list that starts with none
    leaves a list that starts with none. *)
Lemma drop_whitespace_end (l : list ascii) :
  Js.drop_whitespace (rev (Js.drop_whitespace (rev (Js.drop_whitespace l))))
  = rev (Js.drop_whitespace (rev (Js.drop_whitespace l))).
Proof.
  set (m := Js.drop_whitespace l).
  destruct (drop_whitespace_tail (rev m)) as [w Hw].
  assert (Hm : m = rev (Js.drop_whitespace (rev m)) ++ rev w).
  { rewrite <- rev_app_distr, <- Hw, rev_involutive. reflexivity. }
  destruct (rev (Js.drop_whitespace (rev m))) as [|c t]; [reflexivity|].
  apply drop_whitespace_kept.
  apply (drop_whitespace_head l c (t ++ rev w)). exact Hm.
Qed.

Lemma trim_trim (s : string) : Js.trim (Js.trim s) = Js.trim s.
Proof.
  unfold Js.trim.
  rewrite chars_of_chars, (drop_whitespace_end (Js.chars s)), rev_involutive,
          drop_whitespace_twice.
  reflexivity.
Qed.

Lemma of_chars_empty (l : list ascii) : Js.of_chars l = "" <-> l = [].
Proof.
  destruct l; cbn; split; intros H; try reflexivity; discriminate H.
Qed.

Lemma rev_empty (l : list ascii) : rev l = [] <-> l = [].
Proof.
  split; intros H.
  - rewrite <- (rev_involutive l), H. reflexivity.
  - rewrite H. reflexivity.
Qed.

Lemma whitespace_rev (l : list ascii) :
  forallb Js.is_whitespace (rev l) = forallb Js.is_whitespace l.
Proof.
  induction l as [|c l IH]; [reflexivity|].
  cbn [rev forallb]. rewrite forallb_app, IH. cbn [forallb].
  rewrite andb_true_r. apply andb_comm.
Qed.

Lemma trim_empty (s : string) :
  Js.trim s = "" <-> forallb Js.is_whitespace (Js.chars s) = true.
Proof.
  unfold Js.trim. rewrite of_chars_empty, rev_empty, drop_whitespace_nil.
  rewrite whitespace_rev, <- drop_whitespace_nil, drop_whitespace_twice.
  apply drop_whitespace_nil.
Qed.

Ltac card_cases e :=
  destruct e as [?| |[?|?]| | | | | |[?|?]| |?|?| |[?|?]| ]; cbn [CardActions.step];
  repeat match goal with
         | |- context [if ?b then _ else _] => destruct b eqn:?
         | |- context [match ?n with O => _ | S _ => _ end] => destruct n eqn:?
         end.

Lemma card_step_timer (s : CardActions.State) (e : CardActions.Event) :
  (CardActions.confirmingDelete s = true -> (1 <= CardActions.deleteTimers s)%nat) ->
  CardActions.confirmingDelete (fst (CardActions.step s e)) = true ->
  (1 <= CardActions.deleteTimers (fst (CardActions.step s e)))%nat.
Proof.
  intros Hs. revert Hs.
  card_cases e; cbn; intros Hs H; try discriminate H; try congruence;
    try (apply Hs; assumption); try (specialize (Hs H)); lia.
Qed.

Lemma card_run_timer (es : list CardActions.Event) (s : CardActions.State) :
  (CardActions.confirmingDelete s = true -> (1 <= CardActions.deleteTimers s)%nat) ->
  CardActions.confirmingDelete (fst (CardActions.run s es)) = true ->
  (1 <= CardActions.deleteTimers (fst (CardActions.run s es)))%nat.
Proof.
  revert s. induction es as [|e es IH]; intros s Hs.
  - exact Hs.
  - rewrite card_run_cons. cbn [fst]. apply IH. apply card_step_timer. exact Hs.
Qed.

(** X10. A card never keeps a confirmation open for good: whenever the
    confirmation buttons are shown, a timer set by [requestDelete] is
    still pending, and when it fires the confirmation closes. *)
Theorem open_confirmation_has_pending_timer
        (a : Page.Account) (es : list CardActions.Event) :
  let s := fst (CardActions.run (CardActions.create a) es) in
  CardActions.confirmingDelete s = true ->
  (1 <= CardActions.deleteTimers s)%nat
  /\ CardActions.confirmingDelete (fst (CardActions.step s CardActions.DeleteTimeout)) = false.
Proof.
  cbv zeta. intros H.
  assert (Ht : (1 <= CardActions.deleteTimers
                      (fst (CardActions.run (CardActions.create a) es)))%nat).
  { apply card_run_timer; [|exact H]. intros H0. discriminate H0. }
  split; [exact Ht|].
  cbn [CardActions.step].
  destruct (CardActions.deleteTimers (fst (CardActions.run (CardActions.create a) es)));
    [lia|reflexivity].
Qed.

(** The bin clicked, cancelled and clicked again: two timers are pending. *)
Lemma open_confirmation_has_pending_timer_witness :
  let s := fst (CardActions.run (CardActions.create Sample.account)
                                [CardActions.ClickBin; CardActions.ClickCancelDelete;
                                 CardActions.ClickBin]) in
  CardActions.confirmingDelete s = true
  /\ (1 <= CardActions.deleteTimers s)%nat
  /\ CardActions.confirmingDelete (fst (CardActions.step s CardActions.DeleteTimeout)) = false.
Proof.
  cbv zeta. split; [reflexivity|].
  exact (open_confirmation_has_pending_timer
           Sample.account
           [CardActions.ClickBin; CardActions.ClickCancelDelete; CardActions.ClickBin]
           eq_refl).
Defined.

Lemma card_step_update (s : CardActions.State) (e : CardActions.Event)
      (i : Z) (x y : string) :
  In (CardActions.update_account i x y) (snd (CardActions.step s e)) ->
  i = Page.id (CardActions.account s)
  /\ x = Js.trim (CardActions.editIssuer s)
  /\ y = Js.trim (CardActions.editAccountName s)
  /\ CardActions.isEditing s = true.
Proof.
  card_cases e; cbn [snd In]; intros H;
    repeat match goal with
           | H : _ \/ _ |- _ => destruct H as [H|H]
           end; try contradiction; try discriminate H.
  injection H as <- <- <-. repeat split; reflexivity.
Qed.

Lemma card_step_edits (s : CardActions.State) (e : CardActions.Event) :
  CardActions.isEditing (fst (CardActions.step s e)) = true ->
  CardActions.isEditing s = true \/ e = CardActions.ClickEdit.
Proof.
  card_cases e; cbn; intros H; try discriminate H; try congruence; auto.
Qed.

Lemma card_run_update (es : list CardActions.Event) (s : CardActions.State)
      (i : Z) (x y : string) :
  In (CardActions.update_account i x y) (snd (CardActions.run s es)) ->
  i = Page.id (CardActions.account s)
  /\ Js.trim x = x /\ Js.trim y = y
  /\ (CardActions.isEditing s = true \/ In CardActions.ClickEdit es).
Proof.
  revert s. induction es as [|e es IH]; intros s.
  - intros [].
  - rewrite card_run_cons. cbn [snd]. rewrite in_app_iff. intros [H|H].
    + apply card_step_update in H as [-> [-> [-> H]]].
      rewrite !trim_trim. auto.
    + apply IH in H as [-> [Hx [Hy H]]]. rewrite card_step_account.
      split; [reflexivity|]. split; [exact Hx|]. split; [exact Hy|].
      destruct H as [H|H]; [|right; right; exact H].
      apply card_step_edits in H as [H| ->]; [left; exact H|right; left; reflexivity].
Qed.

(** X11. Every [update_account] command a card sends is for the card's own
    account, carries an issuer and an account name without white space at
    either end, and comes after a click on the pencil. *)
Theorem saved_fields_are_trimmed
        (a : Page.Account) (es : list CardActions.Event) (i : Z) (x y : string) :
  In (CardActions.update_account i x y) (snd (CardActions.run (CardActions.create a) es)) ->
  i = Page.id a /\ Js.trim x = x /\ Js.trim y = y /\ In CardActions.ClickEdit es.
Proof.
  intros H. apply card_run_update in H as [-> [Hx [Hy [H|H]]]].
  - discriminate H.
  - repeat split; assumption.
Qed.

(** A card renamed with spaces around the new issuer. *)
Lemma saved_fields_are_trimmed_witness :
  let es := [CardActions.ClickEdit; CardActions.TypeIssuer "  GitLab ";
             CardActions.ClickSave] in
  In (CardActions.update_account 1 "GitLab" "dev@example.com")
     (snd (CardActions.run (CardActions.create Sample.account) es))
  /\ 1 = Page.id Sample.account
  /\ Js.trim "GitLab" = "GitLab"
  /\ Js.trim "dev@example.com" = "dev@example.com"
  /\ In CardActions.ClickEdit es.
Proof.
  cbv zeta.
  assert (H : In (CardActions.update_account 1 "GitLab" "dev@example.com")
                 (snd (CardActions.run (CardActions.create Sample.account)
                                       [CardActions.ClickEdit;
                                        CardActions.TypeIssuer "  GitLab ";
                                        CardActions.ClickSave])))
    by (left; reflexivity).
  split; [exact H|].
  exact (saved_fields_are_trimmed Sample.account _ 1 "GitLab" "dev@example.com" H).
Defined.

(** X12. [saveEdit] checks nothing: an issuer edited to white space only is
    sent to the back end as the empty string, with the account name as it
    stands. *)
Theorem blank_issuer_is_saved_empty (s : CardActions.State) (text : string) :
  CardActions.isEditing s = true ->
  forallb Js.is_whitespace (Js.chars text) = true ->
  snd (CardActions.run s [CardActions.TypeIssuer text; CardActions.ClickSave])
  = [CardActions.update_account (Page.id (CardActions.account s)) ""
                                (Js.trim (CardActions.editAccountName s))].
Proof.
  intros He Ht. apply trim_empty in Ht.
  rewrite card_run_cons. cbn [CardActions.step]. rewrite He. cbn [fst snd app].
  rewrite card_run_cons. cbn [CardActions.step CardActions.set_edit CardActions.isEditing
                                CardActions.editIssuer CardActions.editAccountName
                                CardActions.account CardActions.run fst snd app].
  rewrite Ht. reflexivity.
Qed.

(** The pencil clicked and the issuer replaced by two spaces. *)
Lemma blank_issuer_is_saved_empty_witness :
  let s := fst (CardActions.step (CardActions.create Sample.account) CardActions.ClickEdit) in
  CardActions.isEditing s = true
  /\ forallb Js.is_whitespace (Js.chars "  ") = true
  /\ snd (CardActions.run s [CardActions.TypeIssuer "  "; CardActions.ClickSave])
     = [CardActions.update_account 1 "" "dev@example.com"].
Proof.
  cbv zeta. split; [reflexivity|]. split; [reflexivity|].
  exact (blank_issuer_is_saved_empty
           (fst (CardActions.step (CardActions.create Sample.account) CardActions.ClickEdit))
           "  " eq_refl eq_refl).
Defined.

(** ** The form of the add-account dialog *)

(** X13. [handleSubmit] tests the fields for being empty before it trims
    them: a form whose issuer is white space only passes the test, and the
    [add_account] command is invoked with an empty issuer. *)
Theorem blank_issuer_is_submitted_empty (s : AddAccountModal.State) :
  AddAccountModal.issuer s <> "" ->
  forallb Js.is_whitespace (Js.chars (AddAccountModal.issuer s)) = true ->
  AddAccountModal.accountName s <> "" ->
  AddAccountModal.secretKey s <> "" ->
  snd (AddAccountModal.handleSubmit s)
  = Some (AddAccountModal.MkRequest
            "" (Js.trim (AddAccountModal.accountName s))
            (AddAccountModal.cleanSecret (AddAccountModal.secretKey s))).
Proof.
  intros Hi Hw Ha Hk. apply trim_empty in Hw.
  unfold AddAccountModal.handleSubmit.
  destruct (AddAccountModal.issuer s) eqn:Ei; [contradiction Hi; reflexivity|].
  destruct (AddAccountModal.accountName s) eqn:Ea; [contradiction Ha; reflexivity|].
  destruct (AddAccountModal.secretKey s) eqn:Ek; [contradiction Hk; reflexivity|].
  cbn [Js.is_empty orb snd]. rewrite Hw. reflexivity.
Qed.

(** The sample form with a blank issuer. *)
Lemma blank_issuer_is_submitted_empty_witness :
  let s := AddAccountModal.MkState " " "dev@example.com" Sample.secret "" false true 0 in
  snd (AddAccountModal.handleSubmit s)
  = Some (AddAccountModal.MkRequest "" "dev@example.com" "JBSWY3DPEHPK3PXP").
Proof.
  cbv zeta.
  refine (blank_issuer_is_submitted_empty
            (AddAccountModal.MkState " " "dev@example.com" Sample.secret "" false true 0)
            _ eq_refl _ _); cbn; discriminate.
Defined.

(** ** The installer *)

Lemma installer_run_cons (s : Installer.State) (e : Installer.Event)
      (es : list Installer.Event) :
  Installer.run s (e :: es)
  = (fst (Installer.run (fst (Installer.step s e)) es),
     snd (Installer.step s e) ++ snd (Installer.run (fst (Installer.step s e)) es)).
Proof.
  cbn [Installer.run].
  destruct (Installer.step s e) as [s1 o1].
  cbn [fst snd]. destruct (Installer.run s1 es) as [s2 o2]. reflexivity.
Qed.

Ltac installer_cases e :=
  destruct e as [|[?|?]| |[?|]|? ?]; cbn [Installer.step];
  unfold Installer.runInstall, PageFiles.chosen_path;
  repeat match goal with
         | |- context [if ?b then _ else _] => destruct b eqn:?
         end.

Lemma installer_step_url (s : Installer.State) (e : Installer.Event) :
  Installer.downloadUrl (fst (Installer.step s e)) = Installer.downloadUrl s.
Proof. installer_cases e; reflexivity. Qed.

Lemma installer_step_install (s : Installer.State) (e : Installer.Event) (p u : string) :
  In (Installer.run_install p u) (snd (Installer.step s e)) ->
  p <> "" /\ u <> "" /\ u = Installer.downloadUrl s.
Proof.
  installer_cases e; cbn [snd In app]; intros H;
    repeat match goal with
           | H : _ \/ _ |- _ => destruct H as [H|H]
           | H : In _ (repeat _ _) |- _ => apply repeat_spec in H
           end; try contradiction; try discriminate H.
  injection H as <- <-.
  repeat match goal with
         | H : (_ || _)%bool = false |- _ => apply orb_false_elim in H as [? ?]
         end.
  repeat split; try reflexivity; intros E;
    match goal with
    | H : Js.is_empty ?t = false |- _ => rewrite E in H; discriminate H
    end.
Qed.

Lemma installer_run_install (es : list Installer.Event) (s : Installer.State)
      (p u : string) :
  In (Installer.run_install p u) (snd (Installer.run s es)) ->
  p <> "" /\ u <> "" /\ u = Installer.downloadUrl s.
Proof.
  revert s. induction es as [|e es IH]; intros s.
  - intros [].
  - rewrite installer_run_cons. cbn [snd]. rewrite in_app_iff. intros [H|H].
    + exact (installer_step_install s e p u H).
    + apply IH in H. rewrite installer_step_url in H. exact H.
Qed.

(** X14. Whatever the user does after [init], the installer is only ever
    run with a folder and a download address that are not empty, and the
    address is the one [check_latest_version] answered with: when that
    check has failed, no sequence of clicks starts an installation. *)
Theorem install_uses_checked_download_url
        (text0 : string) (active0 disabled0 : bool)
        (path : Js.response string) (version : Js.response Installer.VersionInfo)
        (es : list Installer.Event) (p u : string) :
  let s0 := fst (Installer.init path version (Installer.loaded text0 active0 disabled0)) in
  In (Installer.run_install p u) (snd (Installer.run s0 es)) ->
  p <> "" /\ u <> ""
  /\ exists info, version = Js.Resolved info /\ u = Installer.download_url info.
Proof.
  cbv zeta. intros H. apply installer_run_install in H as [Hp [Hu H]].
  split; [exact Hp|]. split; [exact Hu|].
  destruct version as [info|e]; cbn in H.
  - exists info. split; [reflexivity|exact H].
  - contradiction Hu.
Qed.

(** A first click after a version check that answered. *)
Lemma install_uses_checked_download_url_witness :
  let info := Installer.MkVersionInfo "1.2.0" None "https://example.com/app.zip" in
  let s0 := fst (Installer.init (Js.Rejected (Js.ThrownString "no path")) (Js.Resolved info)
                                (Installer.loaded "..." false true)) in
  In (Installer.run_install "C:\Secure2FA" "https://example.com/app.zip")
     (snd (Installer.run s0 [Installer.ClickInstall]))
  /\ "C:\Secure2FA" <> "" /\ "https://example.com/app.zip" <> ""
  /\ exists info', Js.Resolved info = Js.Resolved info'
                   /\ "https://example.com/app.zip" = Installer.download_url info'.
Proof.
  cbv zeta.
  assert (H : In (Installer.run_install "C:\Secure2FA" "https://example.com/app.zip")
                 (snd (Installer.run
                         (fst (Installer.init
                                 (Js.Rejected (Js.ThrownString "no path"))
                                 (Js.Resolved (Installer.MkVersionInfo
                                                 "1.2.0" None "https://example.com/app.zip"))
                                 (Installer.loaded "..." false true)))
                         [Installer.ClickInstall])))
    by (left; reflexivity).
  split; [exact H|].
  exact (install_uses_checked_download_url
           "..." false true (Js.Rejected (Js.ThrownString "no path"))
           (Js.Resolved (Installer.MkVersionInfo "1.2.0" None "https://example.com/app.zip"))
           [Installer.ClickInstall] _ _ H).
Defined.

Lemma installs_app (a b : list Installer.Effect) :
  Installer.installs (a ++ b) = (Installer.installs a + Installer.installs b)%nat.
Proof. unfold Installer.installs. rewrite filter_app, length_app. reflexivity. Qed.

Lemma installs_close (n : nat) : Installer.installs (repeat Installer.window_close n) = 0%nat.
Proof. induction n as [|n IH]; [reflexivity|exact IH]. Qed.

(** What one more installation may still cost: one start when the listener
    is on the button and nothing is pending. *)
Lemma installer_step_budget (s : Installer.State) (e : Installer.Event) :
  (Installer.pending s = true -> Installer.buttonDisabled s = true) ->
  (Installer.pending (fst (Installer.step s e)) = true ->
   Installer.buttonDisabled (fst (Installer.step s e)) = true)
  /\ (Installer.installs (snd (Installer.step s e))
      + (if Installer.pending (fst (Installer.step s e)) then 0
         else if Installer.installListener (fst (Installer.step s e)) then 1 else 0)
      <= (if Installer.pending s then 0 else if Installer.installListener s then 1 else 0)
         + (if Installer.is_failure e then 1 else 0))%nat.
Proof.
  destruct s as [sel url txt badge notes shown btext bactive bdisabled listener closers
                 clickable pshown pwidth status pend].
  cbn [Installer.pending Installer.buttonDisabled]. intros Inv.
  destruct pend, bdisabled; try (specialize (Inv eq_refl); discriminate Inv); clear Inv;
    destruct listener, clickable;
    destruct e as [|[u|x]| |[d|]|n m];
    cbn [Installer.step]; unfold Installer.runInstall;
    cbn [Installer.step Installer.is_failure Installer.runInstall Installer.runInstall_settled
         Installer.pending Installer.buttonDisabled Installer.installListener
         Installer.selectedPath Installer.downloadUrl Installer.closeListeners
         Installer.folderClickable PageFiles.chosen_path];
    try match goal with
        | |- context [if Js.is_empty ?a || ?b then _ else _] => destruct (Js.is_empty a || b)
        | |- context [if Js.is_empty ?a then _ else _] => destruct (Js.is_empty a)
        end;
    cbn [fst snd app Installer.pending Installer.buttonDisabled Installer.installListener];
    rewrite ?installs_app, ?installs_close;
    (split; [intros H; first [reflexivity|discriminate H]|]);
    cbn; fold (Installer.installs (repeat Installer.window_close closers));
    rewrite ?installs_close; lia.
Qed.

Lemma installer_run_budget (es : list Installer.Event) (s : Installer.State) :
  (Installer.pending s = true -> Installer.buttonDisabled s = true) ->
  (Installer.installs (snd (Installer.run s es))
   <= (if Installer.pending s then 0 else if Installer.installListener s then 1 else 0)
      + Installer.failures es)%nat.
Proof.
  revert s. induction es as [|e es IH]; intros s Inv.
  - cbn. lia.
  - rewrite installer_run_cons. cbn [snd]. rewrite installs_app.
    destruct (installer_step_budget s e Inv) as [Inv1 H1].
    specialize (IH _ Inv1).
    unfold Installer.failures in *. cbn [filter].
    destruct (Installer.is_failure e); cbn [length]; lia.
Qed.

(** X15. The installer is started at most once, and once more for each
    installation that has failed: clicks while an installation is running,
    or after one has succeeded, start nothing. *)
Theorem one_install_per_failure
        (text0 : string) (active0 disabled0 : bool)
        (path : Js.response string) (version : Js.response Installer.VersionInfo)
        (es : list Installer.Event) :
  let s0 := fst (Installer.init path version (Installer.loaded text0 active0 disabled0)) in
  (Installer.installs (snd (Installer.run s0 es)) <= 1 + Installer.failures es)%nat.
Proof.
  cbv zeta.
  set (s0 := fst (Installer.init path version (Installer.loaded text0 active0 disabled0))).
  assert (Hp : Installer.pending s0 = false) by (destruct version; reflexivity).
  assert (Inv : Installer.pending s0 = true -> Installer.buttonDisabled s0 = true)
    by (rewrite Hp; intros E; discriminate E).
  assert (H := installer_run_budget es s0 Inv).
  rewrite Hp in H. destruct (Installer.installListener s0); lia.
Qed.

Lemma installer_step_finished (s : Installer.State) (e : Installer.Event) :
  Installer.installListener s = false -> Installer.pending s = false ->
  Installer.buttonDisabled s = false -> (1 <= Installer.closeListeners s)%nat ->
  Installer.buttonText s = "닫기" ->
  (Installer.installListener (fst (Installer.step s e)) = false
   /\ Installer.pending (fst (Installer.step s e)) = false
   /\ Installer.buttonDisabled (fst (Installer.step s e)) = false
   /\ (1 <= Installer.closeListeners (fst (Installer.step s e)))%nat
   /\ Installer.buttonText (fst (Installer.step s e)) = "닫기")
  /\ forall p u, ~ In (Installer.run_install p u) (snd (Installer.step s e)).
Proof.
  intros Hl Hp Hd Hc Ht.
  destruct e as [|r| |[d|]|n m]; cbn [Installer.step PageFiles.chosen_path];
    rewrite ?Hd, ?Hl, ?Hp; try destruct (Installer.folderClickable s);
    try destruct (Js.is_empty d); cbn [fst snd app];
    (split; [repeat split; assumption|]); intros p u H;
    try apply repeat_spec in H; try destruct H as [H|[]]; try discriminate H;
    try contradiction.
Qed.

Lemma installer_run_finished (es : list Installer.Event) (s : Installer.State) :
  Installer.installListener s = false -> Installer.pending s = false ->
  Installer.buttonDisabled s = false -> (1 <= Installer.closeListeners s)%nat ->
  Installer.buttonText s = "닫기" ->
  (Installer.buttonDisabled (fst (Installer.run s es)) = false
   /\ Installer.installListener (fst (Installer.run s es)) = false
   /\ (1 <= Installer.closeListeners (fst (Installer.run s es)))%nat
   /\ Installer.buttonText (fst (Installer.run s es)) = "닫기")
  /\ forall p u, ~ In (Installer.run_install p u) (snd (Installer.run s es)).
Proof.
  revert s. induction es as [|e es IH]; intros s Hl Hp Hd Hc Ht.
  - cbn [Installer.run fst snd]. repeat split; try assumption. intros p u [].
  - rewrite installer_run_cons. cbn [fst snd].
    destruct (installer_step_finished s e Hl Hp Hd Hc Ht) as [[Hl1 [Hp1 [Hd1 [Hc1 Ht1]]]] Hn].
    destruct (IH _ Hl1 Hp1 Hd1 Hc1 Ht1) as [Hs Hm].
    split; [exact Hs|]. intros p u H. apply in_app_iff in H as [H|H].
    + exact (Hn p u H).
    + exact (Hm p u H).
Qed.

(** X16. Once an installation has succeeded the button reads "닫기" for
    good: whatever happens afterwards, a click on it closes the window and
    the installer is never started again. *)
Theorem finished_installer_only_closes (s : Installer.State) (es : list Installer.Event) :
  Installer.pending s = true ->
  let r := Installer.run s (Installer.InstallSettled (Js.Resolved tt) :: es) in
  (forall p u, ~ In (Installer.run_install p u) (snd r))
  /\ Installer.buttonText (fst r) = "닫기"
  /\ In Installer.window_close (snd (Installer.step (fst r) Installer.ClickInstall)).
Proof.
  intros Hp. cbv zeta. rewrite installer_run_cons.
  cbn [Installer.step]. rewrite Hp. cbn [fst snd app].
  destruct (installer_run_finished es (Installer.runInstall_settled (Js.Resolved tt) s))
    as [[Hd [Hl [Hc Ht]]] Hn]; try reflexivity.
  { cbn. lia. }
  split; [exact Hn|]. split; [exact Ht|].
  cbn [Installer.step]. rewrite Hd, Hl. cbn [snd app].
  destruct (Installer.closeListeners
              (fst (Installer.run (Installer.runInstall_settled (Js.Resolved tt) s) es)));
    [lia|left; reflexivity].
Qed.

(** An installation started from the sample answer, which then succeeds,
    followed by two more clicks. *)
Lemma finished_installer_only_closes_witness :
  let info := Installer.MkVersionInfo "1.2.0" None "https://example.com/app.zip" in
  let s0 := fst (Installer.init (Js.Resolved "D:\Apps") (Js.Resolved info)
                                (Installer.loaded "..." false true)) in
  let s := fst (Installer.step s0 Installer.ClickInstall) in
  let r := Installer.run s [Installer.InstallSettled (Js.Resolved tt);
                            Installer.ClickInstall; Installer.ClickInstall] in
  Installer.pending s = true
  /\ (forall p u, ~ In (Installer.run_install p u) (snd r))
  /\ Installer.buttonText (fst r) = "닫기"
  /\ In Installer.window_close (snd (Installer.step (fst r) Installer.ClickInstall)).
Proof.
  cbv zeta. split; [reflexivity|].
  exact (finished_installer_only_closes
           (fst (Installer.step
                   (fst (Installer.init
                           (Js.Resolved "D:\Apps")
                           (Js.Resolved (Installer.MkVersionInfo
                                           "1.2.0" None "https://example.com/app.zip"))
                           (Installer.loaded "..." false true)))
                   Installer.ClickInstall))
           [Installer.ClickInstall; Installer.ClickInstall] eq_refl).
Defined.

(** ** Typing on the PIN pad *)

Lemma pad_run_cons (s : PinPad.State) (e : PinPad.Event) (es : list PinPad.Event) :
  PinPad.run s (e :: es)
  = (fst (PinPad.run (fst (PinPad.step s e)) es),
     snd (PinPad.step s e) ++ snd (PinPad.run (fst (PinPad.step s e)) es)).
Proof.
  cbn [PinPad.run].
  destruct (PinPad.step s e) as [s1 o1].
  cbn [fst snd]. destruct (PinPad.run s1 es) as [s2 o2]. reflexivity.
Qed.

Lemma pad_run_app (a b : list PinPad.Event) (s : PinPad.State) :
  PinPad.run s (a ++ b)
  = (fst (PinPad.run (fst (PinPad.run s a)) b),
     snd (PinPad.run s a) ++ snd (PinPad.run (fst (PinPad.run s a)) b)).
Proof.
  revert s. induction a as [|e a IH]; intros s.
  - cbn [app PinPad.run fst snd]. destruct (PinPad.run s b). reflexivity.
  - cbn [app]. rewrite !pad_run_cons, IH. cbn [fst snd]. rewrite app_assoc. reflexivity.
Qed.

(** A digit key on a pad that is not full. *)
Lemma type_digit (c : ascii) (s : PinPad.State) :
  Js.is_digit c = true ->
  (String.length (PinPad.pin s) <? PinPad.MAX_PIN_LENGTH)%nat = true ->
  PinPad.step s (PinPad.Keydown (String c EmptyString))
  = (PinPad.MkState
       (PinPad.mode s) None (PinPad.successMsg s)
       (String.append (PinPad.pin s) (String c EmptyString))
       (PinPad.confirmPin s) (PinPad.isConfirming s) (PinPad.isShaking s)
       (if (String.length (String.append (PinPad.pin s) (String c EmptyString))
            =? PinPad.MAX_PIN_LENGTH)%nat
        then S (PinPad.submitTimers s) else PinPad.submitTimers s)
       (PinPad.shakeTimers s), []).
Proof.
  intros Hc Hl. cbn [PinPad.step]. unfold PinPad.handleKeydown.
  cbn [PinPad.is_digit_key]. rewrite Hc. unfold PinPad.handleInput.
  rewrite Hl. cbn [PinPad.parseInt]. rewrite (digit_toString c Hc). reflexivity.
Qed.

(** Four digits typed on an empty pad: the entry is shown and the submit
    timer is set. *)
Lemma type_pin (p : string) (m : PinPad.Mode) (e sm : option string) (cp : string)
      (ic sh : bool) (st sk : nat) :
  String.length p = PinPad.MAX_PIN_LENGTH ->
  forallb Js.is_digit (Js.chars p) = true ->
  PinPad.run (PinPad.MkState m e sm "" cp ic sh st sk) (Typing.keys p)
  = (PinPad.MkState m None sm p cp ic sh (S st) sk, []).
Proof.
  intros Hl Hd.
  destruct p as [|a [|b [|c [|d [|x p]]]]]; try discriminate Hl.
  cbn [Js.chars list_ascii_of_string forallb] in Hd.
  rewrite !andb_true_iff in Hd. destruct Hd as [Ha [Hb [Hc [Hd _]]]].
  unfold Typing.keys. cbn [Js.chars list_ascii_of_string map].
  rewrite pad_run_cons, (type_digit a _ Ha) by reflexivity.
  cbn [fst snd PinPad.mode PinPad.successMsg PinPad.pin PinPad.confirmPin PinPad.isConfirming
       PinPad.isShaking PinPad.submitTimers PinPad.shakeTimers String.append String.length
       Nat.eqb PinPad.MAX_PIN_LENGTH app].
  rewrite pad_run_cons, (type_digit b _ Hb) by reflexivity.
  cbn [fst snd PinPad.mode PinPad.successMsg PinPad.pin PinPad.confirmPin PinPad.isConfirming
       PinPad.isShaking PinPad.submitTimers PinPad.shakeTimers String.append String.length
       Nat.eqb PinPad.MAX_PIN_LENGTH app].
  rewrite pad_run_cons, (type_digit c _ Hc) by reflexivity.
  cbn [fst snd PinPad.mode PinPad.successMsg PinPad.pin PinPad.confirmPin PinPad.isConfirming
       PinPad.isShaking PinPad.submitTimers PinPad.shakeTimers String.append String.length
       Nat.eqb PinPad.MAX_PIN_LENGTH app].
  rewrite pad_run_cons, (type_digit d _ Hd) by reflexivity.
  cbn [fst snd PinPad.mode PinPad.successMsg PinPad.pin PinPad.confirmPin PinPad.isConfirming
       PinPad.isShaking PinPad.submitTimers PinPad.shakeTimers String.append String.length
       Nat.eqb PinPad.MAX_PIN_LENGTH app PinPad.run].
  reflexivity.
Qed.

Lemma pad_run_one (s : PinPad.State) (e : PinPad.Event) :
  PinPad.run s [e] = PinPad.step s e.
Proof. cbn [PinPad.run]. destruct (PinPad.step s e). rewrite app_nil_r. reflexivity. Qed.

(** The submit timer on a pad that shows four digits. *)
Lemma submit_full (p : string) (m : PinPad.Mode) (e sm : option string) (cp : string)
      (ic sh : bool) (st sk : nat) :
  String.length p = PinPad.MAX_PIN_LENGTH ->
  PinPad.step (PinPad.MkState m e sm p cp ic sh (S st) sk) PinPad.SubmitTimeout
  = match m with
    | PinPad.setup =>
        if negb ic then (PinPad.MkState m e sm "" p true sh st sk, [])
        else if String.eqb p cp
             then (PinPad.MkState m e sm p cp ic sh st sk, [PinPad.setup_done p])
             else (PinPad.MkState m (Some "입력한 PIN이 일치하지 않습니다") sm "" "" false
                                  true st (S sk), [])
    | _ => (PinPad.MkState m e sm p cp ic sh st sk, [PinPad.submit p])
    end.
Proof.
  intros Hl. cbn [PinPad.step PinPad.submitTimers]. unfold PinPad.handleSubmit.
  cbn [PinPad.pin PinPad.mode PinPad.errorMsg PinPad.successMsg PinPad.confirmPin
       PinPad.isConfirming PinPad.isShaking PinPad.shakeTimers PinPad.submitTimers].
  rewrite Hl. change (PinPad.MAX_PIN_LENGTH <? PinPad.MIN_PIN_LENGTH)%nat with false.
  destruct m; reflexivity.
Qed.

(** The submit timer on a pad that shows fewer digits. *)
Lemma submit_short (p : string) (m : PinPad.Mode) (e sm : option string) (cp : string)
      (ic sh : bool) (st sk : nat) :
  (String.length p <? PinPad.MIN_PIN_LENGTH)%nat = true ->
  PinPad.step (PinPad.MkState m e sm p cp ic sh (S st) sk) PinPad.SubmitTimeout
  = (match m with
     | PinPad.setup =>
         PinPad.MkState m (Some "PIN은 4자리여야 합니다") sm "" "" false true st (S sk)
     | _ => PinPad.MkState m (Some "PIN은 4자리여야 합니다") sm "" cp ic true st (S sk)
     end, []).
Proof.
  intros Hl. cbn [PinPad.step PinPad.submitTimers]. unfold PinPad.handleSubmit.
  cbn [PinPad.pin PinPad.mode PinPad.errorMsg PinPad.successMsg PinPad.confirmPin
       PinPad.isConfirming PinPad.isShaking PinPad.shakeTimers PinPad.submitTimers].
  rewrite Hl. destruct m; reflexivity.
Qed.

(** X17. In the modes [verify] and [remove], four digits typed on a fresh
    pad are dispatched as they were typed, once, when the 200 ms timer
    runs; the entry stays on the pad. *)
Theorem typed_pin_is_submitted (m : PinPad.Mode) (p : string) :
  m <> PinPad.setup ->
  String.length p = PinPad.MAX_PIN_LENGTH ->
  forallb Js.is_digit (Js.chars p) = true ->
  PinPad.run (PinPad.mount m) (Typing.entry p)
  = (PinPad.MkState m None None p "" false false 0 0, [PinPad.submit p]).
Proof.
  intros Hm Hl Hd. unfold Typing.entry, PinPad.mount.
  rewrite pad_run_app, (type_pin p _ _ _ _ _ _ _ _ Hl Hd).
  cbn [fst snd app]. rewrite pad_run_one, (submit_full p _ _ _ _ _ _ _ _ Hl).
  destruct m; [|contradiction Hm; reflexivity|]; reflexivity.
Qed.

Lemma typed_pin_is_submitted_witness :
  PinPad.run (PinPad.mount PinPad.verify) (Typing.entry "0420")
  = (PinPad.MkState PinPad.verify None None "0420" "" false false 0 0,
     [PinPad.submit "0420"]).
Proof.
  refine (typed_pin_is_submitted PinPad.verify "0420" _ eq_refl eq_refl).
  discriminate.
Defined.

(** X18. In the mode [setup] a new PIN is dispatched exactly when it has
    been typed twice; when the second entry differs nothing is dispatched,
    the pad shows the mismatch and starts over with both entries cleared. *)
Theorem setup_needs_the_same_pin_twice (p q : string) :
  String.length p = PinPad.MAX_PIN_LENGTH ->
  forallb Js.is_digit (Js.chars p) = true ->
  String.length q = PinPad.MAX_PIN_LENGTH ->
  forallb Js.is_digit (Js.chars q) = true ->
  PinPad.run (PinPad.mount PinPad.setup) (Typing.entry p ++ Typing.entry q)
  = if String.eqb q p
    then (PinPad.MkState PinPad.setup None None q p true false 0 0, [PinPad.setup_done q])
    else (PinPad.MkState PinPad.setup (Some "입력한 PIN이 일치하지 않습니다") None
                         "" "" false true 0 1, []).
Proof.
  intros Hlp Hdp Hlq Hdq.
  rewrite (pad_run_app (Typing.entry p) (Typing.entry q)).
  unfold Typing.entry, PinPad.mount.
  rewrite (pad_run_app (Typing.keys p)), (type_pin p _ _ _ _ _ _ _ _ Hlp Hdp).
  cbn [fst snd app]. rewrite pad_run_one, (submit_full p _ _ _ _ _ _ _ _ Hlp).
  cbn [negb fst snd app].
  rewrite (pad_run_app (Typing.keys q)), (type_pin q _ _ _ _ _ _ _ _ Hlq Hdq).
  cbn [fst snd app]. rewrite pad_run_one, (submit_full q _ _ _ _ _ _ _ _ Hlq).
  cbn [negb]. destruct (String.eqb q p); reflexivity.
Qed.

Lemma setup_needs_the_same_pin_twice_witness :
  PinPad.run (PinPad.mount PinPad.setup) (Typing.entry "0420" ++ Typing.entry "0421")
  = (PinPad.MkState PinPad.setup (Some "입력한 PIN이 일치하지 않습니다") None
                    "" "" false true 0 1, []).
Proof.
  exact (setup_needs_the_same_pin_twice "0420" "0421" eq_refl eq_refl eq_refl eq_refl).
Defined.

(** Backspace on a pad that shows something. *)
Lemma type_backspace (a : ascii) (p : string) (m : PinPad.Mode) (e sm : option string)
      (cp : string) (ic sh : bool) (st sk : nat) :
  PinPad.step (PinPad.MkState m e sm (String a p) cp ic sh st sk)
              (PinPad.Keydown "Backspace")
  = (PinPad.MkState m None sm (Js.drop_last (String a p)) cp ic sh st sk, []).
Proof. reflexivity. Qed.

(** X19. The submit timer set by the fourth digit is not cleared when the
    digit is taken back.  If the last digit is corrected before the timer
    runs, two timers run on the corrected entry: in the mode [verify] the
    PIN is dispatched twice, and in the mode [setup] the second timer finds
    the pad already emptied for the confirmation, reports a PIN that is too
    short and throws the first entry away. *)
Theorem corrected_entry_is_submitted_twice (p : string) (d : ascii) :
  String.length p = PinPad.MAX_PIN_LENGTH ->
  forallb Js.is_digit (Js.chars p) = true ->
  Js.is_digit d = true ->
  let corrected := String.append (Js.drop_last p) (String d EmptyString) in
  let typed := Typing.keys p
               ++ [PinPad.Keydown "Backspace"; PinPad.Keydown (String d EmptyString);
                   PinPad.SubmitTimeout; PinPad.SubmitTimeout] in
  snd (PinPad.run (PinPad.mount PinPad.verify) typed)
  = [PinPad.submit corrected; PinPad.submit corrected]
  /\ PinPad.run (PinPad.mount PinPad.setup) typed
     = (PinPad.MkState PinPad.setup (Some "PIN은 4자리여야 합니다") None "" "" false true 0 1,
        []).
Proof.
  intros Hl Hp Hd. cbv zeta. unfold PinPad.mount.
  rewrite !pad_run_app, !(type_pin p _ _ _ _ _ _ _ _ Hl Hp).
  cbn [fst snd app].
  destruct p as [|a [|b [|c [|x [|y p]]]]]; try discriminate Hl.
  rewrite !pad_run_cons, !type_backspace.
  change (Js.drop_last (String a (String b (String c (String x EmptyString)))))
    with (String a (String b (String c EmptyString))).
  cbn [fst snd app].
  rewrite !(type_digit d _ Hd) by reflexivity.
  cbn [fst snd app PinPad.mode PinPad.successMsg PinPad.pin PinPad.confirmPin
       PinPad.isConfirming PinPad.isShaking PinPad.submitTimers PinPad.shakeTimers
       String.append String.length Nat.eqb PinPad.MAX_PIN_LENGTH].
  rewrite !submit_full by reflexivity.
  cbn [negb fst snd app].
  rewrite !submit_full by reflexivity.
  rewrite submit_short by reflexivity.
  split; reflexivity.
Qed.

Lemma corrected_entry_is_submitted_twice_witness :
  let typed := Typing.keys "0421"
               ++ [PinPad.Keydown "Backspace"; PinPad.Keydown "0";
                   PinPad.SubmitTimeout; PinPad.SubmitTimeout] in
  snd (PinPad.run (PinPad.mount PinPad.verify) typed)
  = [PinPad.submit "0420"; PinPad.submit "0420"]
  /\ PinPad.run (PinPad.mount PinPad.setup) typed
     = (PinPad.MkState PinPad.setup (Some "PIN은 4자리여야 합니다") None "" "" false true 0 1,
        []).
Proof.
  exact (corrected_entry_is_submitted_twice "0421" "0"%char eq_refl eq_refl eq_refl).
Defined.

(** ** The lock screen of the page *)

Lemma page_run_cons (s : Page.State) (e : Page.Event) (es : list Page.Event) :
  Page.run s (e :: es)
  = (fst (Page.run (fst (Page.step s e)) es),
     snd (Page.step s e) ++ snd (Page.run (fst (Page.step s e)) es)).
Proof.
  cbn [Page.run].
  destruct (Page.step s e) as [s1 o1].
  cbn [fst snd]. destruct (Page.run s1 es) as [s2 o2]. reflexivity.
Qed.

Lemma page_run_app (a b : list Page.Event) (s : Page.State) :
  Page.run s (a ++ b)
  = (fst (Page.run (fst (Page.run s a)) b),
     snd (Page.run s a) ++ snd (Page.run (fst (Page.run s a)) b)).
Proof.
  revert s. induction a as [|e a IH]; intros s.
  - cbn [app Page.run fst snd]. destruct (Page.run s b). reflexivity.
  - cbn [app]. rewrite !page_run_cons, IH. cbn [fst snd]. rewrite app_assoc. reflexivity.
Qed.

Lemma on_dispatch_no_accounts (p : Page.PinState) (ds : list PinPad.Dispatch) :
  ~ In Page.get_accounts (flat_map (Page.on_dispatch p) ds).
Proof.
  induction ds as [|d ds IH]; [intros []|].
  cbn [flat_map]. rewrite in_app_iff. intros [H|H]; [|exact (IH H)].
  destruct p, d; cbn in H; try contradiction; destruct H as [H|[]]; discriminate H.
Qed.

(** One event opens the page, or asks for the accounts, only when it is a
    positive answer. *)
Lemma page_step_opens (s : Page.State) (e : Page.Event) :
  Page.pinState s <> Page.unlocked ->
  Page.pinState (fst (Page.step s e)) = Page.unlocked
  \/ In Page.get_accounts (snd (Page.step s e)) ->
  Typing.is_positive_answer e = true.
Proof.
  intros Hs.
  destruct e as [|pe|[[[|]|x]|[[|]|x]|[u|x]|[l|x]]| |k];
    cbn [Page.step Typing.is_positive_answer]; try reflexivity.
  - cbn. intros [H|[H|[]]]; [contradiction|discriminate H].
  - destruct (Page.pinPadRef s) as [pad|].
    + destruct (PinPad.step pad pe) as [pad' ds]. cbn [fst snd Page.pinState].
      intros [H|H]; [contradiction|]. contradiction (on_dispatch_no_accounts _ _ H).
    + cbn. intros [H|[]]. contradiction.
  - cbn [fst snd Page.initializePinState]. rewrite pinState_set_pinState.
    intros [H|[]]. discriminate H.
  - cbn [fst snd Page.initializePinState]. rewrite pinState_set_pinState.
    intros [H|[]]. discriminate H.
  - cbn [fst snd Page.initializePinState]. rewrite pinState_set_pinState.
    intros [H|[]]. discriminate H.
  - cbn. intros [H|[]]. contradiction.
  - cbn. intros [H|[]]. contradiction.
  - cbn. intros [H|[]]. contradiction.
  - cbn. intros [H|[]]. contradiction.
  - cbn. intros [H|[]]. contradiction.
  - destruct (Page.pinState s) eqn:E; cbn; intros [H|H];
      try discriminate H; try contradiction; try congruence.
  - destruct (nth_error (Page.removedPads s) k) as [[p pad]|].
    + destruct (PinPad.step pad PinPad.SubmitTimeout) as [pad' ds].
      cbn [fst snd Page.pinState].
      intros [H|H]; [contradiction|]. contradiction (on_dispatch_no_accounts _ _ H).
    + cbn. intros [H|[]]. contradiction.
Qed.

Lemma page_run_opens (es : list Page.Event) (s : Page.State) :
  Page.pinState s <> Page.unlocked ->
  Page.pinState (fst (Page.run s es)) = Page.unlocked
  \/ In Page.get_accounts (snd (Page.run s es)) ->
  existsb Typing.is_positive_answer es = true.
Proof.
  revert s. induction es as [|e es IH]; intros s Hs.
  - cbn. intros [H|[]]. contradiction.
  - rewrite page_run_cons. cbn [fst snd existsb]. rewrite in_app_iff.
    destruct (Typing.is_positive_answer e) eqn:Ee; [reflexivity|]. cbn [orb].
    assert (H1 : Page.pinState (fst (Page.step s e)) <> Page.unlocked).
    { intros H. rewrite (page_step_opens s e Hs (or_introl H)) in Ee. discriminate Ee. }
    intros [H|[H|H]].
    + apply (IH _ H1). left. exact H.
    + rewrite (page_step_opens s e Hs (or_intror H)) in Ee. discriminate Ee.
    + apply (IH _ H1). right. exact H.
Qed.

(** X20. The page leaves the lock screen, and asks the back end for the
    accounts, only after [verify_pin] has answered [true] or [set_pin] has
    succeeded: no key, timer, rejection or other answer opens it. *)
Theorem unlock_needs_a_positive_answer (es : list Page.Event) :
  Page.pinState (fst (Page.run Page.initial es)) = Page.unlocked
  \/ In Page.get_accounts (snd (Page.run Page.initial es)) ->
  existsb Typing.is_positive_answer es = true.
Proof. apply page_run_opens. discriminate. Qed.

(** The page opened by the answer [true]. *)
Lemma unlock_needs_a_positive_answer_witness :
  let es := [Page.Mount; Page.Settled (Page.has_pin_reply (Js.Resolved true));
             Page.Settled (Page.verify_pin_reply (Js.Resolved true))] in
  Page.pinState (fst (Page.run Page.initial es)) = Page.unlocked
  /\ existsb Typing.is_positive_answer es = true.
Proof.
  cbv zeta. split; [reflexivity|].
  exact (unlock_needs_a_positive_answer
           [Page.Mount; Page.Settled (Page.has_pin_reply (Js.Resolved true));
            Page.Settled (Page.verify_pin_reply (Js.Resolved true))]
           (or_introl eq_refl)).
Defined.

Lemma rendered_pad_entry_ok (p : Page.PinState) (pad : PinPad.State) :
  Page.rendered_pad p = Some pad -> PinPad.entry_ok pad.
Proof.
  destruct p; cbn; intros H; try discriminate H; injection H as <-; apply entry_ok_empty.
Qed.

Lemma removed_entry_ok (p : Page.PinState) (shown : option PinPad.State) :
  (forall pad, shown = Some pad -> PinPad.entry_ok pad) ->
  Forall (fun q => PinPad.entry_ok (snd q)) (Page.removed p shown).
Proof.
  intros H. destruct shown as [pad|]; cbn [Page.removed]; [|constructor].
  destruct (0 <? PinPad.submitTimers pad)%nat; constructor; [|constructor].
  exact (H pad eq_refl).
Qed.

Lemma set_pinState_pads_ok (p : Page.PinState) (s : Page.State) :
  Typing.pads_ok s -> Typing.pads_ok (Page.set_pinState p s).
Proof.
  intros [Hs Hr]. unfold Page.set_pinState.
  destruct (Page.PinState_eqb (Page.pinState s) p); [split; assumption|].
  split; cbn [Page.pinPadRef Page.removedPads].
  - apply rendered_pad_entry_ok.
  - apply Forall_app. split; [exact Hr|]. apply removed_entry_ok. exact Hs.
Qed.

Lemma pad_triggerError_pads_ok (msg : string) (s : Page.State) :
  Typing.pads_ok s -> Typing.pads_ok (Page.pad_triggerError msg s).
Proof.
  intros [_ Hr]. split; cbn [Page.pad_triggerError Page.pinPadRef Page.removedPads];
    [|exact Hr].
  intros pad. destruct (Page.pinPadRef s); cbn; intros H; [|discriminate H].
  injection H as <-. apply triggerError_entry_ok.
Qed.

Lemma replace_nth_pads_ok (k : nat) (q : Page.PinState * PinPad.State)
      (l : list (Page.PinState * PinPad.State)) :
  PinPad.entry_ok (snd q) ->
  Forall (fun q => PinPad.entry_ok (snd q)) l ->
  Forall (fun q => PinPad.entry_ok (snd q)) (Page.replace_nth k q l).
Proof.
  intros Hq Hl. revert k.
  induction Hl as [|y l Hy Hl IH]; intros k; [destruct k; constructor|].
  destruct k as [|k]; cbn [Page.replace_nth]; constructor; auto.
Qed.

Lemma removed_pad_ok (k : nat) (q : Page.PinState * PinPad.State)
      (l : list (Page.PinState * PinPad.State)) :
  Forall (fun q => PinPad.entry_ok (snd q)) l ->
  nth_error l k = Some q -> PinPad.entry_ok (snd q).
Proof.
  intros Hl Hk. apply nth_error_In in Hk.
  exact (proj1 (Forall_forall _ l) Hl q Hk).
Qed.

Lemma on_dispatch_pins (ps : Page.PinState) (ds : list PinPad.Dispatch)
      (c : Page.Command) (p : string) :
  Forall (fun d => Vault.valid_pin (PinPad.dispatched_pin d) = true) ds ->
  In c (flat_map (Page.on_dispatch ps) ds) ->
  Typing.command_pin c = Some p ->
  Vault.valid_pin p = true.
Proof.
  intros Hds. induction Hds as [|d ds Hd _ IH]; [intros []|].
  cbn [flat_map]. rewrite in_app_iff. intros [H|H] Hc; [|exact (IH H Hc)].
  destruct ps, d; cbn in H; try contradiction; destruct H as [<-|[]];
    cbn in Hc; injection Hc as <-; exact Hd.
Qed.

Lemma loadAccounts_no_pin (s : Page.State) (c : Page.Command) (p : string) :
  In c (Page.loadAccounts s) -> Typing.command_pin c = Some p -> False.
Proof.
  unfold Page.loadAccounts. destruct (Page.pinState s); cbn; try tauto.
  intros [<-|[]] H. discriminate H.
Qed.

(** One event keeps the entries of all pads well-formed, those of the
    removed pads included, and the commands it invokes carry four-digit
    PINs. *)
Lemma page_step_pins (s : Page.State) (e : Page.Event) :
  Typing.pads_ok s ->
  Typing.pads_ok (fst (Page.step s e))
  /\ forall c p, In c (snd (Page.step s e)) -> Typing.command_pin c = Some p ->
                 Vault.valid_pin p = true.
Proof.
  intros Hs.
  destruct e as [|pe|[r|[[|]|x]|[u|x]|[l|x]]| |k]; cbn [Page.step].
  - split; [exact Hs|]. intros c p [<-|[]] H. discriminate H.
  - destruct Hs as [Hs Hr]. destruct (Page.pinPadRef s) as [pad|] eqn:Ep.
    + destruct (step_entry_ok pad pe (Hs pad eq_refl)) as [Hok Hds].
      destruct (PinPad.step pad pe) as [pad' ds]. cbn [fst snd] in *.
      split.
      * split; cbn [Page.pinPadRef Page.removedPads]; [|exact Hr].
        intros pad0 H. injection H as <-. exact Hok.
      * intros c p. apply on_dispatch_pins. exact Hds.
    + cbn [fst snd]. split; [|intros c p []].
      split; [rewrite Ep; intros pad H; discriminate H|exact Hr].
  - cbn [fst snd]. split; [|intros c p []].
    destruct r as [[|]|x]; apply set_pinState_pads_ok; exact Hs.
  - cbn [Page.handlePinSubmit fst snd]. split.
    + apply set_pinState_pads_ok. exact Hs.
    + intros c p H Hc. exact (False_ind _ (loadAccounts_no_pin _ c p H Hc)).
  - cbn [Page.handlePinSubmit fst snd].
    split; [apply pad_triggerError_pads_ok; exact Hs|intros c p []].
  - cbn [Page.handlePinSubmit fst snd].
    split; [apply pad_triggerError_pads_ok; exact Hs|intros c p []].
  - cbn [Page.handlePinSetup fst snd]. split.
    + apply set_pinState_pads_ok. destruct Hs as [Hs Hr]. split; assumption.
    + intros c p H Hc. exact (False_ind _ (loadAccounts_no_pin _ c p H Hc)).
  - cbn [Page.handlePinSetup fst snd].
    split; [apply pad_triggerError_pads_ok; exact Hs|intros c p []].
  - cbn [fst snd]. split; [|intros c p []]. destruct Hs as [Hs Hr]. split; assumption.
  - cbn [fst snd]. split; [|intros c p []]. destruct Hs as [Hs Hr]. split; assumption.
  - destruct (Page.pinState s); cbn [fst snd];
      (split; [first [exact Hs|split; [intros pad H; discriminate H|constructor]]|]);
      intros c p H Hc; try contradiction; destruct H as [<-|[]]; discriminate Hc.
  - destruct Hs as [Hs Hr].
    destruct (nth_error (Page.removedPads s) k) as [[ps pad]|] eqn:Ek.
    + pose proof (removed_pad_ok k (ps, pad) _ Hr Ek) as Hpad. cbn [snd] in Hpad.
      destruct (step_entry_ok pad PinPad.SubmitTimeout Hpad) as [Hok Hds].
      destruct (PinPad.step pad PinPad.SubmitTimeout) as [pad' ds]. cbn [fst snd] in *.
      split.
      * split; cbn [Page.pinPadRef Page.removedPads]; [exact Hs|].
        apply replace_nth_pads_ok; assumption.
      * intros c p. apply on_dispatch_pins. exact Hds.
    + cbn [fst snd]. split; [split; assumption|intros c p []].
Qed.

Lemma page_run_pins (es : list Page.Event) (s : Page.State) :
  Typing.pads_ok s ->
  forall c p, In c (snd (Page.run s es)) -> Typing.command_pin c = Some p ->
              Vault.valid_pin p = true.
Proof.
  revert s. induction es as [|e es IH]; intros s Hs c p.
  - intros [].
  - rewrite page_run_cons. cbn [snd]. rewrite in_app_iff.
    destruct (page_step_pins s e Hs) as [H1 Hc]. intros [H|H].
    + exact (Hc c p H).
    + exact (IH _ H1 c p H).
Qed.

(** X21. Every PIN the page hands to [verify_pin] or [set_pin] is a string
    of exactly four decimal digits, whatever is typed, whatever the back
    end answers and whichever timers run, those of pads that are no longer
    shown included. *)
Theorem page_sends_four_digit_pins
        (es : list Page.Event) (c : Page.Command) (p : string) :
  In c (snd (Page.run Page.initial es)) ->
  Typing.command_pin c = Some p ->
  String.length p = PinPad.MAX_PIN_LENGTH /\ forallb Js.is_digit (Js.chars p) = true.
Proof.
  intros H Hc.
  assert (Hv : Vault.valid_pin p = true).
  { apply (page_run_pins es Page.initial) with (c := c); try assumption.
    split; [intros pad Hp; discriminate Hp|constructor]. }
  unfold Vault.valid_pin in Hv. apply andb_true_iff in Hv as [Hl Hd].
  apply Nat.eqb_eq in Hl. split; assumption.
Qed.

(** A locked page on which 0420 is typed. *)
Lemma page_sends_four_digit_pins_witness :
  let es := [Page.Mount; Page.Settled (Page.has_pin_reply (Js.Resolved true))]
              ++ map Page.Pad (Typing.entry "0420") in
  In (Page.verify_pin "0420") (snd (Page.run Page.initial es))
  /\ String.length "0420" = PinPad.MAX_PIN_LENGTH
  /\ forallb Js.is_digit (Js.chars "0420") = true.
Proof.
  cbv zeta.
  assert (H : In (Page.verify_pin "0420")
                 (snd (Page.run Page.initial
                                ([Page.Mount;
                                  Page.Settled (Page.has_pin_reply (Js.Resolved true))]
                                   ++ map Page.Pad (Typing.entry "0420")))))
    by (right; left; reflexivity).
  split; [exact H|].
  exact (page_sends_four_digit_pins _ (Page.verify_pin "0420") "0420" H eq_refl).
Defined.

(** Events of the pad pass through the page to the pad it shows, and what
    the pad dispatches goes to the handler bound for the PIN state. *)
Lemma page_pad_run (es : list PinPad.Event) (acc : list Page.Account) (ps : Page.PinState)
      (pad : PinPad.State) (ts : list (string * Page.ToastType))
      (rm : list (Page.PinState * PinPad.State)) :
  Page.run (Page.MkState acc ps (Some pad) ts rm) (map Page.Pad es)
  = (Page.MkState acc ps (Some (fst (PinPad.run pad es))) ts rm,
     flat_map (Page.on_dispatch ps) (snd (PinPad.run pad es))).
Proof.
  revert pad. induction es as [|e es IH]; intros pad; [reflexivity|].
  cbn [map]. rewrite page_run_cons, pad_run_cons.
  cbn [Page.step Page.pinPadRef Page.accounts Page.pinState Page.toasts Page.removedPads].
  destruct (PinPad.step pad e) as [pad' ds]. cbn [fst snd].
  rewrite IH. cbn [fst snd]. rewrite flat_map_app. reflexivity.
Qed.

(** A PIN typed on the pad of a page and submitted by the timer. *)
Lemma page_entry (p : string) (acc : list Page.Account) (ps : Page.PinState)
      (m : PinPad.Mode) (e sm : option string) (cp : string) (ic sh : bool) (sk : nat)
      (ts : list (string * Page.ToastType)) (rm : list (Page.PinState * PinPad.State)) :
  String.length p = PinPad.MAX_PIN_LENGTH ->
  forallb Js.is_digit (Js.chars p) = true ->
  Page.run (Page.MkState acc ps (Some (PinPad.MkState m e sm "" cp ic sh 0 sk)) ts rm)
           (map Page.Pad (Typing.entry p))
  = (Page.MkState
       acc ps
       (Some (fst (PinPad.step (PinPad.MkState m None sm p cp ic sh 1 sk)
                               PinPad.SubmitTimeout))) ts rm,
     flat_map (Page.on_dispatch ps)
              (snd (PinPad.step (PinPad.MkState m None sm p cp ic sh 1 sk)
                                PinPad.SubmitTimeout))).
Proof.
  intros Hl Hd. rewrite page_pad_run. unfold Typing.entry.
  rewrite pad_run_app, (type_pin p _ _ _ _ _ _ _ _ Hl Hd).
  cbn [fst snd app]. rewrite pad_run_one. reflexivity.
Qed.

(** X22. On a locked page a wrong PIN followed by the right one: each entry
    is sent to [verify_pin] once, the answer [false] clears the pad and
    shows the error, the answer [true] opens the page and asks for the
    accounts. *)
Theorem wrong_pin_then_right_pin (p q : string) :
  String.length p = PinPad.MAX_PIN_LENGTH ->
  forallb Js.is_digit (Js.chars p) = true ->
  String.length q = PinPad.MAX_PIN_LENGTH ->
  forallb Js.is_digit (Js.chars q) = true ->
  let first := [Page.Mount; Page.Settled (Page.has_pin_reply (Js.Resolved true))]
                 ++ map Page.Pad (Typing.entry p)
                 ++ [Page.Settled (Page.verify_pin_reply (Js.Resolved false))] in
  let second := map Page.Pad (Typing.entry q)
                  ++ [Page.Settled (Page.verify_pin_reply (Js.Resolved true))] in
  Page.run Page.initial first
  = (Page.MkState [] Page.locked
                  (Some (PinPad.MkState PinPad.verify (Some "PIN 번호가 일치하지 않습니다")
                                        None "" "" false true 0 1)) [] [],
     [Page.has_pin; Page.verify_pin p])
  /\ Page.run Page.initial (first ++ second)
     = (Page.MkState [] Page.unlocked None [] [],
        [Page.has_pin; Page.verify_pin p; Page.verify_pin q; Page.get_accounts]).
Proof.
  intros Hlp Hdp Hlq Hdq. cbv zeta.
  assert (H1 : Page.run Page.initial
                 ([Page.Mount; Page.Settled (Page.has_pin_reply (Js.Resolved true))]
                    ++ map Page.Pad (Typing.entry p)
                    ++ [Page.Settled (Page.verify_pin_reply (Js.Resolved false))])
               = (Page.MkState [] Page.locked
                    (Some (PinPad.MkState PinPad.verify (Some "PIN 번호가 일치하지 않습니다")
                                          None "" "" false true 0 1)) [] [],
                  [Page.has_pin; Page.verify_pin p])).
  { cbn [app]. rewrite !page_run_cons.
    cbn [Page.step Page.initial Page.initializePinState Page.set_pinState Page.pinState
         Page.PinState_eqb Page.rendered_pad Page.accounts Page.toasts Page.removedPads
         Page.pinPadRef Page.removed fst snd app].
    unfold PinPad.mount.
    rewrite page_run_app, (page_entry p _ _ _ _ _ _ _ _ _ _ _ Hlp Hdp).
    rewrite (submit_full p _ _ _ _ _ _ _ _ Hlp).
    reflexivity. }
  split; [exact H1|].
  rewrite page_run_app, H1. cbn [fst snd].
  rewrite page_run_app, (page_entry q _ _ _ _ _ _ _ _ _ _ _ Hlq Hdq).
  rewrite (submit_full q _ _ _ _ _ _ _ _ Hlq).
  reflexivity.
Qed.

Lemma wrong_pin_then_right_pin_witness :
  Page.run Page.initial
           (([Page.Mount; Page.Settled (Page.has_pin_reply (Js.Resolved true))]
               ++ map Page.Pad (Typing.entry "1111")
               ++ [Page.Settled (Page.verify_pin_reply (Js.Resolved false))])
              ++ map Page.Pad (Typing.entry "0420")
              ++ [Page.Settled (Page.verify_pin_reply (Js.Resolved true))])
  = (Page.MkState [] Page.unlocked None [] [],
     [Page.has_pin; Page.verify_pin "1111"; Page.verify_pin "0420"; Page.get_accounts]).
Proof.
  exact (proj2 (wrong_pin_then_right_pin "1111" "0420" eq_refl eq_refl eq_refl eq_refl)).
Defined.

(** ** When the cards ask for a code *)

Lemma time_step_changes_at_multiples (t : Z) :
  (AccountCard.timeStep (t + 1) =? AccountCard.timeStep t)
  = negb ((t + 1) mod 30 =? 0).
Proof.
  unfold AccountCard.timeStep.
  pose proof (Z.div_mod t 30 ltac:(lia)).
  pose proof (Z.mod_pos_bound t 30 ltac:(lia)).
  pose proof (Z.div_mod (t + 1) 30 ltac:(lia)).
  pose proof (Z.mod_pos_bound (t + 1) 30 ltac:(lia)).
  destruct ((t + 1) / 30 =? t / 30) eqn:E, ((t + 1) mod 30 =? 0) eqn:F;
    try reflexivity; exfalso;
    [apply Z.eqb_eq in E; apply Z.eqb_eq in F|apply Z.eqb_neq in E; apply Z.eqb_neq in F];
    lia.
Qed.

Lemma tick_requests (dateNow : Z) (s : AccountCard.State) :
  length (snd (AccountCard.tick dateNow s))
  = if AccountCard.timeStep (AccountCard.seconds dateNow) =? AccountCard.lastTimeStep s
    then 0%nat else 1%nat.
Proof.
  unfold AccountCard.tick.
  destruct (AccountCard.timeStep (AccountCard.seconds dateNow) =? AccountCard.lastTimeStep s);
    cbn [negb]; [reflexivity|].
  destruct (negb (AccountCard.lastTimeStep s =? -1)); reflexivity.
Qed.

(** X23. A clock card that ticks once a second asks for a new code at
    exactly those ticks at which the wall-clock second is a multiple of 30,
    and at no tick in between. *)
Theorem clock_card_asks_at_multiples_of_30 (n : nat) :
  forall (t0 : Z) (s : AccountCard.State) (k : nat),
    AccountCard.lastTimeStep s = AccountCard.timeStep t0 ->
    (k < n)%nat ->
    nth k (AccountCard.run s (AccountCard.second_ticks t0 n)) 0%nat
    = if (t0 + Z.of_nat k + 1) mod 30 =? 0 then 1%nat else 0%nat.
Proof.
  induction n as [|n IH]; intros t0 s k Hlast Hk; [lia|].
  rewrite second_ticks_succ. cbn [AccountCard.run AccountCard.step].
  pose proof (tick_sets_lastTimeStep (1000 * (t0 + 1)) s) as Hstep.
  pose proof (tick_requests (1000 * (t0 + 1)) s) as Hreq.
  rewrite seconds_of_whole in Hstep, Hreq.
  rewrite Hlast, time_step_changes_at_multiples in Hreq.
  destruct (AccountCard.tick (1000 * (t0 + 1)) s) as [s1 reqs].
  cbn [fst snd] in Hstep, Hreq.
  destruct k as [|k]; cbn [nth].
  - rewrite Hreq, Z.add_0_r. destruct ((t0 + 1) mod 30 =? 0); reflexivity.
  - rewrite (IH (t0 + 1) s1 k Hstep) by lia.
    replace (t0 + 1 + Z.of_nat k + 1) with (t0 + Z.of_nat (S k) + 1) by lia.
    reflexivity.
Qed.

(** A card that last ticked at second 58: of the next five ticks the second
    one, at second 60, asks for a code. *)
Lemma clock_card_asks_at_multiples_of_30_witness :
  let s := fst (AccountCard.tick 58000 (AccountCard.create Sample.account)) in
  AccountCard.lastTimeStep s = AccountCard.timeStep 58
  /\ nth 1 (AccountCard.run s (AccountCard.second_ticks 58 5)) 0%nat = 1%nat.
Proof.
  cbv zeta. split; [reflexivity|].
  exact (clock_card_asks_at_multiples_of_30
           5 58 (fst (AccountCard.tick 58000 (AccountCard.create Sample.account))) 1
           eq_refl ltac:(lia)).
Defined.

Lemma countdown_counts_down (n : nat) :
  forall s : CountdownCard.State,
    CountdownCard.remainingSeconds s = Z.of_nat (S n) ->
    CountdownCard.run s (repeat CountdownCard.Interval (S n)) = repeat 0%nat n ++ [1%nat].
Proof.
  induction n as [|n IH]; intros s Hr.
  - cbn [repeat CountdownCard.run CountdownCard.step app]. unfold CountdownCard.interval.
    cbn [CountdownCard.remainingSeconds]. rewrite Hr. reflexivity.
  - change (repeat CountdownCard.Interval (S (S n)))
      with (CountdownCard.Interval :: repeat CountdownCard.Interval (S n)).
    cbn [CountdownCard.run CountdownCard.step]. unfold CountdownCard.interval.
    cbn [CountdownCard.remainingSeconds]. rewrite Hr.
    destruct (Z.of_nat (S (S n)) - 1 <=? 0) eqn:E; [apply Z.leb_le in E; lia|].
    cbn [length repeat app]. f_equal. apply IH.
    cbn [CountdownCard.remainingSeconds]. lia.
Qed.

(** X24. The countdown card that has been answered with [r] remaining
    seconds, [r] at least 1, asks for the next code at its [r]-th tick and
    at none before. *)
Theorem countdown_card_asks_when_the_answer_runs_out
        (resp : Otp.Response) (s : CountdownCard.State) :
  1 <= Otp.remaining_seconds resp ->
  let r := Z.to_nat (Otp.remaining_seconds resp) in
  CountdownCard.run (CountdownCard.fetchOtp_settled (Js.Resolved resp) s)
                    (repeat CountdownCard.Interval r)
  = repeat 0%nat (r - 1) ++ [1%nat].
Proof.
  intros Hr. cbv zeta.
  destruct (Z.to_nat (Otp.remaining_seconds resp)) as [|n] eqn:E; [lia|].
  replace (S n - 1)%nat with n by lia.
  apply countdown_counts_down. cbn [CountdownCard.fetchOtp_settled
                                     CountdownCard.remainingSeconds]. lia.
Qed.

(** An answer that is good for three more seconds. *)
Lemma countdown_card_asks_when_the_answer_runs_out_witness :
  CountdownCard.run
    (CountdownCard.fetchOtp_settled (Js.Resolved (Otp.MkResponse "492039" 3))
                                    (CountdownCard.create Sample.account))
    (repeat CountdownCard.Interval 3)
  = [0%nat; 0%nat; 1%nat].
Proof.
  exact (countdown_card_asks_when_the_answer_runs_out
           (Otp.MkResponse "492039" 3) (CountdownCard.create Sample.account)
           ltac:(cbn; lia)).
Defined.

(** ** The pad and the handler bound to it *)

Lemma triggerError_mode (msg : string) (pad : PinPad.State) :
  PinPad.mode (PinPad.triggerError msg pad) = PinPad.mode pad.
Proof. unfold PinPad.triggerError. cbn. destruct (PinPad.mode pad); reflexivity. Qed.

Lemma handleSubmit_mode (pad : PinPad.State) :
  PinPad.mode (fst (PinPad.handleSubmit pad)) = PinPad.mode pad
  /\ Forall (fun d => Typing.consistent (PinPad.mode pad) d = true)
            (snd (PinPad.handleSubmit pad)).
Proof.
  unfold PinPad.handleSubmit.
  destruct (String.length (PinPad.pin pad) <? PinPad.MIN_PIN_LENGTH)%nat; cbn [fst snd].
  - split; [apply triggerError_mode|constructor].
  - destruct (PinPad.mode pad) eqn:Em; cbn [fst snd].
    + split; [first [exact Em|reflexivity]|]. repeat constructor.
    + destruct (negb (PinPad.isConfirming pad)); cbn [fst snd PinPad.mode];
        [split; [first [exact Em|reflexivity]|constructor]|].
      destruct (String.eqb (PinPad.pin pad) (PinPad.confirmPin pad)); cbn [fst snd].
      * split; [first [exact Em|reflexivity]|]. repeat constructor.
      * split; [rewrite triggerError_mode; first [exact Em|reflexivity]|constructor].
    + split; [first [exact Em|reflexivity]|]. repeat constructor.
Qed.

Lemma pad_step_mode (pad : PinPad.State) (e : PinPad.Event) :
  PinPad.mode (fst (PinPad.step pad e)) = PinPad.mode pad
  /\ Forall (fun d => Typing.consistent (PinPad.mode pad) d = true)
            (snd (PinPad.step pad e)).
Proof.
  destruct e as [key| | | |msg]; cbn [PinPad.step].
  - split; [|constructor]. cbn [fst]. unfold PinPad.handleKeydown.
    destruct (PinPad.is_digit_key key).
    + unfold PinPad.handleInput.
      destruct (String.length (PinPad.pin pad) <? PinPad.MAX_PIN_LENGTH)%nat; reflexivity.
    + destruct (String.eqb key "Backspace"); [|reflexivity].
      unfold PinPad.handleDelete.
      destruct (0 <? String.length (PinPad.pin pad))%nat; reflexivity.
  - destruct (PinPad.submitTimers pad); [split; [reflexivity|constructor]|].
    apply (handleSubmit_mode
             (PinPad.MkState (PinPad.mode pad) (PinPad.errorMsg pad) (PinPad.successMsg pad)
                             (PinPad.pin pad) (PinPad.confirmPin pad)
                             (PinPad.isConfirming pad) (PinPad.isShaking pad) n
                             (PinPad.shakeTimers pad))).
  - destruct (PinPad.shakeTimers pad); split; try reflexivity; constructor.
  - split; [|constructor]. cbn [fst]. unfold PinPad.clickReset.
    destruct (PinPad.mode pad) eqn:Em; try first [exact Em|reflexivity].
    destruct (PinPad.isConfirming pad); [reflexivity|first [exact Em|reflexivity]].
  - split; [apply triggerError_mode|constructor].
Qed.

Lemma set_pinState_fits (p : Page.PinState) (s : Page.State) :
  Typing.pad_fits s -> Typing.pad_fits (Page.set_pinState p s).
Proof.
  intros Hs. unfold Page.set_pinState.
  destruct (Page.PinState_eqb (Page.pinState s) p); [exact Hs|].
  unfold Typing.pad_fits. destruct p; cbn; auto.
Qed.

Lemma pad_triggerError_fits (msg : string) (s : Page.State) :
  Typing.pad_fits s -> Typing.pad_fits (Page.pad_triggerError msg s).
Proof.
  unfold Typing.pad_fits. cbn [Page.pad_triggerError Page.pinPadRef Page.pinState].
  destruct (Page.pinPadRef s) as [pad|]; cbn [option_map]; [|trivial].
  rewrite triggerError_mode. trivial.
Qed.

Lemma page_step_fits (s : Page.State) (e : Page.Event) :
  Typing.pad_fits s -> Typing.pad_fits (fst (Page.step s e)).
Proof.
  intros Hs.
  destruct e as [|pe|[r|[[|]|x]|[u|x]|[l|x]]| |k]; cbn [Page.step].
  - exact Hs.
  - unfold Typing.pad_fits in *. destruct (Page.pinPadRef s) as [pad|] eqn:Ep.
    + destruct (pad_step_mode pad pe) as [Hm _].
      destruct (PinPad.step pad pe) as [pad' ds].
      cbn [fst Page.pinPadRef Page.pinState] in *. rewrite Hm. exact Hs.
    + cbn [fst]. rewrite Ep. trivial.
  - cbn [fst]. destruct r as [[|]|x]; apply set_pinState_fits; exact Hs.
  - apply set_pinState_fits. exact Hs.
  - apply pad_triggerError_fits. exact Hs.
  - apply pad_triggerError_fits. exact Hs.
  - cbn [Page.handlePinSetup fst]. apply set_pinState_fits.
    unfold Typing.pad_fits in *. exact Hs.
  - apply pad_triggerError_fits. exact Hs.
  - unfold Typing.pad_fits in *. exact Hs.
  - unfold Typing.pad_fits in *. exact Hs.
  - destruct (Page.pinState s); try exact Hs. exact I.
  - unfold Typing.pad_fits in *.
    destruct (nth_error (Page.removedPads s) k) as [[ps pad]|]; [|exact Hs].
    destruct (PinPad.step pad PinPad.SubmitTimeout) as [pad' ds]. exact Hs.
Qed.

Lemma page_run_fits (es : list Page.Event) (s : Page.State) :
  Typing.pad_fits s -> Typing.pad_fits (fst (Page.run s es)).
Proof.
  revert s. induction es as [|e es IH]; intros s Hs; [exact Hs|].
  rewrite page_run_cons. cbn [fst]. apply IH. apply page_step_fits. exact Hs.
Qed.

Lemma on_dispatch_one (ps : Page.PinState) (m : PinPad.Mode) (ds : list PinPad.Dispatch) :
  (ps = Page.needs_setup /\ m = PinPad.setup) \/ (ps = Page.locked /\ m = PinPad.verify) ->
  Forall (fun d => Typing.consistent m d = true) ds ->
  flat_map (Page.on_dispatch ps) ds
  = map (fun d => match d with
                  | PinPad.submit p => Page.verify_pin p
                  | PinPad.setup_done p => Page.set_pin p
                  end) ds.
Proof.
  intros Hm Hds. induction Hds as [|d ds Hd _ IH]; [reflexivity|].
  cbn [flat_map map]. rewrite IH.
  destruct Hm as [[-> ->]|[-> ->]], d; try discriminate Hd; reflexivity.
Qed.

(** X25. The page always shows the pad in the mode its handler is bound
    for, [setup] while a PIN must be set up and [verify] while locked, so
    nothing a pad dispatches is dropped: every dispatched PIN becomes one
    command, [verify_pin] for a submit and [set_pin] for a finished
    set-up. *)
Theorem every_dispatch_becomes_a_command
        (es : list Page.Event) (pe : PinPad.Event) (pad : PinPad.State) :
  let s := fst (Page.run Page.initial es) in
  Page.pinPadRef s = Some pad ->
  ((Page.pinState s = Page.needs_setup /\ PinPad.mode pad = PinPad.setup)
   \/ (Page.pinState s = Page.locked /\ PinPad.mode pad = PinPad.verify))
  /\ snd (Page.step s (Page.Pad pe))
     = map (fun d => match d with
                     | PinPad.submit p => Page.verify_pin p
                     | PinPad.setup_done p => Page.set_pin p
                     end) (snd (PinPad.step pad pe)).
Proof.
  cbv zeta. intros Hp.
  assert (Hf := page_run_fits es Page.initial I).
  unfold Typing.pad_fits in Hf. rewrite Hp in Hf.
  split; [exact Hf|].
  cbn [Page.step]. rewrite Hp.
  destruct (pad_step_mode pad pe) as [_ Hds].
  destruct (PinPad.step pad pe) as [pad' ds]. cbn [fst snd] in *.
  apply (on_dispatch_one _ (PinPad.mode pad)); assumption.
Qed.

(** A locked page on whose pad four digits have been typed: the timer's
    dispatch becomes one [verify_pin]. *)
Lemma every_dispatch_becomes_a_command_witness :
  let es := [Page.Mount; Page.Settled (Page.has_pin_reply (Js.Resolved true))]
              ++ map Page.Pad (Typing.keys "0420") in
  let pad := PinPad.MkState PinPad.verify None None "0420" "" false false 1 0 in
  Page.pinPadRef (fst (Page.run Page.initial es)) = Some pad
  /\ snd (Page.step (fst (Page.run Page.initial es)) (Page.Pad PinPad.SubmitTimeout))
     = [Page.verify_pin "0420"].
Proof.
  cbv zeta. split; [reflexivity|].
  exact (proj2 (every_dispatch_becomes_a_command
                  ([Page.Mount; Page.Settled (Page.has_pin_reply (Js.Resolved true))]
                     ++ map Page.Pad (Typing.keys "0420"))
                  PinPad.SubmitTimeout
                  (PinPad.MkState PinPad.verify None None "0420" "" false false 1 0)
                  eq_refl)).
Defined.

(** ** A dropped backup file *)

(** X26. A backup file dropped on the page is answered like an import and
    handled like an export: for a file that parses to [count] accounts and
    a path chosen in the dialog, [handleDrop] leaves the page exactly as
    [handleImport] does after importing [count] accounts, with the same
    success toast, but the command it has invoked on the path is the
    [export_backup] of [handleExport], where [handleImport] invokes
    [import_backup]. *)
Theorem dropped_backup_is_exported_not_imported
        (f : PageFiles.File) (rest : list PageFiles.File) (path : string) (count : Z)
        (s : PageFiles.State) :
  PageFiles.endsWith (PageFiles.toLowerCase (PageFiles.name f)) ".json" = true ->
  PageFiles.content f = PageFiles.json_value (Js.toString count) ->
  path <> "" ->
  let s0 := PageFiles.MkState (PageFiles.page s) false in
  let dropped := PageFiles.handleDrop (f :: rest) (Some path) (Js.Resolved tt) s in
  let imported := PageFiles.handleImport (Some path) (Js.Resolved count) s0 in
  let exported := PageFiles.handleExport (Some path) (Js.Resolved tt) s0 in
  fst dropped = fst imported
  /\ snd dropped = snd exported ++ PageFiles.loadAccounts s0
  /\ snd imported = PageFiles.import_backup path :: PageFiles.loadAccounts s0
  /\ snd exported = [PageFiles.export_backup path].
Proof.
  intros Hjson Hcontent Hpath. cbv zeta.
  unfold PageFiles.handleDrop, PageFiles.handleImport, PageFiles.handleExport.
  rewrite Hjson, Hcontent. cbn [PageFiles.chosen_path].
  destruct path as [|c path]; [contradiction Hpath; reflexivity|].
  cbn [Js.is_empty fst snd app]. repeat split.
Qed.

Lemma dropped_backup_is_exported_not_imported_witness :
  let f := PageFiles.MkFile "Backup.JSON" (PageFiles.json_value "3") in
  let s := PageFiles.MkState (Page.MkState [] Page.unlocked None [] []) true in
  let s0 := PageFiles.MkState (PageFiles.page s) false in
  fst (PageFiles.handleDrop [f] (Some "D:\out.json") (Js.Resolved tt) s)
  = fst (PageFiles.handleImport (Some "D:\out.json") (Js.Resolved 3) s0)
  /\ snd (PageFiles.handleDrop [f] (Some "D:\out.json") (Js.Resolved tt) s)
     = [PageFiles.export_backup "D:\out.json"; PageFiles.page_command Page.get_accounts].
Proof.
  cbv zeta.
  destruct (dropped_backup_is_exported_not_imported
              (PageFiles.MkFile "Backup.JSON" (PageFiles.json_value "3")) [] "D:\out.json" 3
              (PageFiles.MkState (Page.MkState [] Page.unlocked None [] []) true)
              eq_refl eq_refl ltac:(discriminate)) as [H1 [H2 _]].
  split; [exact H1|exact H2].
Defined.

(** ** Escape on the selection overlay *)

(** X27. While the selection overlay is open, Escape is the only key that
    does anything, and although the modal's own handler closes the modal
    on it, the scan ends as a cancelled one: the overlay is closed, the
    window is back to its usual state, and the modal is shown again with
    the fields it held and no error. *)
Theorem escape_on_overlay_returns_to_modal (key : string) (s : QrScan.State) :
  QrScan.showScreenCapture s = true ->
  let result := QrScan.keydown key s in
  if String.eqb key "Escape" then
    QrScan.showScreenCapture (fst result) = false
    /\ QrScan.isScanning (fst result) = false
    /\ QrScan.form (fst result)
       = QrScan.set_showModal true (QrScan.set_error "" (QrScan.form s))
    /\ QrScan.window_after QrScan.overlaid (snd result) = QrScan.usual
  else result = (s, []).
Proof.
  intros Hopen. cbv zeta.
  unfold QrScan.keydown, QrScan.handleKeydown, Capture.handleKeydown.
  rewrite Hopen. cbn [andb].
  destruct (String.eqb key "Escape"); [|reflexivity].
  repeat split.
Qed.

Lemma escape_on_overlay_returns_to_modal_witness :
  let s := fst (QrScan.handleQrScan (Js.Resolved "data:image/png;base64,AAAA")
                                    (Js.Rejected (Js.ThrownString "no code found"))
                                    (Js.Rejected (Js.ThrownString "unused"))
                                    (QrScan.MkState Sample.form false false "")) in
  QrScan.showScreenCapture s = true
  /\ AddAccountModal.showModal (QrScan.form (fst (QrScan.keydown "Escape" s))) = true
  /\ QrScan.window_after QrScan.overlaid (snd (QrScan.keydown "Escape" s)) = QrScan.usual.
Proof.
  cbv zeta. split; [reflexivity|].
  destruct (escape_on_overlay_returns_to_modal
              "Escape"
              (fst (QrScan.handleQrScan (Js.Resolved "data:image/png;base64,AAAA")
                                        (Js.Rejected (Js.ThrownString "no code found"))
                                        (Js.Rejected (Js.ThrownString "unused"))
                                        (QrScan.MkState Sample.form false false "")))
              eq_refl) as [_ [_ [Hf Hw]]].
  split; [rewrite Hf; reflexivity|exact Hw].
Defined.

(** ** A timer that outlives its pad *)

(** The last digit corrected and the first of the two timers run, on the
    pad of the lock screen. *)
Lemma corrected_entry_first_timer (p : string) (d : ascii) :
  String.length p = PinPad.MAX_PIN_LENGTH ->
  forallb Js.is_digit (Js.chars p) = true ->
  Js.is_digit d = true ->
  let corrected := String.append (Js.drop_last p) (String d EmptyString) in
  PinPad.run (PinPad.mount PinPad.verify)
             (Typing.keys p
                ++ [PinPad.Keydown "Backspace"; PinPad.Keydown (String d EmptyString);
                    PinPad.SubmitTimeout])
  = (PinPad.MkState PinPad.verify None None corrected "" false false 1 0,
     [PinPad.submit corrected]).
Proof.
  intros Hl Hp Hd. cbv zeta. unfold PinPad.mount.
  rewrite pad_run_app, (type_pin p _ _ _ _ _ _ _ _ Hl Hp).
  cbn [fst snd app].
  destruct p as [|a [|b [|c [|x [|y p]]]]]; try discriminate Hl.
  rewrite !pad_run_cons, type_backspace.
  change (Js.drop_last (String a (String b (String c (String x EmptyString)))))
    with (String a (String b (String c EmptyString))).
  cbn [fst snd app].
  rewrite (type_digit d _ Hd) by reflexivity.
  cbn [fst snd app PinPad.mode PinPad.successMsg PinPad.pin PinPad.confirmPin
       PinPad.isConfirming PinPad.isShaking PinPad.submitTimers PinPad.shakeTimers
       String.append String.length Nat.eqb PinPad.MAX_PIN_LENGTH].
  rewrite submit_full by reflexivity.
  reflexivity.
Qed.

(** X28. A submit timer that is pending when the page unlocks still runs,
    on a pad that is no longer shown: when the last digit was corrected
    before the first timer ran and [verify_pin] answers [true], the second
    timer makes the unlocked page invoke [verify_pin] a second time with the
    same PIN. *)
Theorem removed_pad_submits_again (p : string) (d : ascii) :
  String.length p = PinPad.MAX_PIN_LENGTH ->
  forallb Js.is_digit (Js.chars p) = true ->
  Js.is_digit d = true ->
  let corrected := String.append (Js.drop_last p) (String d EmptyString) in
  let events :=
    [Page.Mount; Page.Settled (Page.has_pin_reply (Js.Resolved true))]
      ++ map Page.Pad (Typing.keys p
                         ++ [PinPad.Keydown "Backspace";
                             PinPad.Keydown (String d EmptyString);
                             PinPad.SubmitTimeout])
      ++ [Page.Settled (Page.verify_pin_reply (Js.Resolved true));
          Page.RemovedTimeout 0] in
  Page.pinState (fst (Page.run Page.initial events)) = Page.unlocked
  /\ snd (Page.run Page.initial events)
     = [Page.has_pin; Page.verify_pin corrected; Page.get_accounts;
        Page.verify_pin corrected].
Proof.
  intros Hl Hp Hd. cbv zeta. cbn [app]. rewrite !page_run_cons.
  cbn [Page.step Page.initial Page.initializePinState Page.set_pinState Page.pinState
       Page.PinState_eqb Page.rendered_pad Page.accounts Page.toasts Page.removedPads
       Page.pinPadRef Page.removed PinPad.mount PinPad.submitTimers Nat.ltb Nat.leb
       fst snd app].
  rewrite page_run_app, page_pad_run.
  rewrite (corrected_entry_first_timer p d Hl Hp Hd).
  cbn [fst snd app flat_map Page.on_dispatch].
  rewrite !page_run_cons.
  cbn [Page.step Page.handlePinSubmit Page.set_pinState Page.pinState Page.PinState_eqb
       Page.rendered_pad Page.accounts Page.toasts Page.removedPads Page.pinPadRef
       Page.removed Page.loadAccounts PinPad.submitTimers Nat.ltb Nat.leb
       fst snd app nth_error].
  rewrite submit_full.
  - split; reflexivity.
  - destruct p as [|a [|b [|c [|x [|y p]]]]]; try discriminate Hl. reflexivity.
Qed.

Lemma removed_pad_submits_again_witness :
  let events :=
    [Page.Mount; Page.Settled (Page.has_pin_reply (Js.Resolved true))]
      ++ map Page.Pad (Typing.keys "0421"
                         ++ [PinPad.Keydown "Backspace"; PinPad.Keydown "0";
                             PinPad.SubmitTimeout])
      ++ [Page.Settled (Page.verify_pin_reply (Js.Resolved true));
          Page.RemovedTimeout 0] in
  Page.pinState (fst (Page.run Page.initial events)) = Page.unlocked
  /\ snd (Page.run Page.initial events)
     = [Page.has_pin; Page.verify_pin "0420"; Page.get_accounts; Page.verify_pin "0420"].
Proof.
  exact (removed_pad_submits_again "0421" "0"%char eq_refl eq_refl eq_refl).
Defined.
